(** * The dxgkrnl handle manager (drivers/hyperv/dxgkrnl/hmgr.c)

    A shallow embedding of the handle table of the Hyper-V virtual GPU
    driver: the 32-bit handle codec, the table of entries with its free
    list threaded through the entries, and the operations that grow the
    table, allocate, assign, free and look up handles.

    C [uint] values are integers of [Z] with the wrap-around modulo [2^32]
    written out; the entry array is a list read and written by index, and
    an access outside of it is an explicit [OutOfBounds] outcome. *)

From Stdlib Require Import ZArith Lia Bool List.
From stdpp Require Import base option list.

Local Open Scope Z_scope.

(** ** Handle parameters *)

Definition HMGRHANDLE_INSTANCE_BITS : Z := 6.
Definition HMGRHANDLE_INDEX_BITS : Z := 24.
Definition HMGRHANDLE_UNIQUE_BITS : Z := 2.

Definition HMGRHANDLE_INSTANCE_SHIFT : Z := 0.
Definition HMGRHANDLE_INDEX_SHIFT : Z :=
  HMGRHANDLE_INSTANCE_BITS + HMGRHANDLE_INSTANCE_SHIFT.
Definition HMGRHANDLE_UNIQUE_SHIFT : Z :=
  HMGRHANDLE_INDEX_BITS + HMGRHANDLE_INDEX_SHIFT.

(** A C [uint]: the value modulo [2^32]. *)
Definition u32 (x : Z) : Z := x mod 2 ^ 32.

(** The masks are [int] expressions in the source; they meet a [uint]
    operand everywhere, so they are taken at their [uint] value. *)
Definition HMGRHANDLE_INSTANCE_MASK : Z :=
  u32 (Z.shiftl (Z.shiftl 1 HMGRHANDLE_INSTANCE_BITS - 1) HMGRHANDLE_INSTANCE_SHIFT).
Definition HMGRHANDLE_INDEX_MASK : Z :=
  u32 (Z.shiftl (Z.shiftl 1 HMGRHANDLE_INDEX_BITS - 1) HMGRHANDLE_INDEX_SHIFT).
Definition HMGRHANDLE_UNIQUE_MASK : Z :=
  u32 (Z.shiftl (Z.shiftl 1 HMGRHANDLE_UNIQUE_BITS - 1) HMGRHANDLE_UNIQUE_SHIFT).

Definition HMGRHANDLE_INSTANCE_MAX : Z := Z.shiftl 1 HMGRHANDLE_INSTANCE_BITS - 1.
Definition HMGRHANDLE_INDEX_MAX : Z := Z.shiftl 1 HMGRHANDLE_INDEX_BITS - 1.
Definition HMGRHANDLE_UNIQUE_MAX : Z := Z.shiftl 1 HMGRHANDLE_UNIQUE_BITS - 1.

Definition HMGRTABLE_SIZE_INCREMENT : Z := 1024.
Definition HMGRTABLE_MIN_FREE_ENTRIES : Z := 128.
Definition HMGRTABLE_INVALID_INDEX : Z :=
  u32 (Z.lnot (Z.shiftl 1 HMGRHANDLE_INDEX_BITS - 1)).

(** The file-level variable [table_size_increment]; nothing assigns it. *)
Definition table_size_increment : Z := HMGRTABLE_SIZE_INCREMENT.

(** Modelled from the spec: the typedef [d3dkmt_handle] is declared in a
    header that is not among the sources; the spec describes a handle as a
    32-bit value, and the code masks and shifts it as an unsigned one. *)
Definition d3dkmt_handle : Type := Z.

(** ** Handle codec *)

Definition get_unique (h : d3dkmt_handle) : Z :=
  Z.shiftr (Z.land h HMGRHANDLE_UNIQUE_MASK) HMGRHANDLE_UNIQUE_SHIFT.

Definition get_index (h : d3dkmt_handle) : Z :=
  Z.shiftr (Z.land h HMGRHANDLE_INDEX_MASK) HMGRHANDLE_INDEX_SHIFT.

Definition get_instance (h : d3dkmt_handle) : Z :=
  Z.shiftr (Z.land h HMGRHANDLE_INSTANCE_MASK) HMGRHANDLE_INSTANCE_SHIFT.

Definition build_handle (index unique instance : Z) : d3dkmt_handle :=
  let handle_bits :=
    Z.land (u32 (Z.shiftl index HMGRHANDLE_INDEX_SHIFT)) HMGRHANDLE_INDEX_MASK in
  let handle_bits :=
    Z.lor handle_bits
      (Z.land (u32 (Z.shiftl unique HMGRHANDLE_UNIQUE_SHIFT)) HMGRHANDLE_UNIQUE_MASK) in
  let handle_bits :=
    Z.lor handle_bits
      (Z.land (u32 (Z.shiftl instance HMGRHANDLE_INSTANCE_SHIFT)) HMGRHANDLE_INSTANCE_MASK) in
  handle_bits.

(** The spec's names for the codec. *)
Definition encode (index generation instance : Z) : d3dkmt_handle :=
  build_handle index generation instance.

Definition decode (h : d3dkmt_handle) : Z * Z * Z :=
  (get_index h, get_unique h, get_instance h).

(** ** Outcomes

    Every operation either returns, or touches memory outside the entry
    array; the latter is recorded with the offending index. *)

Inductive outcome (A : Type) : Type :=
| Ok (a : A)
| OutOfBounds (index : Z).

Arguments Ok {A} a.
Arguments OutOfBounds {A} index.

#[export] Instance outcome_ret : MRet outcome := fun A a => Ok a.
#[export] Instance outcome_fmap : FMap outcome := fun A B f m =>
  match m with
  | Ok a => Ok (f a)
  | OutOfBounds i => OutOfBounds i
  end.
#[export] Instance outcome_bind : MBind outcome := fun A B f m =>
  match m with
  | Ok a => f a
  | OutOfBounds i => OutOfBounds i
  end.

(** ** Handle entry *)

(** Modelled from the spec: [enum hmgrentry_type] is declared in hmgr.h,
    which is not among the sources. The spec describes it as a fixed enum of
    object kinds that is only ever compared for equality, with one
    distinguished tag for a free entry; every member fits the [type]
    bit-field, which is one bit wider than HMGRENTRY_TYPE_BITS. *)
Inductive hmgrentry_type : Type :=
| HMGRENTRY_TYPE_FREE
| HMGRENTRY_TYPE_OBJECT (kind : positive).

Definition type_eqb (a b : hmgrentry_type) : bool :=
  match a, b with
  | HMGRENTRY_TYPE_FREE, HMGRENTRY_TYPE_FREE => true
  | HMGRENTRY_TYPE_OBJECT k, HMGRENTRY_TYPE_OBJECT k' => Pos.eqb k k'
  | _, _ => false
  end.

(** [struct hmgrentry]. The anonymous union of [object] with the pair
    [prev_free_index], [next_free_index] is one 64-bit word [payload]: the
    pointer occupies all of it, [prev_free_index] its low half and
    [next_free_index] its high half (the LP64 little-endian layout of the
    x86-64 and arm64 targets). The bit-fields are kept within their widths
    by the writes below. *)
Record hmgrentry : Type := mk_hmgrentry {
  payload : Z;
  type : hmgrentry_type;
  unique : Z;
  instance : Z;
  destroyed : bool
}.

Definition object (e : hmgrentry) : Z := payload e.
Definition prev_free_index (e : hmgrentry) : Z := payload e mod 2 ^ 32.
Definition next_free_index (e : hmgrentry) : Z := (payload e / 2 ^ 32) mod 2 ^ 32.

Definition set_object (o : Z) (e : hmgrentry) : hmgrentry :=
  mk_hmgrentry o (type e) (unique e) (instance e) (destroyed e).
Definition set_prev_free_index (v : Z) (e : hmgrentry) : hmgrentry :=
  mk_hmgrentry (next_free_index e * 2 ^ 32 + u32 v)
    (type e) (unique e) (instance e) (destroyed e).
Definition set_next_free_index (v : Z) (e : hmgrentry) : hmgrentry :=
  mk_hmgrentry (u32 v * 2 ^ 32 + prev_free_index e)
    (type e) (unique e) (instance e) (destroyed e).
Definition set_type (t : hmgrentry_type) (e : hmgrentry) : hmgrentry :=
  mk_hmgrentry (payload e) t (unique e) (instance e) (destroyed e).
Definition set_unique (v : Z) (e : hmgrentry) : hmgrentry :=
  mk_hmgrentry (payload e) (type e) (v mod 2 ^ HMGRHANDLE_UNIQUE_BITS)
    (instance e) (destroyed e).
Definition set_instance (v : Z) (e : hmgrentry) : hmgrentry :=
  mk_hmgrentry (payload e) (type e) (unique e) (v mod 2 ^ HMGRHANDLE_INSTANCE_BITS)
    (destroyed e).
Definition set_destroyed (b : bool) (e : hmgrentry) : hmgrentry :=
  mk_hmgrentry (payload e) (type e) (unique e) (instance e) b.

(** ** Handle table *)

(** [struct hmgrtable], without the owning process and the lock.
    [entry_table] is [None] for the NULL pointer and otherwise the array
    as it was allocated. *)
Record hmgrtable : Type := mk_hmgrtable {
  entry_table : option (list hmgrentry);
  free_handle_list_head : Z;
  free_handle_list_tail : Z;
  table_size : Z;
  free_count : Z
}.

Definition with_entry_table (a : option (list hmgrentry)) (t : hmgrtable) : hmgrtable :=
  mk_hmgrtable a (free_handle_list_head t) (free_handle_list_tail t)
    (table_size t) (free_count t).
Definition with_head (v : Z) (t : hmgrtable) : hmgrtable :=
  mk_hmgrtable (entry_table t) v (free_handle_list_tail t) (table_size t) (free_count t).
Definition with_tail (v : Z) (t : hmgrtable) : hmgrtable :=
  mk_hmgrtable (entry_table t) (free_handle_list_head t) v (table_size t) (free_count t).
Definition with_table_size (v : Z) (t : hmgrtable) : hmgrtable :=
  mk_hmgrtable (entry_table t) (free_handle_list_head t) (free_handle_list_tail t)
    v (free_count t).
Definition with_free_count (v : Z) (t : hmgrtable) : hmgrtable :=
  mk_hmgrtable (entry_table t) (free_handle_list_head t) (free_handle_list_tail t)
    (table_size t) v.

(** Reading [table->entry_table[i]]. *)
Definition entry_at (table : hmgrtable) (i : Z) : outcome hmgrentry :=
  match entry_table table with
  | Some arr =>
      if (0 <=? i) && (i <? Z.of_nat (length arr)) then
        match arr !! Z.to_nat i with
        | Some e => Ok e
        | None => OutOfBounds i
        end
      else OutOfBounds i
  | None => OutOfBounds i
  end.

(** Writing fields of [table->entry_table[i]]. *)
Definition update_entry (table : hmgrtable) (i : Z) (f : hmgrentry -> hmgrentry)
  : outcome hmgrtable :=
  match entry_table table with
  | Some arr =>
      if (0 <=? i) && (i <? Z.of_nat (length arr)) then
        match arr !! Z.to_nat i with
        | Some e => Ok (with_entry_table (Some (<[Z.to_nat i := f e]> arr)) table)
        | None => OutOfBounds i
        end
      else OutOfBounds i
  | None => OutOfBounds i
  end.

Definition is_handle_valid (table : hmgrtable) (h : d3dkmt_handle)
    (ignore_destroyed : bool) (t : hmgrentry_type) : outcome bool :=
  let index := get_index h in
  let unique_ := get_unique h in
  if table_size table <=? index then Ok false
  else
    entry ← entry_at table index;
    if negb (unique_ =? unique entry) then Ok false
    else if destroyed entry && negb ignore_destroyed then Ok false
    else if type_eqb (type entry) HMGRENTRY_TYPE_FREE then Ok false
    else if negb (type_eqb t HMGRENTRY_TYPE_FREE) && negb (type_eqb t (type entry))
         then Ok false
    else Ok true.

Definition hmgrtable_get_used_entry_count (table : hmgrtable) : Z :=
  u32 (table_size table - free_count table).

Definition hmgrtable_mark_destroyed (table : hmgrtable) (h : d3dkmt_handle)
  : outcome (hmgrtable * bool) :=
  v ← is_handle_valid table h false HMGRENTRY_TYPE_FREE;
  if negb v then Ok (table, false)
  else
    table ← update_entry table (get_index h) (set_destroyed true);
    Ok (table, true).

Definition hmgrtable_unmark_destroyed (table : hmgrtable) (h : d3dkmt_handle)
  : outcome (hmgrtable * bool) :=
  v ← is_handle_valid table h true HMGRENTRY_TYPE_FREE;
  if negb v then Ok (table, true)
  else
    table ← update_entry table (get_index h) (set_destroyed false);
    Ok (table, true).

Definition is_empty (table : hmgrtable) : bool :=
  free_count table =? table_size table.

(** ** Growing the table *)

(** The [while] loop of [expand_table]: its body runs once for each index
    from [table_size] up to [new_table_size - 1], [n] being the number of
    those indices. Returns the table and the final [table_index]. *)
Fixpoint expand_loop (n : nat) (table_index prev_free_index_ : Z) (table : hmgrtable)
  : outcome (hmgrtable * Z) :=
  match n with
  | O => Ok (table, table_index)
  | S n' =>
      table ← update_entry table table_index (fun entry =>
        set_instance 0 (set_unique 1 (set_type HMGRENTRY_TYPE_FREE
          (set_next_free_index (table_index + 1)
            (set_prev_free_index prev_free_index_ entry)))));
      expand_loop n' (u32 (table_index + 1)) table_index table
  end.

(** [dxgmem_alloc] and [dxgmem_free] are external to the file. The result
    of the one allocation [expand_table] makes is the argument [mem]:
    [None] for NULL, and [Some fresh] for a block whose element [i] holds
    [fresh i] before it is written. *)
Definition expand_table (mem : option (Z -> hmgrentry)) (table : hmgrtable)
    (NumEntries : Z) : outcome (hmgrtable * bool) :=
  let tail_index := free_handle_list_tail table in
  tail_is_last ←
    (if free_count table =? 0 then Ok true
     else
       entry ← entry_at table tail_index;
       Ok (next_free_index entry =? HMGRTABLE_INVALID_INDEX));
  if negb tail_is_last then Ok (table, false)
  else
    let new_table_size := u32 (table_size table + table_size_increment) in
    let new_table_size :=
      if new_table_size <? NumEntries then NumEntries else new_table_size in
    if HMGRHANDLE_INDEX_MAX <? new_table_size then Ok (table, false)
    else
      match mem with
      | None => Ok (table, false)
      | Some fresh =>
          let added := seqZ (table_size table) (new_table_size - table_size table) in
          copied ←
            match entry_table table with
            | Some old =>
                if (Z.of_nat (length old) <? table_size table)
                   || (new_table_size <? table_size table)
                then OutOfBounds (table_size table)
                else Ok (with_entry_table
                           (Some (take (Z.to_nat (table_size table)) old ++ map fresh added))
                           table)
            | None =>
                Ok (with_entry_table (Some (map fresh (seqZ 0 new_table_size)))
                      (with_head 0 table))
            end;
          let table_index := table_size copied in
          let new_free_count := u32 (free_count copied + table_size_increment) in
          let prev_free_index_ := free_handle_list_tail copied in
          '(table1, table_index) ←
            expand_loop (Z.to_nat (new_table_size - table_index))
              table_index prev_free_index_ copied;
          table2 ← update_entry table1 (u32 (table_index - 1))
                      (set_next_free_index HMGRTABLE_INVALID_INDEX);
          table3 ←
            (if negb (free_count table2 =? 0) then
               update_entry table2 (free_handle_list_tail table2)
                 (set_next_free_index (table_size table2))
             else Ok table2);
          let table4 := with_tail (u32 (new_table_size - 1)) table3 in
          let table5 :=
            if free_handle_list_head table4 =? HMGRTABLE_INVALID_INDEX
            then with_head (table_size table4) table4 else table4 in
          Ok (with_free_count new_free_count (with_table_size new_table_size table5), true)
      end.

Definition hmgrtable_init : hmgrtable :=
  mk_hmgrtable None HMGRTABLE_INVALID_INDEX HMGRTABLE_INVALID_INDEX 0 0.

(** ** Allocating, assigning and freeing handles *)

(** The DXGKRNL_ASSERT lines of the source are debugging assertions and
    change no state, so the functions below do not mention them. The two
    that open [hmgrtable_free_handle] are recorded as a predicate on the
    table the function is entered with. *)
Definition free_handle_asserts (table : hmgrtable) : Prop :=
  free_count table < table_size table /\
  HMGRTABLE_MIN_FREE_ENTRIES <= free_count table.

(** Returns the table and the handle; the handle is [0] on every failing
    path. *)
Definition hmgrtable_alloc_handle (mem : option (Z -> hmgrentry)) (table : hmgrtable)
    (object_ : Z) (type_ : hmgrentry_type) (make_valid : bool)
  : outcome (hmgrtable * d3dkmt_handle) :=
  '(table, expanded) ←
    (if free_count table <=? HMGRTABLE_MIN_FREE_ENTRIES
     then expand_table mem table 0
     else Ok (table, true));
  if negb expanded then Ok (table, 0)
  else if table_size table <=? free_handle_list_head table then Ok (table, 0)
  else
    let index := free_handle_list_head table in
    entry ← entry_at table index;
    if negb (type_eqb (type entry) HMGRENTRY_TYPE_FREE) then Ok (table, 0)
    else
      let table := with_head (next_free_index entry) table in
      if negb (next_free_index entry =? free_handle_list_tail table)
         && (table_size table <=? next_free_index entry)
      then Ok (table, 0)
      else
        table ←
          (if negb (next_free_index entry =? free_handle_list_tail table)
           then update_entry table (next_free_index entry)
                  (set_prev_free_index HMGRTABLE_INVALID_INDEX)
           else Ok table);
        slot ← entry_at table index;
        let unique_ := unique slot in
        table ← update_entry table index (fun e =>
          set_destroyed (negb make_valid)
            (set_instance 0 (set_type type_ (set_object object_ e))));
        let table := with_free_count (u32 (free_count table - 1)) table in
        slot ← entry_at table index;
        Ok (table, build_handle index unique_ (instance slot)).

(** Modelled from the spec: the status codes are macros of a header that is
    not among the sources. The function returns [0] on success and one of
    two named failure codes otherwise. *)
Inductive status : Type :=
| STATUS_SUCCESS
| STATUS_INVALID_PARAMETER
| STATUS_NO_MEMORY.

Definition hmgrtable_build_entry_handle (table : hmgrtable) (index : Z)
  : outcome d3dkmt_handle :=
  e ← entry_at table index;
  Ok (build_handle index (unique e) (instance e)).

Definition hmgrtable_assign_handle (mem : option (Z -> hmgrentry)) (table : hmgrtable)
    (object_ : Z) (type_ : hmgrentry_type) (h : d3dkmt_handle)
  : outcome (hmgrtable * status) :=
  let index := get_index h in
  let unique_ := get_unique h in
  if HMGRHANDLE_INDEX_MAX <=? index then Ok (table, STATUS_INVALID_PARAMETER)
  else
    '(table, expanded) ←
      (if table_size table <=? index then
         let new_size := u32 (index + HMGRTABLE_SIZE_INCREMENT) in
         let new_size :=
           if HMGRHANDLE_INDEX_MAX <? new_size then HMGRHANDLE_INDEX_MAX else new_size in
         expand_table mem table new_size
       else Ok (table, true));
    if negb expanded then Ok (table, STATUS_NO_MEMORY)
    else
      entry ← entry_at table index;
      if negb (type_eqb (type entry) HMGRENTRY_TYPE_FREE)
      then Ok (table, STATUS_INVALID_PARAMETER)
      else if negb (index =? free_handle_list_tail table)
              && (table_size table <=? next_free_index entry)
      then Ok (table, STATUS_INVALID_PARAMETER)
      else
        table ←
          (if negb (index =? free_handle_list_tail table)
           then update_entry table (next_free_index entry)
                  (set_prev_free_index (prev_free_index entry))
           else Ok (with_tail (prev_free_index entry) table));
        entry ← entry_at table index;
        if negb (index =? free_handle_list_head table)
           && (table_size table <=? prev_free_index entry)
        then Ok (table, STATUS_INVALID_PARAMETER)
        else
          table ←
            (if negb (index =? free_handle_list_head table)
             then update_entry table (prev_free_index entry)
                    (set_next_free_index (next_free_index entry))
             else Ok (with_head (next_free_index entry) table));
          table ← update_entry table index (fun e =>
            set_destroyed false (set_unique unique_ (set_instance 0 (set_type type_
              (set_object object_
                (set_next_free_index HMGRTABLE_INVALID_INDEX
                  (set_prev_free_index HMGRTABLE_INVALID_INDEX e)))))));
          Ok (with_free_count (u32 (free_count table - 1)) table, STATUS_SUCCESS).

Definition hmgrtable_free_handle (table : hmgrtable) (t : hmgrentry_type)
    (h : d3dkmt_handle) : outcome hmgrtable :=
  let i := get_index h in
  valid ← is_handle_valid table h true t;
  if (valid : bool) then
    table ← update_entry table i (fun entry =>
      let entry := set_unique 1 entry in
      let entry := set_type HMGRENTRY_TYPE_FREE entry in
      let entry := set_destroyed false entry in
      if negb (unique entry =? HMGRHANDLE_UNIQUE_MAX)
      then set_unique (unique entry + 1) entry
      else set_unique 1 entry);
    let table := with_free_count (u32 (free_count table + 1)) table in
    table ← update_entry table i (fun entry =>
      set_prev_free_index (free_handle_list_tail table)
        (set_next_free_index HMGRTABLE_INVALID_INDEX entry));
    table ← update_entry table (free_handle_list_tail table) (set_next_free_index i);
    Ok (with_tail i table)
  else Ok table.

(** ** Lookup *)

(** The NULL pointer. *)
Definition NULL : Z := 0.

Definition hmgrtable_get_object (table : hmgrtable) (h : d3dkmt_handle) : outcome Z :=
  valid ← is_handle_valid table h false HMGRENTRY_TYPE_FREE;
  if negb valid then Ok NULL
  else e ← entry_at table (get_index h); Ok (object e).

Definition hmgrtable_get_object_by_type (table : hmgrtable) (type_ : hmgrentry_type)
    (h : d3dkmt_handle) : outcome Z :=
  valid ← is_handle_valid table h false type_;
  if negb valid then Ok NULL
  else e ← entry_at table (get_index h); Ok (object e).

Definition hmgrtable_get_object_ignore_destroyed (table : hmgrtable)
    (h : d3dkmt_handle) (type_ : hmgrentry_type) : outcome Z :=
  valid ← is_handle_valid table h true type_;
  if negb valid then Ok NULL
  else e ← entry_at table (get_index h); Ok (object e).

(** ** Runs of the table

    The operations a caller can apply to a table, each with the outcome of
    the memory allocation it may make. *)
Inductive operation : Type :=
| Alloc (mem : option (Z -> hmgrentry)) (object_ : Z) (type_ : hmgrentry_type)
    (make_valid : bool)
| Assign (mem : option (Z -> hmgrentry)) (object_ : Z) (type_ : hmgrentry_type)
    (h : d3dkmt_handle)
| Free (t : hmgrentry_type) (h : d3dkmt_handle)
| Grow (mem : option (Z -> hmgrentry)) (NumEntries : Z)
| MarkDestroyed (h : d3dkmt_handle)
| UnmarkDestroyed (h : d3dkmt_handle).

Definition run (op : operation) (table : hmgrtable) : outcome hmgrtable :=
  match op with
  | Alloc mem o t mv => fst <$> hmgrtable_alloc_handle mem table o t mv
  | Assign mem o t h => fst <$> hmgrtable_assign_handle mem table o t h
  | Free t h => hmgrtable_free_handle table t h
  | Grow mem n => fst <$> expand_table mem table n
  | MarkDestroyed h => fst <$> hmgrtable_mark_destroyed table h
  | UnmarkDestroyed h => fst <$> hmgrtable_unmark_destroyed table h
  end.

(** The table states a caller can produce from [hmgrtable_init] with
    operations that satisfy [allowed]. *)
Inductive reachable_by (allowed : operation -> Prop) : hmgrtable -> Prop :=
| reachable_init : reachable_by allowed hmgrtable_init
| reachable_run op table table' :
    reachable_by allowed table ->
    allowed op ->
    run op table = Ok table' ->
    reachable_by allowed table'.

Definition reachable : hmgrtable -> Prop := reachable_by (fun _ => True).

(** Running a list of operations in order. *)
Fixpoint run_all (ops : list operation) (table : hmgrtable) : outcome hmgrtable :=
  match ops with
  | [] => Ok table
  | op :: ops' => table ← run op table; run_all ops' table
  end.

(** The number of entries of the table whose type is Free. *)
Definition count_free (table : hmgrtable) : Z :=
  match entry_table table with
  | Some arr =>
      Z.of_nat (length (filter (fun e => type_eqb (type e) HMGRENTRY_TYPE_FREE = true) arr))
  | None => 0
  end.

(** The generation stored in slot [i]. *)
Definition generation_at (table : hmgrtable) (i : Z) : outcome Z :=
  unique <$> entry_at table i.

(** ** Invariants *)

Definition is_u32 (x : Z) : Prop := 0 <= x < 2 ^ 32.

(** The array has exactly [table_size] elements (none when the pointer is
    NULL). *)
Definition array_ok (table : hmgrtable) : Prop :=
  match entry_table table with
  | Some arr => Z.of_nat (length arr) = table_size table
  | None => table_size table = 0
  end.

Definition generation_in (lo : Z) (e : hmgrentry) : Prop :=
  lo <= unique e <= HMGRHANDLE_UNIQUE_MAX.

Definition entries_all (P : hmgrentry -> Prop) (table : hmgrtable) : Prop :=
  match entry_table table with
  | Some arr => Forall P arr
  | None => True
  end.

(** What every operation keeps true of the table: its scalar fields are
    [uint] values, the array is as long as [table_size] says, the size is
    within the index field, and every stored generation is a 2-bit value
    not below [lo]. *)
Record table_ok (lo : Z) (table : hmgrtable) : Prop := mk_table_ok {
  ok_array : array_ok table;
  ok_size : 0 <= table_size table <= HMGRHANDLE_INDEX_MAX;
  ok_head : is_u32 (free_handle_list_head table);
  ok_tail : is_u32 (free_handle_list_tail table);
  ok_free_count : is_u32 (free_count table);
  ok_entries : entries_all (generation_in lo) table
}.

(** The generation a free is to leave in a slot whose generation is [g],
    in the words of the spec: one more, wrapping to 1 when [g] is the
    maximum of the field. To be compared with what
    [hmgrtable_free_handle] stores. *)
Definition spec_next_generation (g : Z) : Z :=
  if g =? HMGRHANDLE_UNIQUE_MAX then 1 else g + 1.

(** The size [expand_table] aims for. *)
Definition expand_target (table : hmgrtable) (NumEntries : Z) : Z :=
  let new_table_size := u32 (table_size table + table_size_increment) in
  if new_table_size <? NumEntries then NumEntries else new_table_size.

(** The operations that put no generation 0 into the table on their own
    account: all but an assign of a handle whose generation field is 0. *)
Definition nonzero_generation (op : operation) : Prop :=
  match op with
  | Assign _ _ _ h => get_unique h <> 0
  | _ => True
  end.

(** ** Example runs *)

(** A freshly allocated block for the examples: every field reads as zero
    (the tag shown for the type field is immaterial, [expand_table]
    overwrites it before anything reads it). *)
Definition zeroed : Z -> hmgrentry :=
  fun _ => mk_hmgrentry 0 HMGRENTRY_TYPE_FREE 0 0 false.

(** One object kind, standing for any member of the enum but Free. *)
Definition device : hmgrentry_type := HMGRENTRY_TYPE_OBJECT 3.

(** A free entry as [expand_table] leaves it, with its two links; the
    entries [first .. first + count - 1] of an untouched stretch of the free
    list; and an occupied entry holding the object 4096 of type [device]. *)
Definition free_entry (prev next : Z) : hmgrentry :=
  mk_hmgrentry (next * 2 ^ 32 + prev) HMGRENTRY_TYPE_FREE 1 0 false.

Definition free_chain (first count : Z) : list hmgrentry :=
  map (fun i => free_entry (i - 1) (i + 1)) (seqZ first count).

Definition used_entry (generation : Z) (destroyed_ : bool) : hmgrentry :=
  mk_hmgrentry 4096 device generation 0 destroyed_.

(** A table of 1024 entries with slot 0 occupied and the other 1023 on the
    free list, from slot 1 to slot 1023. *)
Definition first_slot_table (generation : Z) (destroyed_ : bool) : hmgrtable :=
  mk_hmgrtable
    (Some (used_entry generation destroyed_
           :: free_entry HMGRTABLE_INVALID_INDEX 2
           :: free_chain 2 1021 ++ [free_entry 1022 HMGRTABLE_INVALID_INDEX]))
    1 1023 1024 1023.

(** The table after one allocation on the empty table, with [make_valid]
    true and with [make_valid] false. *)
Definition one_alloc_table : hmgrtable := first_slot_table 1 false.
Definition one_destroyed_table : hmgrtable := first_slot_table 1 true.

(** Slot 0 allocated, freed, and assigned again at the generation the free
    left in it; and the table this run ends in. *)
Definition reuse_slot_0 : list operation :=
  [Alloc (Some zeroed) 4096 device true;
   Free device (build_handle 0 1 0);
   Assign (Some zeroed) 4096 device (build_handle 0 2 0)].

Definition reused_table : hmgrtable := first_slot_table 2 false.

(** The table after an assign at index 1 on the empty table, which grows it
    to 1025 entries. *)
Definition sparse_table : hmgrtable :=
  mk_hmgrtable
    (Some (free_entry HMGRTABLE_INVALID_INDEX 2
           :: used_entry 1 false
           :: free_entry 0 3
           :: free_chain 3 1021 ++ [free_entry 1023 HMGRTABLE_INVALID_INDEX]))
    0 1024 1025 1023.

(** The table after an assign, on the empty table, of the handle of index 5
    whose generation field is 0. *)
Definition zero_generation_table : hmgrtable :=
  mk_hmgrtable
    (Some (free_entry HMGRTABLE_INVALID_INDEX 1
           :: free_chain 1 3
           ++ free_entry 3 6 :: used_entry 0 false :: free_entry 4 7
           :: free_chain 7 1021 ++ [free_entry 1027 HMGRTABLE_INVALID_INDEX]))
    0 1028 1029 1023.

(** Assigning the slots [0 .. n-1] in turn; and the table after the first
    1024 of these on the empty table: every entry occupied, the free list
    empty. *)
Definition assign_first (n : Z) : list operation :=
  map (fun i => Assign (Some zeroed) 4096 device (build_handle i 1 0)) (seqZ 0 n).

Definition full_table : hmgrtable :=
  mk_hmgrtable (Some (replicate 1024 (used_entry 1 false)))
    HMGRTABLE_INVALID_INDEX HMGRTABLE_INVALID_INDEX 1024 0.

(** ** Access by index, type of a handle, iteration *)

Definition hmgrtable_get_entry_object (table : hmgrtable) (index : Z) : outcome Z :=
  e ← entry_at table index;
  Ok (object e).

Definition hmgrtable_get_entry_type (table : hmgrtable) (index : Z)
  : outcome hmgrentry_type :=
  e ← entry_at table index;
  Ok (type e).

Definition hmgrtable_get_object_type (table : hmgrtable) (h : d3dkmt_handle)
  : outcome hmgrentry_type :=
  valid ← is_handle_valid table h false HMGRENTRY_TYPE_FREE;
  if negb valid then Ok HMGRENTRY_TYPE_FREE
  else hmgrtable_get_entry_type table (get_index h).

(** What [hmgrtable_next_entry] hands back through its four pointers when
    it returns true: the index to resume from, the type, the handle and the
    object of the entry found. *)
Record next_entry_result : Type := mk_next_entry_result {
  next_index : Z;
  next_type : hmgrentry_type;
  next_handle : d3dkmt_handle;
  next_object : Z
}.

(** The [for] loop of [hmgrtable_next_entry], [n] being the number of
    indices from [i] up to [table_size - 1]. [None] is the return of
    false, which writes through none of the pointers. *)
Fixpoint next_entry_loop (n : nat) (tbl : hmgrtable) (i : Z)
  : outcome (option next_entry_result) :=
  match n with
  | O => Ok None
  | S n' =>
      entry ← entry_at tbl i;
      if negb (type_eqb (type entry) HMGRENTRY_TYPE_FREE) then
        Ok (Some (mk_next_entry_result (u32 (i + 1)) (type entry)
                    (build_handle i (unique entry) (instance entry)) (object entry)))
      else next_entry_loop n' tbl (u32 (i + 1))
  end.

Definition hmgrtable_next_entry (tbl : hmgrtable) (index : Z)
  : outcome (option next_entry_result) :=
  next_entry_loop (Z.to_nat (table_size tbl - index)) tbl index.

(** ** Releasing the table *)

(** [hmgrtable_destroy] frees the array and clears the pointer; the other
    fields stay as they were. *)
Definition hmgrtable_destroy (table : hmgrtable) : hmgrtable :=
  match entry_table table with
  | Some _ => with_entry_table None table
  | None => table
  end.

(** ** What an operation leaves of the entries *)

(** Two entries with the same bit-fields; the union may differ. *)
Definition same_meta (e e' : hmgrentry) : Prop :=
  type e' = type e /\ unique e' = unique e /\
  instance e' = instance e /\ destroyed e' = destroyed e.

(** [table'] is at least as large as [table], and every occupied entry of
    [table] at an index that satisfies [P] is in [table'] with the same
    bit-fields. *)
Definition extends (P : Z -> Prop) (table table' : hmgrtable) : Prop :=
  table_size table <= table_size table' /\
  forall i e, P i -> type e <> HMGRENTRY_TYPE_FREE -> entry_at table i = Ok e ->
    exists e', entry_at table' i = Ok e' /\ same_meta e e'.

(** The slot an operation is aimed at: the one of the handle that is
    freed, marked or unmarked. *)
Definition targets (op : operation) (i : Z) : Prop :=
  match op with
  | Free _ h | MarkDestroyed h | UnmarkDestroyed h => get_index h = i
  | _ => False
  end.

(** ** The free list

    The operations that take free slots from the head of the free list
    only and grow the table by the default increment only: all but assign
    and a direct call of [expand_table]. An allocation is of an object
    type, as the second assertion of [hmgrtable_alloc_handle] asks. *)
Definition list_discipline (op : operation) : Prop :=
  match op with
  | Alloc _ _ type_ _ => type_ <> HMGRENTRY_TYPE_FREE
  | Assign _ _ _ _ | Grow _ _ => False
  | _ => True
  end.

(** [fl] is the free list of [table], first to last: the head and the
    tail of the table are its ends (the sentinel when it is empty), its
    length is [free_count], it has no index twice, each of its slots is
    Free and points forward to the one after it (the last one to the
    sentinel), and every Free slot of the table is in it. *)
Record free_list_is (table : hmgrtable) (fl : list Z) : Prop := mk_free_list_is {
  fl_head : free_handle_list_head table = default HMGRTABLE_INVALID_INDEX (fl !! 0%nat);
  fl_tail : free_handle_list_tail table = default HMGRTABLE_INVALID_INDEX (last fl);
  fl_count : free_count table = Z.of_nat (length fl);
  fl_nodup : NoDup fl;
  fl_links : forall k i, fl !! k = Some i ->
    exists e, entry_at table i = Ok e /\ type e = HMGRENTRY_TYPE_FREE /\
      next_free_index e = default HMGRTABLE_INVALID_INDEX (fl !! S k);
  fl_all : forall i e,
    entry_at table i = Ok e -> type e = HMGRENTRY_TYPE_FREE -> i ∈ fl
}.

(** The fields of a slot the loop of [expand_table] has written. *)
Definition appended (e : hmgrentry) (prev next : Z) : Prop :=
  type e = HMGRENTRY_TYPE_FREE /\ unique e = 1 /\ instance e = 0 /\
  prev_free_index e = prev /\ next_free_index e = next.

(** ** More example tables *)

(** The table after a second allocation: slots 0 and 1 occupied. *)
Definition two_alloc_table : hmgrtable :=
  mk_hmgrtable
    (Some (used_entry 1 false
           :: used_entry 1 false
           :: free_entry HMGRTABLE_INVALID_INDEX 3
           :: free_chain 3 1020 ++ [free_entry 1022 HMGRTABLE_INVALID_INDEX]))
    2 1023 1024 1022.

(** The table after one allocation and the free of its handle: slot 0 is
    free again, at the tail of the free list. *)
Definition freed_table : hmgrtable :=
  mk_hmgrtable
    (Some (mk_hmgrentry (HMGRTABLE_INVALID_INDEX * 2 ^ 32 + 1023) HMGRENTRY_TYPE_FREE 2 0 false
           :: free_entry HMGRTABLE_INVALID_INDEX 2
           :: free_chain 2 1021 ++ [free_entry 1022 0]))
    1 0 1024 1024.

(** The table after one allocation and a growth by the default increment:
    the 1024 new slots follow the old tail on the free list. *)
Definition grown_table : hmgrtable :=
  mk_hmgrtable
    (Some (used_entry 1 false
           :: free_entry HMGRTABLE_INVALID_INDEX 2
           :: free_chain 2 2045 ++ [free_entry 2046 HMGRTABLE_INVALID_INDEX]))
    1 2047 2048 2047.




(** * Properties *)

Example masks_values :
  HMGRHANDLE_INSTANCE_MASK = 0x3F /\ HMGRHANDLE_INDEX_MASK = 0x3FFFFFC0 /\
  HMGRHANDLE_UNIQUE_MASK = 0xC0000000 /\ HMGRTABLE_INVALID_INDEX = 0xFF000000 /\
  HMGRHANDLE_INDEX_MAX = 0xFFFFFF /\ HMGRHANDLE_UNIQUE_MAX = 3.
Proof. repeat split. Qed.

Example build_handle_5_2_0 : build_handle 5 2 0 = 0x80000140.
Proof. reflexivity. Qed.

Example decode_80000140 : decode 0x80000140 = (5, 2, 0).
Proof. reflexivity. Qed.

(** ** The handle codec *)

(** A field of [w] bits at offset [s], read and written with a mask and a
    shift, is a quotient and a remainder. *)
Lemma field_extract (h w s : Z) :
  0 <= s -> 0 <= w ->
  Z.shiftr (Z.land h (Z.shiftl (Z.ones w) s)) s = (h / 2 ^ s) mod 2 ^ w.
Proof.
  intros Hs Hw.
  rewrite Z.shiftr_land, Z.shiftr_shiftl_l by lia.
  rewrite Z.sub_diag, Z.shiftl_0_r, Z.land_ones, Z.shiftr_div_pow2 by lia.
  reflexivity.
Qed.

Lemma field_insert (v w s : Z) :
  0 <= s -> 0 <= w ->
  Z.land (Z.shiftl v s) (Z.shiftl (Z.ones w) s) = (v mod 2 ^ w) * 2 ^ s.
Proof.
  intros Hs Hw.
  rewrite <- Z.shiftl_land, Z.land_ones, Z.shiftl_mul_pow2 by lia.
  reflexivity.
Qed.

Lemma lor_disjoint (a b k : Z) :
  0 <= k -> 0 <= b < 2 ^ k ->
  Z.lor (a * 2 ^ k) b = a * 2 ^ k + b.
Proof.
  intros Hk Hb.
  assert (Hd : Z.land (a * 2 ^ k) b = 0).
  { apply Z.bits_inj'. intros j Hj.
    rewrite Z.land_spec, Z.bits_0.
    destruct (Z.lt_ge_cases j k) as [Hlt | Hge].
    - rewrite Z.mul_pow2_bits_low by lia. reflexivity.
    - rewrite <- (Z.mod_small b (2 ^ k)) by lia.
      rewrite Z.mod_pow2_bits_high by lia. apply andb_false_r. }
  rewrite <- Z.lxor_lor by exact Hd.
  symmetry. apply Z.add_nocarry_lxor. exact Hd.
Qed.

Lemma get_index_eq h : get_index h = (h / 2 ^ 6) mod 2 ^ 24.
Proof. exact (field_extract h 24 6 ltac:(lia) ltac:(lia)). Qed.
Lemma get_unique_eq h : get_unique h = (h / 2 ^ 30) mod 2 ^ 2.
Proof. exact (field_extract h 2 30 ltac:(lia) ltac:(lia)). Qed.
Lemma get_instance_eq h : get_instance h = (h / 2 ^ 0) mod 2 ^ 6.
Proof. exact (field_extract h 6 0 ltac:(lia) ltac:(lia)). Qed.

Lemma build_handle_eq i g n :
  0 <= i < 2 ^ 24 -> 0 <= g < 2 ^ 2 -> 0 <= n < 2 ^ 6 ->
  build_handle i g n = g * 2 ^ 30 + (i * 2 ^ 6 + n).
Proof.
  intros Hi Hg Hn. unfold build_handle, u32.
  change HMGRHANDLE_INDEX_SHIFT with 6. change HMGRHANDLE_UNIQUE_SHIFT with 30.
  change HMGRHANDLE_INSTANCE_SHIFT with 0.
  change HMGRHANDLE_INDEX_MASK with (Z.shiftl (Z.ones 24) 6).
  change HMGRHANDLE_UNIQUE_MASK with (Z.shiftl (Z.ones 2) 30).
  change HMGRHANDLE_INSTANCE_MASK with (Z.shiftl (Z.ones 6) 0).
  rewrite !(Z.mod_small (Z.shiftl _ _)) by (rewrite Z.shiftl_mul_pow2; lia).
  rewrite !field_insert by lia.
  rewrite !Z.mod_small by lia.
  change (2 ^ 0) with 1. rewrite Z.mul_1_r.
  rewrite (Z.lor_comm (i * 2 ^ 6)), <- Z.lor_assoc.
  rewrite (lor_disjoint i n 6) by lia.
  apply lor_disjoint; lia.
Qed.

Ltac field_arith :=
  change (2 ^ 0) with 1; change (2 ^ 2) with 4 in *; change (2 ^ 6) with 64 in *;
  change (2 ^ 24) with 16777216 in *; change (2 ^ 30) with 1073741824;
  Z.div_mod_to_equations; lia.

Lemma get_index_build_handle i g n :
  0 <= i < 2 ^ 24 -> 0 <= g < 2 ^ 2 -> 0 <= n < 2 ^ 6 ->
  get_index (build_handle i g n) = i.
Proof.
  intros Hi Hg Hn. rewrite get_index_eq, build_handle_eq by assumption. field_arith.
Qed.

Lemma get_unique_build_handle i g n :
  0 <= i < 2 ^ 24 -> 0 <= g < 2 ^ 2 -> 0 <= n < 2 ^ 6 ->
  get_unique (build_handle i g n) = g.
Proof.
  intros Hi Hg Hn. rewrite get_unique_eq, build_handle_eq by assumption. field_arith.
Qed.

Lemma get_instance_build_handle i g n :
  0 <= i < 2 ^ 24 -> 0 <= g < 2 ^ 2 -> 0 <= n < 2 ^ 6 ->
  get_instance (build_handle i g n) = n.
Proof.
  intros Hi Hg Hn. rewrite get_instance_eq, build_handle_eq by assumption. field_arith.
Qed.

(** ** Reading and writing entries *)

Lemma bind_Ok {A B} (m : outcome A) (k : A -> outcome B) (b : B) :
  m ≫= k = Ok b -> exists a, m = Ok a /\ k a = Ok b.
Proof. destruct m as [a | i]; simpl; [eauto | discriminate]. Qed.

Lemma type_eqb_eq a b : type_eqb a b = true <-> a = b.
Proof.
  destruct a as [| k], b as [| k']; simpl; split; intros H;
    try discriminate; try reflexivity.
  - apply Pos.eqb_eq in H. congruence.
  - injection H as ->. apply Pos.eqb_refl.
Qed.

Lemma type_eqb_neq a b : type_eqb a b = false <-> a <> b.
Proof.
  rewrite <- type_eqb_eq. destruct (type_eqb a b); split; congruence.
Qed.

Lemma entry_at_Ok table i e :
  entry_at table i = Ok e <->
  exists arr, entry_table table = Some arr /\ 0 <= i /\ arr !! Z.to_nat i = Some e.
Proof.
  unfold entry_at. split.
  - destruct (entry_table table) as [arr |]; [| discriminate].
    destruct (andb _ _) eqn:Hb; [| discriminate].
    destruct (arr !! Z.to_nat i) eqn:Hl; [| discriminate].
    intros [= ->]. exists arr. repeat split; [lia | assumption].
  - intros (arr & -> & Hi & Hl).
    pose proof (lookup_lt_Some _ _ _ Hl) as Hlt.
    replace (andb _ _) with true by (symmetry; apply andb_true_iff; lia).
    rewrite Hl. reflexivity.
Qed.

Lemma entry_at_bounds table i e :
  array_ok table -> entry_at table i = Ok e -> 0 <= i < table_size table.
Proof.
  intros Ha (arr & Harr & Hi & Hl)%entry_at_Ok.
  unfold array_ok in Ha. rewrite Harr in Ha.
  apply lookup_lt_Some in Hl. lia.
Qed.

Lemma entry_at_in_bounds table i :
  array_ok table -> 0 <= i < table_size table -> exists e, entry_at table i = Ok e.
Proof.
  intros Ha Hi. unfold array_ok in Ha.
  destruct (entry_table table) as [arr |] eqn:Harr; [| lia].
  destruct (lookup_lt_is_Some_2 arr (Z.to_nat i)) as [e He]; [lia |].
  exists e. apply entry_at_Ok. eauto with lia.
Qed.

Lemma entry_at_out_of_bounds table i :
  array_ok table -> ~ (0 <= i < table_size table) -> entry_at table i = OutOfBounds i.
Proof.
  intros Ha Hi. unfold array_ok in Ha. unfold entry_at.
  destruct (entry_table table) as [arr |]; [| reflexivity].
  replace (andb _ _) with false; [reflexivity |].
  symmetry. apply andb_false_iff. lia.
Qed.

Lemma update_entry_eq table i f :
  update_entry table i f =
  e ← entry_at table i;
  Ok (with_entry_table (option_map (fun arr => <[Z.to_nat i := f e]> arr) (entry_table table))
        table).
Proof.
  unfold update_entry, entry_at.
  destruct (entry_table table) as [arr |]; [| reflexivity].
  destruct (andb _ _); [| reflexivity].
  destruct (arr !! Z.to_nat i); reflexivity.
Qed.

Lemma update_entry_Ok table i f table' :
  update_entry table i f = Ok table' <->
  exists arr e, entry_table table = Some arr /\ 0 <= i /\ arr !! Z.to_nat i = Some e /\
    table' = with_entry_table (Some (<[Z.to_nat i := f e]> arr)) table.
Proof.
  rewrite update_entry_eq. split.
  - intros (e & (arr & Harr & Hi & Hl)%entry_at_Ok & [= <-])%bind_Ok.
    exists arr, e. rewrite Harr. auto.
  - intros (arr & e & Harr & Hi & Hl & ->).
    assert (He : entry_at table i = Ok e) by (apply entry_at_Ok; eauto).
    rewrite He. simpl. rewrite Harr. reflexivity.
Qed.

Lemma update_entry_out_of_bounds table i f :
  array_ok table -> ~ (0 <= i < table_size table) -> update_entry table i f = OutOfBounds i.
Proof.
  intros Ha Hi. rewrite update_entry_eq, entry_at_out_of_bounds by assumption. reflexivity.
Qed.

(** Updating an entry keeps [table_ok] when the update keeps the generation
    in range. *)
Lemma update_entry_ok lo table i f table' :
  table_ok lo table ->
  (forall e, generation_in lo e -> generation_in lo (f e)) ->
  update_entry table i f = Ok table' ->
  table_ok lo table' /\
  free_handle_list_head table' = free_handle_list_head table /\
  free_handle_list_tail table' = free_handle_list_tail table /\
  table_size table' = table_size table /\
  free_count table' = free_count table.
Proof.
  intros [Ha Hs Hh Ht Hc He] Hf (arr & e & Harr & Hi & Hl & ->)%update_entry_Ok.
  unfold array_ok, entries_all in *. rewrite Harr in *.
  split; [| auto].
  constructor; simpl; auto.
  - unfold array_ok. simpl. rewrite length_insert. assumption.
  - unfold entries_all. simpl. apply Forall_insert; [assumption |].
    apply Hf. eapply Forall_lookup_1; eassumption.
Qed.

Lemma update_entry_total lo table i f :
  table_ok lo table -> 0 <= i < table_size table ->
  exists table', update_entry table i f = Ok table'.
Proof.
  intros Hok Hi. destruct (entry_at_in_bounds table i (ok_array _ _ Hok) Hi) as [e He].
  rewrite update_entry_eq, He. simpl. eauto.
Qed.

Lemma entry_at_update_same table i f table' e :
  update_entry table i f = Ok table' -> entry_at table i = Ok e ->
  entry_at table' i = Ok (f e).
Proof.
  intros (arr & e' & Harr & Hi & Hl & ->)%update_entry_Ok
         (arr2 & Harr2 & _ & Hl2)%entry_at_Ok.
  assert (arr2 = arr) as -> by congruence. assert (e' = e) as -> by congruence.
  apply entry_at_Ok. exists (<[Z.to_nat i := f e]> arr). simpl.
  repeat split; [assumption |].
  apply list_lookup_insert_eq. eapply lookup_lt_Some; eassumption.
Qed.

Lemma entry_at_update_other table i j f table' :
  update_entry table i f = Ok table' -> 0 <= j -> i <> j ->
  entry_at table' j = entry_at table j.
Proof.
  intros (arr & e' & Harr & Hi & Hl & ->)%update_entry_Ok Hj Hne.
  unfold entry_at. simpl. rewrite Harr, length_insert.
  rewrite list_lookup_insert_ne by lia. reflexivity.
Qed.

(** The generation-range facts about the field writes. *)
Lemma generation_in_set_prev lo v e :
  generation_in lo e -> generation_in lo (set_prev_free_index v e).
Proof. exact id. Qed.
Lemma generation_in_set_next lo v e :
  generation_in lo e -> generation_in lo (set_next_free_index v e).
Proof. exact id. Qed.
Lemma generation_in_set_destroyed lo b e :
  generation_in lo e -> generation_in lo (set_destroyed b e).
Proof. exact id. Qed.

(** ** Growing the table *)

Lemma with_entry_table_id table arr :
  entry_table table = Some arr -> with_entry_table (Some arr) table = table.
Proof. destruct table; simpl; intros ->; reflexivity. Qed.

Lemma u32_small x : 0 <= x < 2 ^ 32 -> u32 x = x.
Proof. apply Z.mod_small. Qed.

Lemma u32_range x : is_u32 (u32 x).
Proof. apply Z.mod_pos_bound. reflexivity. Qed.

Lemma expand_loop_spec n : forall table_index prev table arr,
  entry_table table = Some arr ->
  0 <= table_index ->
  table_index + Z.of_nat n <= Z.of_nat (length arr) ->
  table_index + Z.of_nat n < 2 ^ 32 ->
  exists arr',
    expand_loop n table_index prev table
      = Ok (with_entry_table (Some arr') table, table_index + Z.of_nat n) /\
    length arr' = length arr /\
    (forall j, (j < Z.to_nat table_index)%nat -> arr' !! j = arr !! j) /\
    (forall j e, (Z.to_nat table_index <= j)%nat -> arr' !! j = Some e ->
       (j < Z.to_nat table_index + n)%nat ->
       unique e = 1 /\ type e = HMGRENTRY_TYPE_FREE).
Proof.
  induction n as [| n IH]; intros idx prev table arr Harr Hidx Hlen Hwrap.
  - exists arr. simpl. rewrite with_entry_table_id, Z.add_0_r by assumption.
    repeat split; intros; lia.
  - cbn [expand_loop].
    destruct (lookup_lt_is_Some_2 arr (Z.to_nat idx)) as [e He]; [lia |].
    set (f := fun entry : hmgrentry => set_instance 0 _).
    assert (Hupd : update_entry table idx f
                   = Ok (with_entry_table (Some (<[Z.to_nat idx := f e]> arr)) table)).
    { apply update_entry_Ok. exists arr, e. auto. }
    rewrite Hupd. cbn [mbind outcome_bind].
    rewrite u32_small by lia.
    destruct (IH (idx + 1) idx (with_entry_table (Some (<[Z.to_nat idx := f e]> arr)) table)
                (<[Z.to_nat idx := f e]> arr)) as (arr' & Hrun & Hlen' & Hlow & Hnew);
      [reflexivity | lia | rewrite length_insert; lia | lia |].
    exists arr'. rewrite Hrun. rewrite length_insert in Hlen'.
    split; [f_equal; f_equal; lia |].
    split; [assumption |].
    split.
    + intros j Hj. rewrite Hlow by lia. apply list_lookup_insert_ne. lia.
    + intros j e' Hj1 Hj2 Hj3.
      destruct (decide (j = Z.to_nat idx)) as [-> | Hne].
      * rewrite Hlow in Hj2 by lia.
        rewrite list_lookup_insert_eq in Hj2 by lia.
        injection Hj2 as <-. split; reflexivity.
      * apply (Hnew j e'); [lia | assumption | lia].
Qed.

Lemma index_max_value : HMGRHANDLE_INDEX_MAX = 16777215.
Proof. reflexivity. Qed.

Lemma expand_target_bounds table n :
  0 <= table_size table <= HMGRHANDLE_INDEX_MAX ->
  table_size table + 1024 <= expand_target table n.
Proof.
  intros Hs. rewrite index_max_value in Hs. unfold expand_target, table_size_increment.
  change HMGRTABLE_SIZE_INCREMENT with 1024.
  rewrite u32_small by lia.
  destruct (Z.ltb_spec (table_size table + 1024) n); lia.
Qed.

Lemma update_entry_within table arr i f :
  entry_table table = Some arr -> 0 <= i < Z.of_nat (length arr) ->
  exists e, arr !! Z.to_nat i = Some e /\
    update_entry table i f = Ok (with_entry_table (Some (<[Z.to_nat i := f e]> arr)) table).
Proof.
  intros Harr Hi.
  destruct (lookup_lt_is_Some_2 arr (Z.to_nat i)) as [e He]; [lia |].
  exists e. split; [assumption |]. apply update_entry_Ok. exists arr, e. auto with lia.
Qed.

Ltac table_simpl :=
  cbv beta iota delta [with_entry_table with_head with_tail with_table_size with_free_count];
  cbn [mbind outcome_bind fmap outcome_fmap entry_table free_handle_list_head
       free_handle_list_tail table_size free_count fst snd negb].

(** What [expand_table] does to a table that satisfies [table_ok]: it
    returns false and leaves the table alone, or returns true with the new
    size and free count, or reads outside the array at the tail of the free
    list. *)
Lemma expand_table_spec lo mem table n :
  lo <= 1 -> table_ok lo table ->
  match expand_table mem table n with
  | Ok (table', false) => table' = table
  | Ok (table', true) =>
      table_ok lo table' /\
      mem <> None /\
      expand_target table n <= HMGRHANDLE_INDEX_MAX /\
      table_size table' = expand_target table n /\
      free_count table' = u32 (free_count table + table_size_increment) /\
      free_handle_list_tail table' = expand_target table n - 1
  | OutOfBounds i =>
      free_count table <> 0 /\ i = free_handle_list_tail table /\
      ~ (0 <= i < table_size table)
  end.
Proof.
  intros Hlo Hok. unfold expand_table.
  set (check := if free_count table =? 0 then Ok true else _).
  assert (Hcheck : match check with
                   | Ok _ => free_count table <> 0 ->
                             0 <= free_handle_list_tail table < table_size table
                   | OutOfBounds i => free_count table <> 0 /\
                       i = free_handle_list_tail table /\
                       ~ (0 <= i < table_size table)
                   end).
  { subst check. destruct (Z.eqb_spec (free_count table) 0) as [H0 | H0]; [intros; lia |].
    destruct (entry_at table (free_handle_list_tail table)) as [e | i] eqn:He; simpl.
    - intros _. eapply entry_at_bounds; [apply Hok | eassumption].
    - destruct (decide (0 <= free_handle_list_tail table < table_size table)) as [Hin | Hout].
      + destruct (entry_at_in_bounds _ _ (ok_array _ _ Hok) Hin) as [e' He']. congruence.
      + rewrite entry_at_out_of_bounds in He by (assumption || apply Hok).
        injection He as <-. auto. }
  destruct check as [[|] | i]; cbn [mbind outcome_bind negb]; [| reflexivity | exact Hcheck].
  fold (expand_target table n).
  pose proof (expand_target_bounds table n (ok_size _ _ Hok)) as Hgrow.
  destruct (Z.ltb_spec HMGRHANDLE_INDEX_MAX (expand_target table n)) as [Hbig | Hfit];
    [reflexivity |].
  destruct mem as [fresh |]; [| reflexivity].
  remember (expand_target table n) as new eqn:Hnew.
  destruct Hok as [Ha Hs Hh Ht Hc He].
  rewrite index_max_value in *.
  set (copy := match entry_table table with Some _ => _ | None => _ end).
  assert (Hcopy : exists arr0 head0,
            copy = Ok (mk_hmgrtable (Some arr0) head0 (free_handle_list_tail table)
                         (table_size table) (free_count table)) /\
            Z.of_nat (length arr0) = new /\ is_u32 head0 /\
            (forall j e, (j < Z.to_nat (table_size table))%nat ->
               arr0 !! j = Some e -> generation_in lo e)).
  { subst copy. unfold array_ok, entries_all in *.
    destruct (entry_table table) as [old |] eqn:Hold.
    - replace (orb _ _) with false by (symmetry; apply orb_false_iff; lia).
      eexists _, (free_handle_list_head table). split; [reflexivity |].
      rewrite firstn_all2 by lia.
      split; [| split; [assumption |]].
      + rewrite length_app, length_map, length_seqZ. lia.
      + intros j e Hj Hl. rewrite lookup_app_l in Hl by lia.
        eapply Forall_lookup_1; eassumption.
    - eexists _, 0. split; [reflexivity |].
      split; [| split; [unfold is_u32; lia |]].
      + rewrite length_map, length_seqZ. lia.
      + intros j e Hj. lia. }
  destruct Hcopy as (arr0 & head0 & -> & Hlen0 & Hhead0 & Hold0).
  cbn [mbind outcome_bind table_size free_handle_list_tail free_count].
  set (copied := mk_hmgrtable _ _ _ _ _).
  destruct (expand_loop_spec (Z.to_nat (new - table_size table)) (table_size table)
              (free_handle_list_tail table) copied arr0)
    as (arr1 & -> & Hlen1 & Hlow1 & Hnew1); [reflexivity | | | |].
  1-3: lia.
  cbn [mbind outcome_bind].
  rewrite (Z2Nat.id (new - table_size table)) by lia.
  replace (table_size table + (new - table_size table)) with new by lia.
  rewrite !(u32_small (new - 1)) by lia.
  assert (Hall1 : Forall (generation_in lo) arr1).
  { apply Forall_lookup_2. intros j e Hl.
    destruct (decide (j < Z.to_nat (table_size table))%nat) as [Hj | Hj].
    - rewrite Hlow1 in Hl by assumption. eauto.
    - destruct (Hnew1 j e) as [Hu _]; [lia | assumption | |].
      + apply lookup_lt_Some in Hl. lia.
      + unfold generation_in. rewrite Hu. change HMGRHANDLE_UNIQUE_MAX with 3. lia. }
  destruct (update_entry_within (with_entry_table (Some arr1) copied) arr1 (new - 1)
              (set_next_free_index HMGRTABLE_INVALID_INDEX))
    as (e1 & He1 & ->); [reflexivity | lia |].
  subst copied. table_simpl.
  set (arr2 := <[Z.to_nat (new - 1) := _]> arr1).
  assert (Hall2 : Forall (generation_in lo) arr2).
  { apply Forall_insert; [assumption |]. apply generation_in_set_next.
    eapply Forall_lookup_1; eassumption. }
  assert (Hlen2 : length arr2 = length arr1) by apply length_insert.
  clearbody arr2.
  set (link := if negb (free_count table =? 0) then _ else _).
  assert (Hlink : exists arr3, link = Ok (mk_hmgrtable (Some arr3) head0
             (free_handle_list_tail table) (table_size table) (free_count table)) /\
            length arr3 = length arr2 /\ Forall (generation_in lo) arr3).
  { subst link. destruct (Z.eqb_spec (free_count table) 0) as [H0 | H0]; cbn [negb].
    - exists arr2. auto.
    - destruct (update_entry_within
                  (mk_hmgrtable (Some arr2) head0 (free_handle_list_tail table)
                     (table_size table) (free_count table))
                  arr2 (free_handle_list_tail table)
                  (set_next_free_index (table_size table)))
        as (e2 & He2 & ->); [reflexivity | lia |].
      eexists. split; [reflexivity |]. split; [apply length_insert |].
      apply Forall_insert; [assumption |]. apply generation_in_set_next.
      eapply Forall_lookup_1; eassumption. }
  destruct Hlink as (arr3 & -> & Hlen3 & Hall3).
  table_simpl.
  assert (Hhead : is_u32 (table_size table)) by (unfold is_u32; lia).
  destruct (head0 =? HMGRTABLE_INVALID_INDEX); table_simpl.
  all: split;
    [ constructor; table_simpl;
      [ unfold array_ok; table_simpl; lia | rewrite index_max_value; lia
      | assumption | unfold is_u32; lia | apply u32_range | assumption ]
    | repeat split; (discriminate || lia) ].
Qed.

(** ** Validating and freeing a handle *)

Lemma get_index_range h : 0 <= get_index h < 2 ^ 24.
Proof. rewrite get_index_eq. apply Z.mod_pos_bound. reflexivity. Qed.

Lemma get_unique_range h : 0 <= get_unique h <= HMGRHANDLE_UNIQUE_MAX.
Proof.
  rewrite get_unique_eq. change HMGRHANDLE_UNIQUE_MAX with 3.
  pose proof (Z.mod_pos_bound (h / 2 ^ 30) (2 ^ 2) eq_refl). lia.
Qed.

Lemma is_handle_valid_true table h ign t :
  is_handle_valid table h ign t = Ok true <->
  exists e, get_index h < table_size table /\
    entry_at table (get_index h) = Ok e /\
    get_unique h = unique e /\
    (destroyed e = false \/ ign = true) /\
    type e <> HMGRENTRY_TYPE_FREE /\
    (t = HMGRENTRY_TYPE_FREE \/ t = type e).
Proof.
  unfold is_handle_valid.
  destruct (Z.leb_spec (table_size table) (get_index h)) as [Hge | Hlt].
  { split; [discriminate | intros (e & ? & _); lia]. }
  destruct (entry_at table (get_index h)) as [e | i]; cbn [mbind outcome_bind].
  2: { split; [discriminate | intros (e & _ & ? & _); discriminate]. }
  destruct (Z.eqb_spec (get_unique h) (unique e)) as [Hu | Hu]; cbn [negb].
  2: { split; [discriminate | intros (e' & _ & [= <-] & ? & _); contradiction]. }
  destruct (destroyed e) eqn:Hd, ign; cbn [negb andb].
  2: { split; [discriminate | intros (e' & _ & [= <-] & _ & [? | ?] & _); congruence]. }
  all: destruct (type_eqb (type e) HMGRENTRY_TYPE_FREE) eqn:Hf;
    [ apply type_eqb_eq in Hf;
      split; [discriminate | intros (e' & _ & [= <-] & _ & _ & ? & _); contradiction]
    | apply type_eqb_neq in Hf ].
  all: destruct (type_eqb t HMGRENTRY_TYPE_FREE) eqn:Ht;
    [ apply type_eqb_eq in Ht | apply type_eqb_neq in Ht ]; cbn [negb andb].
  all: try (split; [intros _; exists e; auto 10 | reflexivity]).
  all: destruct (type_eqb t (type e)) eqn:Hte;
    [ apply type_eqb_eq in Hte | apply type_eqb_neq in Hte ]; cbn [negb].
  all: try (split; [intros _; exists e; auto 10 | reflexivity]).
  all: split; [discriminate | intros (e' & _ & [= <-] & _ & _ & _ & [? | ?]); contradiction].
Qed.

(** The entry the first block of writes of [hmgrtable_free_handle] leaves. *)
Lemma free_generation e :
  unique ((fun entry =>
      let entry := set_unique 1 entry in
      let entry := set_type HMGRENTRY_TYPE_FREE entry in
      let entry := set_destroyed false entry in
      if negb (unique entry =? HMGRHANDLE_UNIQUE_MAX)
      then set_unique (unique entry + 1) entry
      else set_unique 1 entry) e) = 2.
Proof. reflexivity. Qed.

Lemma table_ok_with_free_count lo v table :
  table_ok lo table -> is_u32 v -> table_ok lo (with_free_count v table).
Proof. intros [] ?. constructor; assumption. Qed.

Lemma table_ok_with_head lo v table :
  table_ok lo table -> is_u32 v -> table_ok lo (with_head v table).
Proof. intros [] ?. constructor; assumption. Qed.

Lemma table_ok_with_tail lo v table :
  table_ok lo table -> is_u32 v -> table_ok lo (with_tail v table).
Proof. intros [] ?. constructor; assumption. Qed.

Lemma is_u32_get_index h : is_u32 (get_index h).
Proof. pose proof (get_index_range h). unfold is_u32. lia. Qed.

Lemma is_u32_prev e : is_u32 (prev_free_index e).
Proof. apply Z.mod_pos_bound. reflexivity. Qed.

Lemma is_u32_next e : is_u32 (next_free_index e).
Proof. apply Z.mod_pos_bound. reflexivity. Qed.

(** What [hmgrtable_free_handle] does with a handle that passes validation:
    the only access that can fall outside the array is the one at the tail
    of the free list. *)
Lemma hmgrtable_free_handle_valid lo table t h :
  lo <= 2 -> table_ok lo table ->
  is_handle_valid table h true t = Ok true ->
  match hmgrtable_free_handle table t h with
  | Ok table' =>
      0 <= free_handle_list_tail table < table_size table /\
      table_ok lo table' /\
      generation_at table' (get_index h) = Ok 2 /\
      free_count table' = u32 (free_count table + 1) /\
      table_size table' = table_size table /\
      free_handle_list_tail table' = get_index h
  | OutOfBounds i =>
      i = free_handle_list_tail table /\ ~ (0 <= i < table_size table)
  end.
Proof.
  intros Hlo Hok Hvalid. unfold hmgrtable_free_handle. rewrite Hvalid.
  apply is_handle_valid_true in Hvalid as (e & Hlt & He & _).
  pose proof (get_index_range h) as Hidx.
  cbn [mbind outcome_bind].
  set (f1 := fun entry : hmgrentry => _).
  destruct (update_entry_total lo table (get_index h) f1 Hok) as [table1 H1]; [lia |].
  rewrite H1. cbn [mbind outcome_bind].
  assert (Hf1 : forall e0, generation_in lo e0 -> generation_in lo (f1 e0)).
  { intros e0 _. unfold generation_in.
    assert (unique (f1 e0) = 2) as -> by apply free_generation.
    change HMGRHANDLE_UNIQUE_MAX with 3. lia. }
  destruct (update_entry_ok lo table _ f1 table1 Hok Hf1 H1) as (Hok1 & Hh1 & Ht1 & Hs1 & Hc1).
  pose proof (entry_at_update_same _ _ _ _ _ H1 He) as He1.
  set (table1c := with_free_count _ table1).
  assert (Hok1c : table_ok lo table1c)
    by (apply table_ok_with_free_count; [assumption | apply u32_range]).
  set (f2 := fun entry : hmgrentry => set_prev_free_index _ _).
  destruct (update_entry_total lo table1c (get_index h) f2 Hok1c) as [table2 H2].
  { subst table1c. cbn [table_size with_free_count]. lia. }
  rewrite H2. cbn [mbind outcome_bind].
  assert (Hf2 : forall e0, generation_in lo e0 -> generation_in lo (f2 e0)) by (intros; assumption).
  destruct (update_entry_ok lo table1c _ f2 table2 Hok1c Hf2 H2)
    as (Hok2 & Hh2 & Ht2 & Hs2 & Hc2).
  assert (He2 : entry_at table2 (get_index h) = Ok (f2 (f1 e)))
    by (eapply entry_at_update_same; [exact H2 | exact He1]).
  subst table1c. cbn [with_free_count free_handle_list_head free_handle_list_tail
                       table_size free_count] in *.
  destruct (decide (0 <= free_handle_list_tail table2 < table_size table2)) as [Hin | Hout].
  - destruct (update_entry_total lo table2 (free_handle_list_tail table2)
                (set_next_free_index (get_index h)) Hok2 Hin) as [table3 H3].
    rewrite H3. cbn [mbind outcome_bind].
    destruct (update_entry_ok lo table2 _ _ table3 Hok2
                (generation_in_set_next lo (get_index h)) H3)
      as (Hok3 & Hh3 & Ht3 & Hs3 & Hc3).
    split; [lia |].
    split; [apply table_ok_with_tail; [assumption | apply is_u32_get_index] |].
    split;
      [| cbn [with_tail free_count table_size free_handle_list_tail];
         repeat split; congruence].
    unfold generation_at. change (entry_at (with_tail _ table3)) with (entry_at table3).
    destruct (decide (free_handle_list_tail table2 = get_index h)) as [Heq | Hne].
    + rewrite Heq in H3.
      rewrite (entry_at_update_same _ _ _ _ _ H3 He2). reflexivity.
    + rewrite (entry_at_update_other _ _ _ _ _ H3) by lia.
      rewrite He2. reflexivity.
  - rewrite update_entry_out_of_bounds by (assumption || apply Hok2).
    cbn [mbind outcome_bind]. split; [congruence | lia].
Qed.

(** ** Allocating a handle *)

Lemma expand_table_false mem table n table' :
  expand_table mem table n = Ok (table', false) -> table' = table.
Proof.
  unfold expand_table. intros H.
  apply bind_Ok in H as ([|] & _ & H); cbn [negb] in H; [| congruence].
  destruct (_ <? _); [congruence |].
  destruct mem as [fresh |]; [| congruence].
  apply bind_Ok in H as (copied & _ & H).
  apply bind_Ok in H as ([table1 idx] & _ & H).
  apply bind_Ok in H as (table2 & _ & H).
  apply bind_Ok in H as (table3 & _ & H).
  discriminate.
Qed.

Lemma min_free_value : HMGRTABLE_MIN_FREE_ENTRIES = 128.
Proof. reflexivity. Qed.

(** What [hmgrtable_alloc_handle] does to a table that satisfies
    [table_ok]: the table stays so, and a nonzero handle names a slot that
    holds the object, the type and the negated [make_valid]. *)
Lemma hmgrtable_alloc_handle_spec lo mem table o t mv :
  0 <= lo <= 1 -> table_ok lo table ->
  match hmgrtable_alloc_handle mem table o t mv with
  | Ok (table', h) =>
      table_ok lo table' /\
      (h <> 0 -> exists table1 index u,
         (if free_count table <=? HMGRTABLE_MIN_FREE_ENTRIES
          then expand_table mem table 0 = Ok (table1, true)
          else table1 = table) /\
         h = build_handle index u 0 /\
         0 <= index < table_size table1 /\
         0 <= u <= HMGRHANDLE_UNIQUE_MAX /\
         table_size table' = table_size table1 /\
         free_count table' = u32 (free_count table1 - 1) /\
         entry_at table' index = Ok (mk_hmgrentry o t u 0 (negb mv)))
  | OutOfBounds i =>
      free_count table <= HMGRTABLE_MIN_FREE_ENTRIES /\
      free_count table <> 0 /\ i = free_handle_list_tail table /\
      ~ (0 <= i < table_size table)
  end.
Proof.
  intros Hlo Hok. unfold hmgrtable_alloc_handle.
  set (pre := if free_count table <=? HMGRTABLE_MIN_FREE_ENTRIES then _ else _).
  assert (Hpre : match pre with
                 | Ok (table1, true) =>
                     table_ok lo table1 /\
                     (if free_count table <=? HMGRTABLE_MIN_FREE_ENTRIES
                      then expand_table mem table 0 = Ok (table1, true)
                      else table1 = table)
                 | Ok (table1, false) => table1 = table
                 | OutOfBounds i =>
                     free_count table <= HMGRTABLE_MIN_FREE_ENTRIES /\
                     free_count table <> 0 /\ i = free_handle_list_tail table /\
                     ~ (0 <= i < table_size table)
                 end).
  { subst pre. destruct (Z.leb_spec (free_count table) HMGRTABLE_MIN_FREE_ENTRIES) as [Hle | Hgt].
    - pose proof (expand_table_spec lo mem table 0 (proj2 Hlo) Hok) as Hx.
      destruct (expand_table mem table 0) as [[table1 [|]] | i]; intuition.
    - auto. }
  destruct pre as [[table1 [|]] | i]; cbn [mbind outcome_bind negb]; [| | exact Hpre].
  2: { subst table1. split; [assumption | intros []; reflexivity]. }
  destruct Hpre as [Hok1 Hexp].
  destruct (Z.leb_spec (table_size table1) (free_handle_list_head table1)) as [Hhead | Hhead].
  { split; [assumption | intros []; reflexivity]. }
  pose proof (ok_head _ _ Hok1) as Hh1. unfold is_u32 in Hh1.
  destruct (entry_at_in_bounds table1 (free_handle_list_head table1) (ok_array _ _ Hok1))
    as [entry Hentry]; [lia |].
  rewrite Hentry. cbn [mbind outcome_bind].
  destruct (type_eqb (type entry) HMGRENTRY_TYPE_FREE); cbn [negb].
  2: { split; [assumption | intros []; reflexivity]. }
  set (table2 := with_head (next_free_index entry) table1).
  assert (Hok2 : table_ok lo table2)
    by (apply table_ok_with_head; [assumption | apply is_u32_next]).
  pose proof (is_u32_next entry) as Hnext. unfold is_u32 in Hnext.
  change (free_handle_list_tail table2) with (free_handle_list_tail table1).
  change (table_size table2) with (table_size table1).
  set (index := free_handle_list_head table1) in *.
  destruct (negb (next_free_index entry =? free_handle_list_tail table1)
            && (table_size table1 <=? next_free_index entry)) eqn:Hfail.
  { split; [assumption | intros []; reflexivity]. }
  set (relink := if negb (next_free_index entry =? free_handle_list_tail table1)
                 then _ else _).
  assert (Hrelink : exists table3, relink = Ok table3 /\ table_ok lo table3 /\
            table_size table3 = table_size table1 /\
            free_count table3 = free_count table1).
  { subst relink.
    destruct (negb (next_free_index entry =? free_handle_list_tail table1)); cbn [andb] in Hfail.
    - apply Z.leb_gt in Hfail.
      destruct (update_entry_total lo table2 (next_free_index entry)
                  (set_prev_free_index HMGRTABLE_INVALID_INDEX) Hok2) as [table3 H3];
        [exact (conj (proj1 Hnext) Hfail) |].
      exists table3. split; [assumption |].
      destruct (update_entry_ok lo table2 _ _ table3 Hok2
                  (generation_in_set_prev lo HMGRTABLE_INVALID_INDEX) H3)
        as (Hok3 & _ & _ & Hs3 & Hc3).
      auto.
    - exists table2. auto. }
  destruct Hrelink as (table3 & -> & Hok3 & Hs3 & Hc3). cbn [mbind outcome_bind].
  destruct (entry_at_in_bounds table3 index (ok_array _ _ Hok3)) as [slot Hslot]; [lia |].
  rewrite Hslot. cbn [mbind outcome_bind].
  set (f := fun e : hmgrentry => set_destroyed _ _).
  destruct (update_entry_total lo table3 index f Hok3) as [table4 H4]; [lia |].
  rewrite H4. cbn [mbind outcome_bind].
  assert (Hf : forall e0, generation_in lo e0 -> generation_in lo (f e0)) by (intros; assumption).
  destruct (update_entry_ok lo table3 _ f table4 Hok3 Hf H4) as (Hok4 & Hh4 & Ht4 & Hs4 & Hc4).
  pose proof (entry_at_update_same _ _ _ _ _ H4 Hslot) as Hslot4.
  change (entry_at (with_free_count (u32 (free_count table4 - 1)) table4))
    with (entry_at table4).
  rewrite Hslot4. cbn [mbind outcome_bind].
  split; [apply table_ok_with_free_count; [assumption | apply u32_range] |].
  intros _. exists table1, index, (unique slot).
  split; [assumption |].
  split; [reflexivity |].
  split; [lia |].
  split.
  { destruct Hok3 as [Ha3 _ _ _ _ He3]. apply entry_at_Ok in Hslot as (arr & Harr & _ & Hl).
    unfold entries_all in He3. rewrite Harr in He3.
    pose proof (Forall_lookup_1 _ _ _ _ He3 Hl) as Hg. unfold generation_in in Hg. lia. }
  cbn [with_free_count table_size free_count].
  split; [congruence |]. split; [congruence |].
  change (entry_at (with_free_count (u32 (free_count table4 - 1)) table4))
    with (entry_at table4).
  rewrite Hslot4. reflexivity.
Qed.

(** ** Every operation keeps [table_ok] *)

Lemma set_unique_get_unique h e : unique (set_unique (get_unique h) e) = get_unique h.
Proof.
  cbn [set_unique unique]. apply Z.mod_small.
  pose proof (get_unique_range h) as H. change HMGRHANDLE_UNIQUE_MAX with 3 in H.
  change (2 ^ HMGRHANDLE_UNIQUE_BITS) with 4. lia.
Qed.

Lemma hmgrtable_assign_handle_ok lo mem table o t h table' s :
  lo <= 1 -> lo <= get_unique h -> table_ok lo table ->
  hmgrtable_assign_handle mem table o t h = Ok (table', s) ->
  table_ok lo table'.
Proof.
  intros Hlo Hu Hok. unfold hmgrtable_assign_handle.
  destruct (_ <=? _); [intros [= <- <-]; assumption |].
  intros H. apply bind_Ok in H as ([table1 expanded] & Hpre & H).
  assert (Hok1 : table_ok lo table1).
  { destruct (_ <=? _) in Hpre.
    - match type of Hpre with
      | expand_table _ _ ?n = _ => pose proof (expand_table_spec lo mem table n Hlo Hok) as Hx
      end.
      rewrite Hpre in Hx. destruct expanded; [apply Hx | subst; assumption].
    - injection Hpre as <- <-. assumption. }
  clear Hpre. destruct expanded; cbn [negb] in H; [| injection H as <- <-; assumption].
  apply bind_Ok in H as (entry & Hentry & H).
  destruct (negb (type_eqb _ _)); [injection H as <- <-; assumption |].
  destruct (andb _ _); [injection H as <- <-; assumption |].
  apply bind_Ok in H as (table2 & H2 & H).
  assert (Hok2 : table_ok lo table2).
  { destruct (negb _) in H2.
    - eapply update_entry_ok; [exact Hok1 | | exact H2]. intros; assumption.
    - injection H2 as <-. apply table_ok_with_tail; [assumption | apply is_u32_prev]. }
  clear H2. apply bind_Ok in H as (entry2 & Hentry2 & H).
  destruct (andb _ _); [injection H as <- <-; assumption |].
  apply bind_Ok in H as (table3 & H3 & H).
  assert (Hok3 : table_ok lo table3).
  { destruct (negb _) in H3.
    - eapply update_entry_ok; [exact Hok2 | | exact H3]. intros; assumption.
    - injection H3 as <-. apply table_ok_with_head; [assumption | apply is_u32_next]. }
  clear H3. apply bind_Ok in H as (table4 & H4 & H).
  injection H as <- <-.
  apply table_ok_with_free_count; [| apply u32_range].
  eapply update_entry_ok; [exact Hok3 | | exact H4].
  intros e _. unfold generation_in.
  change (unique _) with (unique (set_unique (get_unique h) e)).
  rewrite set_unique_get_unique. pose proof (get_unique_range h). lia.
Qed.

Lemma hmgrtable_mark_destroyed_ok lo table h table' b :
  table_ok lo table -> hmgrtable_mark_destroyed table h = Ok (table', b) ->
  table_ok lo table'.
Proof.
  intros Hok H. unfold hmgrtable_mark_destroyed in H.
  apply bind_Ok in H as (v & _ & H).
  destruct v; cbn [negb] in H; [| injection H as <- <-; assumption].
  apply bind_Ok in H as (table1 & H1 & [= <- <-]).
  eapply update_entry_ok; [exact Hok | | exact H1]. intros; assumption.
Qed.

Lemma hmgrtable_unmark_destroyed_ok lo table h table' b :
  table_ok lo table -> hmgrtable_unmark_destroyed table h = Ok (table', b) ->
  table_ok lo table'.
Proof.
  intros Hok H. unfold hmgrtable_unmark_destroyed in H.
  apply bind_Ok in H as (v & _ & H).
  destruct v; cbn [negb] in H; [| injection H as <- <-; assumption].
  apply bind_Ok in H as (table1 & H1 & [= <- <-]).
  eapply update_entry_ok; [exact Hok | | exact H1]. intros; assumption.
Qed.

Lemma hmgrtable_free_handle_ok lo table t h table' :
  lo <= 2 -> table_ok lo table -> hmgrtable_free_handle table t h = Ok table' ->
  table_ok lo table'.
Proof.
  intros Hlo Hok H.
  destruct (is_handle_valid table h true t) as [[|] | i] eqn:Hv.
  - pose proof (hmgrtable_free_handle_valid lo table t h Hlo Hok Hv) as Hx.
    rewrite H in Hx. apply Hx.
  - unfold hmgrtable_free_handle in H. rewrite Hv in H. injection H as <-. assumption.
  - unfold hmgrtable_free_handle in H. rewrite Hv in H. discriminate.
Qed.

Lemma fmap_fst_Ok {A B} (m : outcome (A * B)) (a : A) :
  fst <$> m = Ok a -> exists b, m = Ok (a, b).
Proof. destruct m as [[a' b] | i]; simpl; [intros [= <-]; eauto | discriminate]. Qed.

Lemma hmgrtable_init_ok lo : lo <= 1 -> table_ok lo hmgrtable_init.
Proof.
  intros _. constructor; try (split; reflexivity || discriminate); exact I || reflexivity.
Qed.

Lemma run_ok lo op table table' :
  0 <= lo <= 1 ->
  (match op with Assign _ _ _ h => lo <= get_unique h | _ => True end) ->
  table_ok lo table -> run op table = Ok table' -> table_ok lo table'.
Proof.
  intros Hlo Hop Hok H. destruct op as [mem o t mv | mem o t h | t h | mem n | h | h];
    cbn [run] in H; try apply fmap_fst_Ok in H as [r H].
  - pose proof (hmgrtable_alloc_handle_spec lo mem table o t mv Hlo Hok) as Hx.
    rewrite H in Hx. apply Hx.
  - eapply hmgrtable_assign_handle_ok; [| | | eassumption]; (lia || assumption).
  - eapply hmgrtable_free_handle_ok; [| | eassumption]; (lia || assumption).
  - pose proof (expand_table_spec lo mem table n (proj2 Hlo) Hok) as Hx.
    rewrite H in Hx. destruct r; [apply Hx | subst; assumption].
  - eapply hmgrtable_mark_destroyed_ok; eassumption.
  - eapply hmgrtable_unmark_destroyed_ok; eassumption.
Qed.

Lemma reachable_by_table_ok lo allowed table :
  0 <= lo <= 1 ->
  (forall op, allowed op ->
     match op with Assign _ _ _ h => lo <= get_unique h | _ => True end) ->
  reachable_by allowed table -> table_ok lo table.
Proof.
  intros Hlo Hallowed Hreach. induction Hreach as [| op table table' _ IH Hop Hrun].
  - apply hmgrtable_init_ok. lia.
  - exact (run_ok lo op table table' Hlo (Hallowed op Hop) IH Hrun).
Qed.

Lemma reachable_table_ok table : reachable table -> table_ok 0 table.
Proof.
  apply reachable_by_table_ok; [lia |].
  intros [] _; try exact I. apply get_unique_range.
Qed.

Lemma run_all_reachable_by allowed ops : forall table table',
  reachable_by allowed table -> Forall allowed ops ->
  run_all ops table = Ok table' -> reachable_by allowed table'.
Proof.
  induction ops as [| op ops IH]; intros table table' Hreach Hall H; cbn [run_all] in H.
  - injection H as <-. assumption.
  - apply bind_Ok in H as (table1 & H1 & H). inversion Hall; subst.
    eapply IH; [| eassumption | exact H].
    eapply reachable_run; eassumption.
Qed.

(** ** Runs and reachable tables *)

Lemma hmgrtable_free_handle_generation table t h table' :
  table_ok 0 table ->
  is_handle_valid table h true t = Ok true ->
  hmgrtable_free_handle table t h = Ok table' ->
  generation_at table' (get_index h) = Ok 2.
Proof.
  intros Hok Hvalid Hfree.
  pose proof (hmgrtable_free_handle_valid 0 table t h ltac:(lia) Hok Hvalid) as Hx.
  rewrite Hfree in Hx. apply Hx.
Qed.


Lemma one_alloc_table_run :
  hmgrtable_alloc_handle (Some zeroed) hmgrtable_init 4096 device true
    = Ok (one_alloc_table, 0x40000000).
Proof. vm_compute. reflexivity. Qed.

Lemma one_alloc_table_reachable allowed :
  allowed (Alloc (Some zeroed) 4096 device true) ->
  reachable_by allowed one_alloc_table.
Proof.
  intros Hop.
  apply (reachable_run _ (Alloc (Some zeroed) 4096 device true) hmgrtable_init).
  - apply reachable_init.
  - exact Hop.
  - cbn [run]. rewrite one_alloc_table_run. reflexivity.
Qed.

Lemma one_alloc_table_slot_0 :
  entry_at one_alloc_table 0 = Ok (used_entry 1 false).
Proof. vm_compute. reflexivity. Qed.

Lemma full_table_run : run_all (assign_first 1024) hmgrtable_init = Ok full_table.
Proof. vm_compute. reflexivity. Qed.

Lemma full_table_reachable : reachable full_table.
Proof.
  apply (run_all_reachable_by _ (assign_first 1024) hmgrtable_init).
  - apply reachable_init.
  - apply Forall_forall. intros; exact I.
  - exact full_table_run.
Qed.

(** * The claims of the specification *)

(** C1 (the code departs from the claim). The claim: a free advances the
    generation of the slot by exactly 1 from its value at the time of the
    free, wrapping from 3 to 1, so that a generation does not repeat before
    a full cycle. [hmgrtable_free_handle] first stores 1 into the field and
    only then increments it, so every free leaves 2
    ([hmgrtable_free_handle_generation]). Here slot 0 is allocated, freed
    (generation 2) and assigned again at generation 2; the handle
    0x80000000 is valid, and freeing it leaves generation 2 once more
    instead of 3. *)
Theorem free_handle_generation_repeats :
  run_all reuse_slot_0 hmgrtable_init = Ok reused_table /\
  generation_at reused_table 0 = Ok 2 /\
  is_handle_valid reused_table (build_handle 0 2 0) true device = Ok true /\
  hmgrtable_free_handle reused_table device (build_handle 0 2 0)
    ≫= (fun table' => generation_at table' 0) = Ok 2 /\
  spec_next_generation 2 = 3.
Proof.
  split; [vm_compute; reflexivity |].
  split; [vm_compute; reflexivity |].
  split; [vm_compute; reflexivity |].
  split; [vm_compute; reflexivity | reflexivity].
Qed.

(** C2, as stated, fails: allocating with [make_valid] false succeeds and
    returns a nonzero handle, but the slot is created destroyed and the
    lookup by type returns NULL, not the object. *)
Lemma alloc_destroyed_lookup_null :
  hmgrtable_alloc_handle (Some zeroed) hmgrtable_init 4096 device false
    = Ok (one_destroyed_table, 0x40000000) /\
  0x40000000 <> 0 /\
  hmgrtable_get_object_by_type one_destroyed_table device 0x40000000 = Ok NULL /\
  NULL <> 4096.
Proof.
  split; [vm_compute; reflexivity |].
  split; [discriminate |].
  split; [vm_compute; reflexivity | discriminate].
Qed.

(** C2 (amended). In every reachable table, for every object pointer [o]
    and every type [t] other than Free: if allocating [o] with type [t] and
    [make_valid] true succeeds, that is returns a nonzero handle, then
    looking that handle up with expected type [t] returns [o]. *)
Theorem alloc_then_get_object_by_type mem table o t table' h :
  reachable table ->
  t <> HMGRENTRY_TYPE_FREE ->
  hmgrtable_alloc_handle mem table o t true = Ok (table', h) ->
  h <> 0 ->
  hmgrtable_get_object_by_type table' t h = Ok o.
Proof.
  intros Hreach Ht Halloc Hh. apply reachable_table_ok in Hreach as Hok.
  pose proof (hmgrtable_alloc_handle_spec 0 mem table o t true ltac:(lia) Hok) as Hspec.
  rewrite Halloc in Hspec. destruct Hspec as [Hok' Hsucc].
  destruct (Hsucc Hh) as (table1 & index & u & _ & -> & Hidx & Hu & Hsize & _ & Hentry).
  pose proof (ok_size _ _ Hok') as Hmax. rewrite index_max_value in Hmax.
  change HMGRHANDLE_UNIQUE_MAX with 3 in Hu.
  assert (Hgi : get_index (build_handle index u 0) = index)
    by (apply get_index_build_handle; lia).
  assert (Hgu : get_unique (build_handle index u 0) = u)
    by (apply get_unique_build_handle; lia).
  unfold hmgrtable_get_object_by_type.
  assert (Hvalid : is_handle_valid table' (build_handle index u 0) false t = Ok true).
  { apply is_handle_valid_true. eexists. rewrite Hgi, Hgu.
    split; [lia |]. split; [exact Hentry |]. cbn. auto. }
  rewrite Hvalid. cbn [mbind outcome_bind negb]. rewrite Hgi, Hentry. reflexivity.
Qed.

Lemma alloc_then_get_object_by_type_witness :
  hmgrtable_get_object_by_type one_alloc_table device 0x40000000 = Ok 4096.
Proof.
  apply (alloc_then_get_object_by_type (Some zeroed) hmgrtable_init 4096 device
           one_alloc_table 0x40000000).
  - apply reachable_init.
  - discriminate.
  - exact one_alloc_table_run.
  - discriminate.
Defined.

(** C3. For all field values within their widths, decoding the handle built
    from them gives the same triple back. *)
Theorem decode_encode_roundtrip (i g n : Z) :
  0 <= i < 2 ^ 24 -> 0 <= g < 2 ^ 2 -> 0 <= n < 2 ^ 6 ->
  decode (encode i g n) = (i, g, n).
Proof.
  intros Hi Hg Hn. unfold decode, encode.
  rewrite get_index_build_handle, get_unique_build_handle, get_instance_build_handle
    by assumption.
  reflexivity.
Qed.

Lemma decode_encode_roundtrip_witness :
  decode (encode 16777215 3 63) = (16777215, 3, 63).
Proof. apply decode_encode_roundtrip; lia. Defined.

(** C4 (the code departs from the claim). The claim: after every operation
    [free_count] is the number of entries whose type is Free, and the size
    minus [free_count] the number of occupied ones. [expand_table] adds
    [table_size_increment] to [free_count] whatever the number of entries
    it appends. Assigning at index 1 of the empty table grows it to 1025
    entries, 1024 of them free afterwards, with [free_count] 1023 and a used
    entry count of 2 for the single occupied entry. *)
Theorem assign_beyond_size_free_count_mismatch :
  hmgrtable_assign_handle (Some zeroed) hmgrtable_init 4096 device (build_handle 1 1 0)
    = Ok (sparse_table, STATUS_SUCCESS) /\
  table_size sparse_table = 1025 /\
  count_free sparse_table = 1024 /\
  free_count sparse_table = 1023 /\
  hmgrtable_get_used_entry_count sparse_table = 2.
Proof.
  split; [vm_compute; reflexivity |].
  split; [vm_compute; reflexivity |].
  split; [vm_compute; reflexivity |].
  split; vm_compute; reflexivity.
Qed.

(** C5, as stated, fails: assigning a handle whose generation field is 0
    succeeds on the empty table and stores generation 0 in slot 5 of a
    reachable table. *)
Lemma assign_stores_generation_zero :
  hmgrtable_assign_handle (Some zeroed) hmgrtable_init 4096 device (build_handle 5 0 0)
    = Ok (zero_generation_table, STATUS_SUCCESS) /\
  reachable zero_generation_table /\
  generation_at zero_generation_table 5 = Ok 0.
Proof.
  assert (Hrun : hmgrtable_assign_handle (Some zeroed) hmgrtable_init 4096 device
                   (build_handle 5 0 0) = Ok (zero_generation_table, STATUS_SUCCESS))
    by (vm_compute; reflexivity).
  split; [exact Hrun |].
  split; [| vm_compute; reflexivity].
  apply (reachable_run _ (Assign (Some zeroed) 4096 device (build_handle 5 0 0))
           hmgrtable_init).
  - apply reachable_init.
  - exact I.
  - cbn [run]. rewrite Hrun. reflexivity.
Qed.

(** C5 (amended). In every table reachable through allocate, free, grow,
    mark and unmark destroyed, and assign of handles whose generation field
    is not 0, the generation stored in every slot lies in 1..3. *)
Theorem reachable_generation_range table i e :
  reachable_by nonzero_generation table ->
  entry_at table i = Ok e ->
  1 <= unique e <= HMGRHANDLE_UNIQUE_MAX.
Proof.
  intros Hreach He.
  assert (Hok : table_ok 1 table).
  { apply (reachable_by_table_ok 1 nonzero_generation); [lia | | assumption].
    intros [] Hop; try exact I. cbn in Hop. pose proof (get_unique_range h). lia. }
  apply entry_at_Ok in He as (arr & Harr & _ & Hl).
  pose proof (ok_entries _ _ Hok) as Hall. unfold entries_all in Hall. rewrite Harr in Hall.
  exact (Forall_lookup_1 _ _ _ _ Hall Hl).
Qed.

Lemma reachable_generation_range_witness :
  1 <= unique (used_entry 1 false) <= HMGRHANDLE_UNIQUE_MAX.
Proof.
  apply (reachable_generation_range one_alloc_table 0).
  - apply one_alloc_table_reachable. exact I.
  - exact one_alloc_table_slot_0.
Defined.

(** C6. A handle that fails validation (an index outside the table, a
    generation other than the slot's, a slot that is free, or a type other
    than the slot's, the destroyed flag being ignored) makes
    [hmgrtable_free_handle] return with the whole table unchanged. *)
Theorem free_handle_invalid_unchanged table t h :
  (table_size table <= get_index h \/
   exists e, entry_at table (get_index h) = Ok e /\
     (get_unique h <> unique e \/
      type e = HMGRENTRY_TYPE_FREE \/
      (t <> HMGRENTRY_TYPE_FREE /\ t <> type e))) ->
  hmgrtable_free_handle table t h = Ok table.
Proof.
  intros Hbad. unfold hmgrtable_free_handle.
  destruct (is_handle_valid table h true t) as [[|] | i] eqn:Hv; [| reflexivity |].
  - exfalso. apply is_handle_valid_true in Hv as (e & Hlt & He & Hu & _ & Hty & Ht).
    destruct Hbad as [Hge | (e' & He' & Hcase)]; [lia |].
    assert (e' = e) as -> by congruence.
    destruct Hcase as [? | [? | [? ?]]]; [contradiction | contradiction |].
    destruct Ht; contradiction.
  - exfalso. unfold is_handle_valid in Hv.
    destruct (Z.leb_spec (table_size table) (get_index h)); [discriminate |].
    destruct Hbad as [Hge | (e' & He' & _)]; [lia |].
    rewrite He' in Hv. cbn [mbind outcome_bind] in Hv.
    repeat match type of Hv with
           | (if ?b then _ else _) = _ => destruct b; try discriminate
           end.
Qed.

Lemma free_handle_invalid_unchanged_witness :
  hmgrtable_free_handle one_alloc_table device (build_handle 0 3 0) = Ok one_alloc_table.
Proof.
  apply free_handle_invalid_unchanged. right.
  exists (used_entry 1 false).
  split; [vm_compute; reflexivity |]. left. vm_compute. discriminate.
Defined.

(** C7. When the index of the handle is within the table and its slot is
    not Free, [hmgrtable_assign_handle] returns the invalid-parameter
    failure status and the whole table, with the slot, the free list and
    [free_count], is unchanged. *)
Theorem assign_handle_busy_unchanged mem table o t h e :
  get_index h < table_size table ->
  entry_at table (get_index h) = Ok e ->
  type e <> HMGRENTRY_TYPE_FREE ->
  hmgrtable_assign_handle mem table o t h = Ok (table, STATUS_INVALID_PARAMETER).
Proof.
  intros Hlt He Hty. unfold hmgrtable_assign_handle.
  destruct (HMGRHANDLE_INDEX_MAX <=? get_index h); [reflexivity |].
  destruct (Z.leb_spec (table_size table) (get_index h)); [lia |].
  cbn [mbind outcome_bind negb]. rewrite He. cbn [mbind outcome_bind].
  apply type_eqb_neq in Hty. rewrite Hty. reflexivity.
Qed.

Lemma assign_handle_busy_unchanged_witness :
  hmgrtable_assign_handle (Some zeroed) one_alloc_table 8192 device (build_handle 0 1 0)
    = Ok (one_alloc_table, STATUS_INVALID_PARAMETER).
Proof.
  apply (assign_handle_busy_unchanged (Some zeroed) one_alloc_table 8192 device
           (build_handle 0 1 0) (used_entry 1 false)).
  - vm_compute. reflexivity.
  - vm_compute. reflexivity.
  - discriminate.
Defined.

(** C8. Growth is all or nothing: whenever [expand_table] returns false
    the table is exactly as before the call; and it does return false when
    the size it aims for exceeds the index ceiling or the allocation of the
    new array fails (the read of the tail entry that precedes being inside
    the array). *)
Theorem expand_table_all_or_nothing mem table NumEntries :
  (forall table', expand_table mem table NumEntries = Ok (table', false) -> table' = table) /\
  ((free_count table = 0 \/ exists e, entry_at table (free_handle_list_tail table) = Ok e) ->
   (HMGRHANDLE_INDEX_MAX < expand_target table NumEntries \/ mem = None) ->
   expand_table mem table NumEntries = Ok (table, false)).
Proof.
  split; [intros table'; apply expand_table_false |].
  intros Htail Hfail. unfold expand_table.
  set (check := if free_count table =? 0 then Ok true else _).
  assert (Hcheck : exists b : bool, check = Ok b).
  { subst check. destruct Htail as [-> | [e ->]]; [exists true; reflexivity |].
    destruct (free_count table =? 0); cbn [mbind outcome_bind]; eauto. }
  destruct Hcheck as [b ->]. cbn [mbind outcome_bind].
  destruct b; cbn [negb]; [| reflexivity].
  fold (expand_target table NumEntries).
  destruct (Z.ltb_spec HMGRHANDLE_INDEX_MAX (expand_target table NumEntries)); [reflexivity |].
  destruct Hfail as [? | ->]; [lia | reflexivity].
Qed.

Lemma expand_table_all_or_nothing_witness :
  expand_table None hmgrtable_init 0 = Ok (hmgrtable_init, false) /\
  expand_table (Some zeroed) one_alloc_table 16777216 = Ok (one_alloc_table, false).
Proof.
  split.
  - apply (expand_table_all_or_nothing None hmgrtable_init 0).
    + left. reflexivity.
    + right. reflexivity.
  - apply (expand_table_all_or_nothing (Some zeroed) one_alloc_table 16777216).
    + right. exists (free_entry 1022 HMGRTABLE_INVALID_INDEX).
      vm_compute. reflexivity.
    + left. vm_compute. reflexivity.
Defined.

(** * Further properties of the code *)

(** ** More on the handle codec *)

Lemma u32_shiftl_field v s :
  0 <= s <= 32 ->
  u32 (Z.shiftl v s) = Z.shiftl (v mod 2 ^ (32 - s)) s.
Proof.
  intros Hs. unfold u32. rewrite !Z.shiftl_mul_pow2 by lia.
  replace (2 ^ 32) with (2 ^ (32 - s) * 2 ^ s)
    by (rewrite <- Z.pow_add_r by lia; f_equal; lia).
  apply Z.mul_mod_distr_r; apply Z.pow_nonzero; lia.
Qed.

Lemma mod_pow2_mod_pow2 v a b :
  0 <= b <= a -> (v mod 2 ^ a) mod 2 ^ b = v mod 2 ^ b.
Proof.
  intros Hab. replace a with (b + (a - b)) by lia.
  rewrite Z.pow_add_r by lia.
  rewrite Z.rem_mul_r by (apply Z.pow_nonzero || apply Z.pow_pos_nonneg; lia).
  rewrite (Z.mul_comm (2 ^ b)), Z.mod_add by (apply Z.pow_nonzero; lia).
  apply Z.mod_mod. apply Z.pow_nonzero; lia.
Qed.

Lemma build_handle_truncates i g n :
  build_handle i g n = build_handle (i mod 2 ^ 24) (g mod 2 ^ 2) (n mod 2 ^ 6).
Proof.
  unfold build_handle.
  change HMGRHANDLE_INDEX_SHIFT with 6. change HMGRHANDLE_UNIQUE_SHIFT with 30.
  change HMGRHANDLE_INSTANCE_SHIFT with 0.
  change HMGRHANDLE_INDEX_MASK with (Z.shiftl (Z.ones 24) 6).
  change HMGRHANDLE_UNIQUE_MASK with (Z.shiftl (Z.ones 2) 30).
  change HMGRHANDLE_INSTANCE_MASK with (Z.shiftl (Z.ones 6) 0).
  rewrite !u32_shiftl_field by lia.
  rewrite !field_insert by lia.
  change (32 - 6) with 26. change (32 - 30) with 2. change (32 - 0) with 32.
  rewrite !mod_pow2_mod_pow2 by lia.
  reflexivity.
Qed.

Lemma mod_field_range v w : 0 <= w -> 0 <= v mod 2 ^ w < 2 ^ w.
Proof. intros Hw. apply Z.mod_pos_bound. apply Z.pow_pos_nonneg; lia. Qed.

Lemma get_index_build_handle_any i g n :
  get_index (build_handle i g n) = i mod 2 ^ 24.
Proof.
  rewrite build_handle_truncates. apply get_index_build_handle; apply mod_field_range; lia.
Qed.

Lemma get_unique_build_handle_any i g n :
  get_unique (build_handle i g n) = g mod 2 ^ 2.
Proof.
  rewrite build_handle_truncates. apply get_unique_build_handle; apply mod_field_range; lia.
Qed.

Lemma get_instance_build_handle_any i g n :
  get_instance (build_handle i g n) = n mod 2 ^ 6.
Proof.
  rewrite build_handle_truncates.
  apply get_instance_build_handle; apply mod_field_range; lia.
Qed.

(** X1. Decoding the handle built from any three integers gives each of them
    reduced to the width of its field: the index modulo 2^24, the generation
    modulo 2^2 and the instance modulo 2^6. *)
Theorem decode_encode_truncates (i g n : Z) :
  decode (encode i g n) = (i mod 2 ^ 24, g mod 2 ^ 2, n mod 2 ^ 6).
Proof.
  unfold decode, encode.
  rewrite get_index_build_handle_any, get_unique_build_handle_any,
    get_instance_build_handle_any.
  reflexivity.
Qed.

(** X2. Every 32-bit handle is what build_handle makes of its own index,
    generation and instance fields. *)
Theorem encode_decode_roundtrip (h : d3dkmt_handle) :
  0 <= h < 2 ^ 32 ->
  encode (get_index h) (get_unique h) (get_instance h) = h.
Proof.
  intros Hh. unfold encode.
  pose proof (get_index_range h) as Hi.
  pose proof (get_unique_range h) as Hg. change HMGRHANDLE_UNIQUE_MAX with 3 in Hg.
  assert (Hn : 0 <= get_instance h < 2 ^ 6)
    by (rewrite get_instance_eq; apply Z.mod_pos_bound; reflexivity).
  rewrite build_handle_eq by (assumption || lia).
  rewrite get_index_eq, get_unique_eq, get_instance_eq.
  change (2 ^ 0) with 1; change (2 ^ 2) with 4 in *; change (2 ^ 6) with 64 in *;
  change (2 ^ 24) with 16777216 in *; change (2 ^ 30) with 1073741824;
  change (2 ^ 32) with 4294967296 in *.
  Z.div_mod_to_equations. lia.
Qed.

Lemma encode_decode_roundtrip_witness :
  encode (get_index 0x80000140) (get_unique 0x80000140) (get_instance 0x80000140)
    = 0x80000140.
Proof. apply encode_decode_roundtrip. lia. Defined.

(** A handle and its index and generation: two handles with the same two
    fields are treated alike by validation. *)
Lemma is_handle_valid_fields table h1 h2 ign t :
  get_index h1 = get_index h2 -> get_unique h1 = get_unique h2 ->
  is_handle_valid table h1 ign t = is_handle_valid table h2 ign t.
Proof. intros Hi Hu. unfold is_handle_valid. rewrite Hi, Hu. reflexivity. Qed.

(** ** Lookups and the destroyed flag *)

Lemma is_handle_valid_in_bounds table h ign t :
  array_ok table -> exists b, is_handle_valid table h ign t = Ok b.
Proof.
  intros Ha. unfold is_handle_valid.
  destruct (Z.leb_spec (table_size table) (get_index h)); [eauto |].
  pose proof (get_index_range h).
  destruct (entry_at_in_bounds table (get_index h) Ha) as [e ->]; [lia |].
  cbn [mbind outcome_bind].
  repeat match goal with |- context [if ?b then _ else _] => destruct b end; eauto.
Qed.

Lemma is_handle_valid_entry table h ign t :
  is_handle_valid table h ign t = Ok true ->
  exists e, entry_at table (get_index h) = Ok e.
Proof. intros (e & _ & He & _)%is_handle_valid_true. eauto. Qed.

(** The three lookups, through what validation says. *)
Lemma lookup_valid table h ign t e :
  is_handle_valid table h ign t = Ok true ->
  entry_at table (get_index h) = Ok e ->
  (v ← is_handle_valid table h ign t;
   if negb v then Ok NULL else e ← entry_at table (get_index h); Ok (object e))
  = Ok (object e).
Proof. intros -> He. cbn [mbind outcome_bind negb]. rewrite He. reflexivity. Qed.

Lemma lookup_invalid table h ign t :
  is_handle_valid table h ign t = Ok false ->
  (v ← is_handle_valid table h ign t;
   if negb v then Ok NULL else e ← entry_at table (get_index h); Ok (object e))
  = Ok NULL.
Proof. intros ->. reflexivity. Qed.

(** X3. On every reachable table and for every handle, the validation, the
    four lookups, the mark and the unmark return without reading or writing
    outside the entry array. *)
Theorem lookups_in_bounds table h t :
  reachable table ->
  (exists b, is_handle_valid table h false t = Ok b) /\
  (exists o, hmgrtable_get_object table h = Ok o) /\
  (exists o, hmgrtable_get_object_by_type table t h = Ok o) /\
  (exists o, hmgrtable_get_object_ignore_destroyed table h t = Ok o) /\
  (exists ty, hmgrtable_get_object_type table h = Ok ty) /\
  (exists r, hmgrtable_mark_destroyed table h = Ok r) /\
  (exists r, hmgrtable_unmark_destroyed table h = Ok r).
Proof.
  intros Hreach. apply reachable_table_ok in Hreach as Hok.
  pose proof (ok_array _ _ Hok) as Ha.
  assert (Hlook : forall ign t', exists o,
            (v ← is_handle_valid table h ign t';
             if negb v then Ok NULL
             else e ← entry_at table (get_index h); Ok (object e)) = Ok o).
  { intros ign t'. destruct (is_handle_valid_in_bounds table h ign t' Ha) as [[|] Hv].
    - destruct (is_handle_valid_entry _ _ _ _ Hv) as [e He].
      exists (object e). apply lookup_valid; assumption.
    - exists NULL. apply lookup_invalid; assumption. }
  split; [apply is_handle_valid_in_bounds; assumption |].
  split; [apply Hlook |]. split; [apply Hlook |]. split; [apply Hlook |].
  split; [| split].
  - unfold hmgrtable_get_object_type, hmgrtable_get_entry_type.
    destruct (is_handle_valid_in_bounds table h false HMGRENTRY_TYPE_FREE Ha) as [[|] Hv];
      rewrite Hv; cbn [mbind outcome_bind negb]; [| eauto].
    destruct (is_handle_valid_entry _ _ _ _ Hv) as [e ->]. cbn. eauto.
  - unfold hmgrtable_mark_destroyed.
    destruct (is_handle_valid_in_bounds table h false HMGRENTRY_TYPE_FREE Ha) as [[|] Hv];
      rewrite Hv; cbn [mbind outcome_bind negb]; [| eauto].
    destruct (is_handle_valid_entry _ _ _ _ Hv) as [e He].
    rewrite update_entry_eq, He. cbn. eauto.
  - unfold hmgrtable_unmark_destroyed.
    destruct (is_handle_valid_in_bounds table h true HMGRENTRY_TYPE_FREE Ha) as [[|] Hv];
      rewrite Hv; cbn [mbind outcome_bind negb]; [| eauto].
    destruct (is_handle_valid_entry _ _ _ _ Hv) as [e He].
    rewrite update_entry_eq, He. cbn. eauto.
Qed.

Lemma lookups_in_bounds_witness :
  exists o, hmgrtable_get_object full_table 0xFFFFFFFF = Ok o.
Proof.
  apply (lookups_in_bounds full_table 0xFFFFFFFF device). exact full_table_reachable.
Defined.

(** What [hmgrtable_mark_destroyed] does when it returns true. *)
Lemma hmgrtable_mark_destroyed_true table h table' :
  hmgrtable_mark_destroyed table h = Ok (table', true) ->
  exists arr e,
    entry_table table = Some arr /\ arr !! Z.to_nat (get_index h) = Some e /\
    is_handle_valid table h false HMGRENTRY_TYPE_FREE = Ok true /\
    entry_at table (get_index h) = Ok e /\
    table' = with_entry_table
               (Some (<[Z.to_nat (get_index h) := set_destroyed true e]> arr)) table /\
    entry_at table' (get_index h) = Ok (set_destroyed true e).
Proof.
  unfold hmgrtable_mark_destroyed. intros H.
  apply bind_Ok in H as (v & Hv & H).
  destruct v; cbn [negb] in H; [| discriminate].
  apply bind_Ok in H as (table1 & H1 & [= <-]).
  pose proof H1 as (arr & e & Harr & Hi & Hl & ->)%update_entry_Ok.
  exists arr, e. repeat split; try assumption.
  - apply entry_at_Ok. eauto.
  - eapply entry_at_update_same; [exact H1 |]. apply entry_at_Ok. eauto.
Qed.

(** X4. After hmgrtable_mark_destroyed returns true for a handle,
    hmgrtable_get_object and hmgrtable_get_object_by_type return NULL for
    it, the lookup that ignores the flag returns what hmgrtable_get_object
    returned before the mark, and a second mark returns false and changes
    nothing. *)
Theorem mark_destroyed_hides_object table h table' t :
  hmgrtable_mark_destroyed table h = Ok (table', true) ->
  hmgrtable_get_object table' h = Ok NULL /\
  hmgrtable_get_object_by_type table' t h = Ok NULL /\
  hmgrtable_get_object_ignore_destroyed table' h HMGRENTRY_TYPE_FREE
    = hmgrtable_get_object table h /\
  hmgrtable_mark_destroyed table' h = Ok (table', false).
Proof.
  intros (arr & e & Harr & Hl & Hv & He & -> & He')%hmgrtable_mark_destroyed_true.
  pose proof Hv as (e0 & Hlt & He0 & Hu & Hd & Hty & _)%is_handle_valid_true.
  assert (e0 = e) as -> by congruence.
  assert (Hinv : forall t', is_handle_valid
            (with_entry_table (Some (<[Z.to_nat (get_index h) := set_destroyed true e]> arr))
               table) h false t' = Ok false).
  { intros t'. unfold is_handle_valid. cbn [table_size with_entry_table].
    destruct (Z.leb_spec (table_size table) (get_index h)); [reflexivity |].
    rewrite He'. cbn [mbind outcome_bind unique set_destroyed destroyed].
    destruct (negb (get_unique h =? unique e)); reflexivity. }
  split; [apply lookup_invalid, Hinv |].
  split; [apply lookup_invalid, Hinv |].
  split.
  - unfold hmgrtable_get_object. rewrite (lookup_valid _ _ _ _ e Hv He).
    apply (lookup_valid _ _ _ _ (set_destroyed true e)); [| exact He'].
    apply is_handle_valid_true. exists (set_destroyed true e).
    cbn [table_size with_entry_table]. auto 10.
  - unfold hmgrtable_mark_destroyed. rewrite Hinv. reflexivity.
Qed.

Lemma one_alloc_table_mark :
  hmgrtable_mark_destroyed one_alloc_table 0x40000000 = Ok (one_destroyed_table, true).
Proof. vm_compute. reflexivity. Qed.

Lemma mark_destroyed_hides_object_witness :
  hmgrtable_get_object one_destroyed_table 0x40000000 = Ok NULL /\
  hmgrtable_get_object_ignore_destroyed one_destroyed_table 0x40000000 HMGRENTRY_TYPE_FREE
    = hmgrtable_get_object one_alloc_table 0x40000000.
Proof.
  destruct (mark_destroyed_hides_object one_alloc_table 0x40000000 one_destroyed_table
              device one_alloc_table_mark) as (H1 & _ & H3 & _).
  split; assumption.
Defined.

Lemma set_destroyed_same e : set_destroyed (destroyed e) e = e.
Proof. destruct e; reflexivity. Qed.

Lemma set_destroyed_twice b b' e : set_destroyed b (set_destroyed b' e) = set_destroyed b e.
Proof. reflexivity. Qed.

(** What [hmgrtable_unmark_destroyed] does with a handle that passes
    validation, the destroyed flag being ignored. *)
Lemma hmgrtable_unmark_destroyed_valid table h arr e :
  is_handle_valid table h true HMGRENTRY_TYPE_FREE = Ok true ->
  entry_table table = Some arr -> arr !! Z.to_nat (get_index h) = Some e ->
  hmgrtable_unmark_destroyed table h
    = Ok (with_entry_table
            (Some (<[Z.to_nat (get_index h) := set_destroyed false e]> arr)) table, true).
Proof.
  intros Hv Harr Hl. unfold hmgrtable_unmark_destroyed. rewrite Hv.
  cbn [mbind outcome_bind negb].
  pose proof (get_index_range h).
  assert (Hupd : update_entry table (get_index h) (set_destroyed false)
                 = Ok (with_entry_table
                         (Some (<[Z.to_nat (get_index h) := set_destroyed false e]> arr))
                         table)).
  { apply update_entry_Ok. exists arr, e. auto with lia. }
  rewrite Hupd. reflexivity.
Qed.

(** X5. Unmarking a handle right after a mark that returned true gives back
    the table exactly as it was before the mark. *)
Theorem unmark_after_mark_restores table h table' :
  hmgrtable_mark_destroyed table h = Ok (table', true) ->
  hmgrtable_unmark_destroyed table' h = Ok (table, true).
Proof.
  intros (arr & e & Harr & Hl & Hv & He & -> & He')%hmgrtable_mark_destroyed_true.
  pose proof Hv as (e0 & Hlt & He0 & Hu & Hd & Hty & _)%is_handle_valid_true.
  assert (e0 = e) as -> by congruence.
  destruct Hd as [Hd | ?]; [| discriminate].
  pose proof (lookup_lt_Some _ _ _ Hl) as Hlen.
  rewrite (hmgrtable_unmark_destroyed_valid _ h
             (<[Z.to_nat (get_index h) := set_destroyed true e]> arr)
             (set_destroyed true e)).
  - cbn [with_entry_table entry_table free_handle_list_head free_handle_list_tail
         table_size free_count].
    rewrite list_insert_insert_eq, set_destroyed_twice, <- Hd, set_destroyed_same.
    rewrite list_insert_id by assumption.
    rewrite <- Harr. destruct table; reflexivity.
  - apply is_handle_valid_true. exists (set_destroyed true e).
    cbn [table_size with_entry_table]. auto 10.
  - reflexivity.
  - apply list_lookup_insert_eq. assumption.
Qed.

Lemma unmark_after_mark_restores_witness :
  hmgrtable_unmark_destroyed one_destroyed_table 0x40000000 = Ok (one_alloc_table, true).
Proof.
  apply (unmark_after_mark_restores one_alloc_table 0x40000000 one_destroyed_table).
  exact one_alloc_table_mark.
Defined.

(** X6. hmgrtable_unmark_destroyed returns true and leaves the table
    unchanged when the handle is invalid even with the flag ignored, and
    when it is valid and not marked destroyed. *)
Theorem unmark_destroyed_noop table h :
  (is_handle_valid table h true HMGRENTRY_TYPE_FREE = Ok false \/
   is_handle_valid table h false HMGRENTRY_TYPE_FREE = Ok true) ->
  hmgrtable_unmark_destroyed table h = Ok (table, true).
Proof.
  intros [Hinv | Hv].
  - unfold hmgrtable_unmark_destroyed. rewrite Hinv. reflexivity.
  - pose proof Hv as (e & Hlt & He & Hu & Hd & Hty & Ht)%is_handle_valid_true.
    destruct Hd as [Hd | ?]; [| discriminate].
    pose proof He as (arr & Harr & _ & Hl)%entry_at_Ok.
    rewrite (hmgrtable_unmark_destroyed_valid table h arr e); try assumption.
    + rewrite <- Hd, set_destroyed_same, list_insert_id by assumption.
      rewrite <- Harr. destruct table; reflexivity.
    + apply is_handle_valid_true. exists e. auto 10.
Qed.

Lemma unmark_destroyed_noop_witness :
  hmgrtable_unmark_destroyed one_alloc_table 0x40000000 = Ok (one_alloc_table, true) /\
  hmgrtable_unmark_destroyed one_alloc_table 0x80000000 = Ok (one_alloc_table, true).
Proof.
  split; apply unmark_destroyed_noop.
  - right. vm_compute. reflexivity.
  - left. vm_compute. reflexivity.
Defined.

(** X7. hmgrtable_get_object_type returns Free exactly for the handles that
    fail the validation, and an object type t exactly for the handles that
    are valid with expected type t. *)
Theorem get_object_type_free_iff_invalid table h :
  array_ok table ->
  (hmgrtable_get_object_type table h = Ok HMGRENTRY_TYPE_FREE <->
   is_handle_valid table h false HMGRENTRY_TYPE_FREE = Ok false) /\
  (forall t, t <> HMGRENTRY_TYPE_FREE ->
     (hmgrtable_get_object_type table h = Ok t <->
      is_handle_valid table h false t = Ok true)).
Proof.
  intros Ha. unfold hmgrtable_get_object_type, hmgrtable_get_entry_type.
  destruct (is_handle_valid_in_bounds table h false HMGRENTRY_TYPE_FREE Ha) as [[|] Hv];
    rewrite Hv; cbn [mbind outcome_bind negb].
  - pose proof Hv as (e & Hlt & He & Hu & Hd & Hty & _)%is_handle_valid_true.
    rewrite He. cbn [mbind outcome_bind]. split.
    + split; [intros [= ?]; contradiction | discriminate].
    + intros t Ht. split.
      * intros [= <-]. apply is_handle_valid_true. exists e. auto 10.
      * intros (e' & _ & He' & _ & _ & _ & [? | ->])%is_handle_valid_true;
          [contradiction |]. congruence.
  - split; [split; reflexivity |].
    intros t Ht. split; [intros [= ?]; congruence |].
    intros (e & Hlt & He & Hu & Hd & Hty & _)%is_handle_valid_true.
    assert (is_handle_valid table h false HMGRENTRY_TYPE_FREE = Ok true)
      by (apply is_handle_valid_true; exists e; auto 10).
    congruence.
Qed.

Lemma get_object_type_free_iff_invalid_witness :
  hmgrtable_get_object_type one_alloc_table 0x40000000 = Ok device.
Proof.
  apply (get_object_type_free_iff_invalid one_alloc_table 0x40000000).
  - reflexivity.
  - discriminate.
  - vm_compute. reflexivity.
Defined.

(** X8. The validation and the three object lookups do not depend on the
    instance field of the handle: replacing it by any value gives the same
    results. *)
Theorem lookups_ignore_instance table h n t :
  let h' := build_handle (get_index h) (get_unique h) n in
  is_handle_valid table h' false t = is_handle_valid table h false t /\
  hmgrtable_get_object table h' = hmgrtable_get_object table h /\
  hmgrtable_get_object_by_type table t h' = hmgrtable_get_object_by_type table t h /\
  hmgrtable_get_object_ignore_destroyed table h' t
    = hmgrtable_get_object_ignore_destroyed table h t.
Proof.
  intros h'.
  assert (Hi : get_index h' = get_index h).
  { subst h'. rewrite get_index_build_handle_any. apply Z.mod_small, get_index_range. }
  assert (Hu : get_unique h' = get_unique h).
  { subst h'. rewrite get_unique_build_handle_any. apply Z.mod_small.
    pose proof (get_unique_range h) as H. change HMGRHANDLE_UNIQUE_MAX with 3 in H.
    change (2 ^ 2) with 4. lia. }
  assert (Hv : forall ign t', is_handle_valid table h' ign t' = is_handle_valid table h ign t')
    by (intros; apply is_handle_valid_fields; assumption).
  unfold hmgrtable_get_object, hmgrtable_get_object_by_type,
    hmgrtable_get_object_ignore_destroyed.
  rewrite !Hv, Hi. auto.
Qed.

(** ** What the operations leave of the occupied entries *)

Lemma same_meta_refl e : same_meta e e.
Proof. repeat split. Qed.

Lemma same_meta_trans e1 e2 e3 : same_meta e1 e2 -> same_meta e2 e3 -> same_meta e1 e3.
Proof. unfold same_meta. intuition congruence. Qed.

Lemma extends_refl P table : extends P table table.
Proof. split; [lia |]. intros i e _ _ He. exists e. split; [assumption | apply same_meta_refl]. Qed.

Lemma extends_trans P t1 t2 t3 : extends P t1 t2 -> extends P t2 t3 -> extends P t1 t3.
Proof.
  intros [Hs1 H1] [Hs2 H2]. split; [lia |].
  intros i e HP Hty He.
  destruct (H1 i e HP Hty He) as (e2 & He2 & Hm2).
  destruct (H2 i e2 HP) as (e3 & He3 & Hm3); [destruct Hm2 as [-> _]; assumption | assumption |].
  exists e3. split; [assumption | eapply same_meta_trans; eassumption].
Qed.

Lemma extends_weaken (P Q : Z -> Prop) t1 t2 :
  (forall i, Q i -> P i) -> extends P t1 t2 -> extends Q t1 t2.
Proof. intros HPQ [Hs H]. split; [assumption |]. intros i e HQ. apply H, HPQ, HQ. Qed.

Lemma update_entry_fields table i f table' :
  update_entry table i f = Ok table' ->
  free_handle_list_head table' = free_handle_list_head table /\
  free_handle_list_tail table' = free_handle_list_tail table /\
  table_size table' = table_size table /\
  free_count table' = free_count table.
Proof. intros (arr & e & _ & _ & _ & ->)%update_entry_Ok. repeat split. Qed.

Lemma entry_at_same_entries table table' i :
  entry_table table' = entry_table table -> entry_at table' i = entry_at table i.
Proof. intros H. unfold entry_at. rewrite H. reflexivity. Qed.

(** Operations on the scalar fields only. *)
Lemma extends_same_entries P table table' :
  entry_table table' = entry_table table -> table_size table <= table_size table' ->
  extends P table table'.
Proof.
  intros Harr Hs. split; [assumption |]. intros i e _ _ He. exists e.
  split; [| apply same_meta_refl]. unfold entry_at in *. rewrite Harr. assumption.
Qed.

(** A write that keeps the bit-fields of the entry. *)
Lemma extends_update_meta P table i f table' :
  (forall e, same_meta e (f e)) ->
  update_entry table i f = Ok table' -> extends P table table'.
Proof.
  intros Hf Hupd. pose proof Hupd as (arr & e0 & Harr & Hi & Hl & ->)%update_entry_Ok.
  split; [cbn; lia |]. intros j e _ _ He.
  destruct (decide (i = j)) as [<- | Hne].
  - exists (f e). split; [| apply Hf]. eapply entry_at_update_same; eassumption.
  - exists e. split; [| apply same_meta_refl].
    rewrite (entry_at_update_other _ _ _ _ _ Hupd); [assumption | | assumption].
    apply entry_at_Ok in He as (_ & _ & ? & _). assumption.
Qed.

(** A write to an entry that is free, or that [P] leaves out. *)
Lemma extends_update_other (P : Z -> Prop) table i f table' :
  (forall e, P i -> entry_at table i = Ok e -> type e = HMGRENTRY_TYPE_FREE) ->
  update_entry table i f = Ok table' -> extends P table table'.
Proof.
  intros Hfree Hupd. pose proof Hupd as (arr & e0 & Harr & Hi & Hl & ->)%update_entry_Ok.
  split; [cbn; lia |]. intros j e HP Hty He.
  destruct (decide (i = j)) as [<- | Hne].
  - exfalso. apply Hty. eapply Hfree; eassumption.
  - exists e. split; [| apply same_meta_refl].
    rewrite (entry_at_update_other _ _ _ _ _ Hupd); [assumption | | assumption].
    apply entry_at_Ok in He as (_ & _ & ? & _). assumption.
Qed.

Lemma same_meta_set_prev v e : same_meta e (set_prev_free_index v e).
Proof. repeat split. Qed.
Lemma same_meta_set_next v e : same_meta e (set_next_free_index v e).
Proof. repeat split. Qed.

(** Every entry of the table is in the grown table with the bit-fields
    it had; all but the old tail of the free list are there unchanged. *)
Lemma expand_table_keeps mem table n table' b :
  table_ok 0 table ->
  expand_table mem table n = Ok (table', b) ->
  forall i e, entry_at table i = Ok e ->
    exists e', entry_at table' i = Ok e' /\ same_meta e e' /\
      (i <> free_handle_list_tail table -> e' = e).
Proof.
  intros Hok H i e He.
  destruct b.
  2: { apply expand_table_false in H as ->. exists e. auto using same_meta_refl. }
  pose proof (entry_at_bounds _ _ _ (ok_array _ _ Hok) He) as Hi.
  pose proof (expand_table_spec 0 mem table n ltac:(lia) Hok) as Hspec.
  rewrite H in Hspec. destruct Hspec as (_ & _ & Hfit & Hsize & _).
  pose proof (expand_target_bounds table n (ok_size _ _ Hok)) as Hgrow.
  pose proof (ok_size _ _ Hok) as Hsz. rewrite index_max_value in *.
  unfold expand_table in H.
  apply bind_Ok in H as ([|] & _ & H); cbn [negb] in H; [| discriminate].
  fold (expand_target table n) in H.
  destruct (_ <? _); [discriminate |].
  destruct mem as [fresh |]; [| discriminate].
  apply bind_Ok in H as (copied & Hcopy & H).
  apply entry_at_Ok in He as (old & Hold & Hi0 & Hl).
  pose proof (ok_array _ _ Hok) as Ha. unfold array_ok in Ha. rewrite Hold in *.
  replace (orb _ _) with false in Hcopy by (symmetry; apply orb_false_iff; lia).
  injection Hcopy as <-.
  rewrite firstn_all2 in H by lia.
  cbn [table_size with_entry_table free_count free_handle_list_tail] in H.
  set (arr0 := old ++ _) in H.
  destruct (expand_loop_spec (Z.to_nat (expand_target table n - table_size table))
              (table_size table) (free_handle_list_tail table)
              (with_entry_table (Some arr0) table) arr0)
    as (arr1 & Hloop & Hlen1 & Hlow1 & _);
    [reflexivity | lia | subst arr0; rewrite length_app, length_map, length_seqZ; lia | lia |].
  rewrite Hloop in H. cbn [mbind outcome_bind] in H.
  apply bind_Ok in H as (table2 & H2 & H).
  apply bind_Ok in H as (table3 & H3 & H).
  injection H as <-.
  assert (He1 : entry_at (with_entry_table (Some arr1) (with_entry_table (Some arr0) table)) i
                = Ok e).
  { apply entry_at_Ok. exists arr1. split; [reflexivity |]. split; [lia |].
    rewrite Hlow1 by lia. subst arr0. rewrite lookup_app_l by lia. assumption. }
  assert (He2 : entry_at table2 i = Ok e).
  { rewrite (entry_at_update_other _ _ _ _ _ H2); [assumption | lia |].
    rewrite (Z2Nat.id (expand_target table n - table_size table)) by lia.
    rewrite u32_small by lia. lia. }
  pose proof (update_entry_fields _ _ _ _ H2) as (_ & Ht2 & _ & Hc2).
  cbn [with_entry_table free_handle_list_tail free_count] in Ht2, Hc2.
  match goal with
  | |- context [entry_at ?T i] =>
      assert (Hfin : entry_at T i = entry_at table3 i)
        by (apply entry_at_same_entries;
            destruct (free_handle_list_head _ =? HMGRTABLE_INVALID_INDEX); reflexivity)
  end.
  rewrite Hfin. clear Hfin.
  destruct (negb (free_count table2 =? 0)).
  - destruct (decide (free_handle_list_tail table2 = i)) as [Heq | Hne].
    + rewrite Heq in H3. eexists. split; [| split].
      * eapply entry_at_update_same; eassumption.
      * apply same_meta_set_next.
      * intros Hn. exfalso. apply Hn. congruence.
    + exists e. split; [| auto using same_meta_refl].
      rewrite (entry_at_update_other _ _ _ _ _ H3); [assumption | lia | assumption].
  - injection H3 as <-. exists e. auto using same_meta_refl.
Qed.

Lemma expand_table_extends mem table n table' b :
  table_ok 0 table ->
  expand_table mem table n = Ok (table', b) ->
  table_ok 0 table' /\ extends (fun _ => True) table table'.
Proof.
  intros Hok H.
  pose proof (expand_table_spec 0 mem table n ltac:(lia) Hok) as Hspec.
  rewrite H in Hspec.
  assert (Hok' : table_ok 0 table') by (destruct b; [apply Hspec | subst; assumption]).
  split; [assumption |]. split.
  - destruct b; [| subst; lia].
    destruct Hspec as (_ & _ & _ & -> & _).
    pose proof (expand_target_bounds table n (ok_size _ _ Hok)). lia.
  - intros i e _ _ He.
    destruct (expand_table_keeps mem table n table' b Hok H i e He) as (e' & ? & ? & _).
    eauto.
Qed.

(** The paths of [hmgrtable_alloc_handle]: the table it works on after the
    growth, if any; what is left of the entries; and, for a handle other
    than 0, the entry at the head of the free list that it takes. *)
Lemma hmgrtable_alloc_handle_inv mem table o t mv table' h :
  table_ok 0 table ->
  hmgrtable_alloc_handle mem table o t mv = Ok (table', h) ->
  exists table1,
    ((free_count table <= HMGRTABLE_MIN_FREE_ENTRIES /\
      exists b, expand_table mem table 0 = Ok (table1, b)) \/
     (HMGRTABLE_MIN_FREE_ENTRIES < free_count table /\ table1 = table)) /\
    table_ok 0 table1 /\
    extends (fun _ => True) table table1 /\
    extends (fun _ => True) table1 table' /\
    table_size table' = table_size table1 /\
    free_handle_list_tail table' = free_handle_list_tail table1 /\
    (h <> 0 ->
     exists entry,
       0 <= free_handle_list_head table1 < table_size table1 /\
       entry_at table1 (free_handle_list_head table1) = Ok entry /\
       type entry = HMGRENTRY_TYPE_FREE /\
       h = build_handle (free_handle_list_head table1) (unique entry) 0 /\
       free_handle_list_head table' = next_free_index entry /\
       free_count table' = u32 (free_count table1 - 1) /\
       entry_at table' (free_handle_list_head table1)
         = Ok (mk_hmgrentry o t (unique entry) 0 (negb mv))).
Proof.
  intros Hok H. unfold hmgrtable_alloc_handle in H.
  apply bind_Ok in H as ([table1 expanded] & Hpre & H).
  exists table1.
  assert (Hpre' : ((free_count table <= HMGRTABLE_MIN_FREE_ENTRIES /\
                    exists b, expand_table mem table 0 = Ok (table1, b)) \/
                   (HMGRTABLE_MIN_FREE_ENTRIES < free_count table /\ table1 = table)) /\
                  table_ok 0 table1 /\ extends (fun _ => True) table table1).
  { destruct (Z.leb_spec (free_count table) HMGRTABLE_MIN_FREE_ENTRIES).
    - destruct (expand_table_extends _ _ _ _ _ Hok Hpre). eauto 10.
    - injection Hpre as <- <-. split; [auto |]. split; [assumption | apply extends_refl]. }
  destruct Hpre' as (Hcase & Hok1 & Hext1).
  split; [exact Hcase |]. split; [exact Hok1 |]. split; [exact Hext1 |]. clear Hpre Hcase.
  assert (Hzero : forall (s1 s2 tl1 tl2 : Z) (P : Prop),
            s1 = s2 -> tl1 = tl2 -> s1 = s2 /\ tl1 = tl2 /\ (0 <> 0 -> P)).
  { intros s1 s2 tl1 tl2 P Hs Htl. split; [assumption |]. split; [assumption |].
    intros Hne. exfalso. apply Hne. reflexivity. }
  destruct expanded; cbn [negb] in H.
  2: { injection H as <- <-. split; [apply extends_refl |]. apply Hzero; reflexivity. }
  destruct (Z.leb_spec (table_size table1) (free_handle_list_head table1)) as [Hhead | Hhead].
  { injection H as <- <-. split; [apply extends_refl |]. apply Hzero; reflexivity. }
  apply bind_Ok in H as (entry & Hentry & H).
  destruct (type_eqb (type entry) HMGRENTRY_TYPE_FREE) eqn:Hty; cbn [negb] in H.
  2: { injection H as <- <-. split; [apply extends_refl |]. auto. }
  apply type_eqb_eq in Hty.
  set (table2 := with_head (next_free_index entry) table1) in *.
  assert (Hext2 : extends (fun _ => True) table1 table2)
    by (apply extends_same_entries; [reflexivity | cbn; lia]).
  destruct (andb _ _) eqn:Hfail.
  { injection H as <- <-. split; [exact Hext2 |]. apply Hzero; reflexivity. }
  apply bind_Ok in H as (table3 & H3 & H).
  assert (H3' : extends (fun _ => True) table2 table3 /\
                free_handle_list_head table3 = next_free_index entry /\
                free_handle_list_tail table3 = free_handle_list_tail table1 /\
                table_size table3 = table_size table1 /\
                free_count table3 = free_count table1 /\
                exists slot, entry_at table3 (free_handle_list_head table1) = Ok slot /\
                  same_meta entry slot).
  { destruct (negb _) in H3.
    - pose proof (update_entry_fields _ _ _ _ H3) as (? & ? & ? & ?).
      pose proof (extends_update_meta (fun _ => True) _ _ _ _
                    (same_meta_set_prev HMGRTABLE_INVALID_INDEX) H3) as Hx.
      split; [exact Hx |].
      do 4 (split; [assumption |]).
      destruct (decide (next_free_index entry = free_handle_list_head table1)) as [Heq | Hne].
      + rewrite Heq in H3. eexists. split.
        * eapply entry_at_update_same; [exact H3 | exact Hentry].
        * apply same_meta_set_prev.
      + exists entry. split; [| apply same_meta_refl].
        rewrite (entry_at_update_other _ _ _ _ _ H3); [exact Hentry | | assumption].
        apply (ok_head _ _ Hok1).
    - injection H3 as <-. split; [apply extends_refl |].
      do 4 (split; [reflexivity |]).
      exists entry. split; [exact Hentry | apply same_meta_refl]. }
  destruct H3' as (Hext3 & Hh3 & Ht3 & Hs3 & Hc3 & slot & Hslot & Hmeta).
  apply bind_Ok in H as (slot' & Hslot' & H).
  assert (slot' = slot) as -> by congruence.
  apply bind_Ok in H as (table4 & H4 & H).
  apply bind_Ok in H as (slot4 & Hslot4 & H).
  injection H as <- <-.
  pose proof (update_entry_fields _ _ _ _ H4) as (Hh4 & Ht4 & Hs4 & Hc4).
  pose proof (entry_at_update_same _ _ _ _ _ H4 Hslot) as Hnew.
  change (entry_at (with_free_count (u32 (free_count table4 - 1)) table4))
    with (entry_at table4) in Hslot4.
  assert (slot4 = set_destroyed (negb mv)
                    (set_instance 0 (set_type t (set_object o slot)))) as -> by congruence.
  assert (Hext4 : extends (fun _ => True) table3 table4).
  { eapply extends_update_other; [| exact H4].
    intros e _ He. assert (e = slot) as -> by congruence.
    destruct Hmeta as (-> & _). assumption. }
  split.
  { eapply extends_trans; [exact Hext2 |]. eapply extends_trans; [exact Hext3 |].
    eapply extends_trans; [exact Hext4 |].
    apply extends_same_entries; [reflexivity | cbn; lia]. }
  cbn [with_free_count table_size free_handle_list_tail free_handle_list_head free_count].
  split; [congruence |]. split; [congruence |].
  intros _. exists entry.
  pose proof (ok_head _ _ Hok1) as Hh1. unfold is_u32 in Hh1.
  destruct Hmeta as (_ & Hu & _).
  split; [lia |]. split; [exact Hentry |]. split; [exact Hty |].
  split; [cbn; rewrite Hu; reflexivity |].
  split; [congruence |]. split; [congruence |].
  transitivity (entry_at table4 (free_handle_list_head table1));
    [apply entry_at_same_entries; reflexivity |].
  rewrite Hnew. unfold set_destroyed, set_instance, set_type, set_object.
  cbn [payload type unique instance destroyed]. rewrite Hu. reflexivity.
Qed.

(** An update elsewhere, or one that keeps the bit-fields, leaves the
    entry at [i] with the bit-fields it had. *)
Lemma update_entry_meta_at table j f table' i e :
  (forall e0, same_meta e0 (f e0)) ->
  update_entry table j f = Ok table' ->
  entry_at table i = Ok e ->
  exists e', entry_at table' i = Ok e' /\ same_meta e e'.
Proof.
  intros Hf Hupd He.
  destruct (extends_update_meta (fun _ => True) _ _ _ _ Hf Hupd) as [_ Hx].
  destruct (decide (j = i)) as [-> | Hne].
  - exists (f e). split; [eapply entry_at_update_same; eassumption | apply Hf].
  - exists e. split; [| apply same_meta_refl].
    rewrite (entry_at_update_other _ _ _ _ _ Hupd); [assumption | | assumption].
    apply entry_at_Ok in He as (_ & _ & ? & _). assumption.
Qed.

(** The paths of [hmgrtable_assign_handle]. *)
Lemma hmgrtable_assign_handle_inv mem table o t h table' s :
  table_ok 0 table ->
  hmgrtable_assign_handle mem table o t h = Ok (table', s) ->
  table_ok 0 table' /\
  extends (fun _ => True) table table' /\
  (s = STATUS_NO_MEMORY -> table' = table) /\
  (s = STATUS_SUCCESS ->
   exists table1 entry,
     extends (fun _ => True) table table1 /\
     entry_at table1 (get_index h) = Ok entry /\
     type entry = HMGRENTRY_TYPE_FREE /\
     table_size table' = table_size table1 /\
     free_count table' = u32 (free_count table1 - 1) /\
     entry_at table' (get_index h) = Ok (mk_hmgrentry o t (get_unique h) 0 false)).
Proof.
  intros Hok H.
  assert (Hok' : table_ok 0 table').
  { eapply hmgrtable_assign_handle_ok; [| | exact Hok | exact H]; [lia |].
    apply get_unique_range. }
  split; [exact Hok' |].
  unfold hmgrtable_assign_handle in H.
  destruct (_ <=? _).
  { injection H as <- <-. split; [apply extends_refl |]. split; [auto | discriminate]. }
  apply bind_Ok in H as ([table1 expanded] & Hpre & H).
  assert (Hpre' : table_ok 0 table1 /\ extends (fun _ => True) table table1 /\
                  (expanded = false -> table1 = table)).
  { destruct (_ <=? _) in Hpre.
    - destruct (expand_table_extends _ _ _ _ _ Hok Hpre) as [? ?].
      split; [assumption |]. split; [assumption |].
      intros ->. eapply expand_table_false; eassumption.
    - injection Hpre as <- <-. split; [assumption |]. split; [apply extends_refl |].
      discriminate. }
  destruct Hpre' as (Hok1 & Hext1 & Hfalse). clear Hpre.
  destruct expanded; cbn [negb] in H.
  2: { injection H as <- <-. split; [exact Hext1 |]. split; [auto | discriminate]. }
  apply bind_Ok in H as (entry & Hentry & H).
  destruct (type_eqb (type entry) HMGRENTRY_TYPE_FREE) eqn:Hty; cbn [negb] in H.
  2: { injection H as <- <-. split; [exact Hext1 |]. split; discriminate. }
  apply type_eqb_eq in Hty.
  destruct (andb _ _).
  { injection H as <- <-. split; [exact Hext1 |]. split; discriminate. }
  apply bind_Ok in H as (table2 & H2 & H).
  assert (H2' : extends (fun _ => True) table1 table2 /\
                table_size table2 = table_size table1 /\
                free_count table2 = free_count table1 /\
                exists e2, entry_at table2 (get_index h) = Ok e2 /\ same_meta entry e2).
  { destruct (negb _) in H2.
    - pose proof (update_entry_fields _ _ _ _ H2) as (_ & _ & ? & ?).
      split; [eapply extends_update_meta; [| exact H2]; apply same_meta_set_prev |].
      do 2 (split; [assumption |]).
      eapply update_entry_meta_at; [| exact H2 | exact Hentry]. apply same_meta_set_prev.
    - injection H2 as <-.
      split; [apply extends_same_entries; [reflexivity | cbn; lia] |].
      do 2 (split; [reflexivity |]).
      exists entry. split; [exact Hentry | apply same_meta_refl]. }
  destruct H2' as (Hext2 & Hs2 & Hc2 & e2 & He2 & Hm2). clear H2.
  apply bind_Ok in H as (entry2 & Hentry2 & H).
  assert (entry2 = e2) as -> by congruence.
  destruct (andb _ _).
  { injection H as <- <-.
    split; [eapply extends_trans; eassumption |]. split; discriminate. }
  apply bind_Ok in H as (table3 & H3 & H).
  assert (H3' : extends (fun _ => True) table2 table3 /\
                table_size table3 = table_size table2 /\
                free_count table3 = free_count table2 /\
                exists e3, entry_at table3 (get_index h) = Ok e3 /\ same_meta e2 e3).
  { destruct (negb _) in H3.
    - pose proof (update_entry_fields _ _ _ _ H3) as (_ & _ & ? & ?).
      split; [eapply extends_update_meta; [| exact H3]; apply same_meta_set_next |].
      do 2 (split; [assumption |]).
      eapply update_entry_meta_at; [| exact H3 | exact He2]. apply same_meta_set_next.
    - injection H3 as <-.
      split; [apply extends_same_entries; [reflexivity | cbn; lia] |].
      do 2 (split; [reflexivity |]).
      exists e2. split; [exact He2 | apply same_meta_refl]. }
  destruct H3' as (Hext3 & Hs3 & Hc3 & e3 & He3 & Hm3). clear H3.
  apply bind_Ok in H as (table4 & H4 & H).
  injection H as <- <-.
  pose proof (update_entry_fields _ _ _ _ H4) as (_ & _ & Hs4 & Hc4).
  assert (Hfree3 : type e3 = HMGRENTRY_TYPE_FREE).
  { destruct Hm3 as (-> & _). destruct Hm2 as (-> & _). exact Hty. }
  assert (Hext4 : extends (fun _ => True) table3 table4).
  { eapply extends_update_other; [| exact H4].
    intros e _ He. assert (e = e3) as -> by congruence. exact Hfree3. }
  split.
  { eapply extends_trans; [exact Hext1 |]. eapply extends_trans; [exact Hext2 |].
    eapply extends_trans; [exact Hext3 |]. eapply extends_trans; [exact Hext4 |].
    apply extends_same_entries; [reflexivity | cbn; lia]. }
  split; [discriminate |]. intros _.
  exists table1, entry.
  split; [exact Hext1 |]. split; [exact Hentry |]. split; [exact Hty |].
  cbn [with_free_count table_size free_count].
  split; [congruence |]. split; [congruence |].
  transitivity (entry_at table4 (get_index h));
    [apply entry_at_same_entries; reflexivity |].
  rewrite (entry_at_update_same _ _ _ _ _ H4 He3).
  unfold set_destroyed, set_instance, set_type, set_object.
  cbn [payload type unique instance destroyed].
  f_equal. f_equal. apply (set_unique_get_unique h e3).
Qed.

(** The path of [hmgrtable_free_handle] for a handle that passes
    validation. *)
Lemma hmgrtable_free_handle_inv table t h table' :
  is_handle_valid table h true t = Ok true ->
  hmgrtable_free_handle table t h = Ok table' ->
  extends (fun i => i <> get_index h) table table' /\
  table_size table' = table_size table /\
  free_count table' = u32 (free_count table + 1) /\
  free_handle_list_head table' = free_handle_list_head table /\
  free_handle_list_tail table' = get_index h /\
  exists e', entry_at table' (get_index h) = Ok e' /\
    type e' = HMGRENTRY_TYPE_FREE /\ unique e' = 2 /\ destroyed e' = false.
Proof.
  intros Hv H. unfold hmgrtable_free_handle in H. rewrite Hv in H.
  cbn [mbind outcome_bind] in H.
  apply is_handle_valid_entry in Hv as [e He].
  apply bind_Ok in H as (table1 & H1 & H).
  apply bind_Ok in H as (table2 & H2 & H).
  apply bind_Ok in H as (table3 & H3 & H).
  injection H as <-.
  pose proof (update_entry_fields _ _ _ _ H1) as (Hh1 & Ht1 & Hs1 & Hc1).
  pose proof (update_entry_fields _ _ _ _ H2) as (Hh2 & Ht2 & Hs2 & Hc2).
  pose proof (update_entry_fields _ _ _ _ H3) as (Hh3 & Ht3 & Hs3 & Hc3).
  cbn [with_free_count with_tail free_handle_list_head free_handle_list_tail table_size
       free_count] in *.
  pose proof (entry_at_update_same _ _ _ _ _ H1 He) as He1.
  assert (He2 : exists e2, entry_at table2 (get_index h) = Ok e2 /\
                  type e2 = HMGRENTRY_TYPE_FREE /\ unique e2 = 2 /\ destroyed e2 = false).
  { eexists. split; [eapply entry_at_update_same; [exact H2 | exact He1] |].
    repeat split. }
  destruct He2 as (e2 & He2 & Hty2 & Hu2 & Hd2).
  destruct (update_entry_meta_at _ _ _ _ _ _ (same_meta_set_next (get_index h)) H3 He2)
    as (e3 & He3 & Hty3 & Hu3 & _ & Hd3).
  split; [| split; [congruence | split; [congruence | split; [congruence |
            split; [reflexivity |]]]]].
  - eapply extends_trans;
      [eapply extends_update_other; [| exact H1]; intros ? Hne; contradiction |].
    eapply extends_trans;
      [apply (extends_same_entries _ table1 (with_free_count (u32 (free_count table1 + 1))
                                              table1)); [reflexivity | cbn; lia] |].
    eapply extends_trans;
      [eapply extends_update_other; [| exact H2]; intros ? Hne; contradiction |].
    eapply extends_trans;
      [eapply extends_update_meta; [| exact H3]; apply same_meta_set_next |].
    apply extends_same_entries; [reflexivity | cbn; lia].
  - exists e3. split; [| repeat split; congruence].
    transitivity (entry_at table3 (get_index h));
      [apply entry_at_same_entries; reflexivity | exact He3].
Qed.

Lemma hmgrtable_free_handle_extends table t h table' :
  hmgrtable_free_handle table t h = Ok table' ->
  extends (fun i => i <> get_index h) table table'.
Proof.
  intros H. destruct (is_handle_valid table h true t) as [[|] | i] eqn:Hv.
  - eapply hmgrtable_free_handle_inv; eassumption.
  - unfold hmgrtable_free_handle in H. rewrite Hv in H. injection H as <-.
    apply extends_refl.
  - unfold hmgrtable_free_handle in H. rewrite Hv in H. discriminate.
Qed.

Lemma hmgrtable_mark_destroyed_extends table h table' b :
  hmgrtable_mark_destroyed table h = Ok (table', b) ->
  extends (fun i => i <> get_index h) table table'.
Proof.
  unfold hmgrtable_mark_destroyed. intros H.
  apply bind_Ok in H as (v & _ & H).
  destruct v; cbn [negb] in H; [| injection H as <- <-; apply extends_refl].
  apply bind_Ok in H as (table1 & H1 & [= <- <-]).
  eapply extends_update_other; [| exact H1]. intros ? Hne; contradiction.
Qed.

Lemma hmgrtable_unmark_destroyed_extends table h table' b :
  hmgrtable_unmark_destroyed table h = Ok (table', b) ->
  extends (fun i => i <> get_index h) table table'.
Proof.
  unfold hmgrtable_unmark_destroyed. intros H.
  apply bind_Ok in H as (v & _ & H).
  destruct v; cbn [negb] in H; [| injection H as <- <-; apply extends_refl].
  apply bind_Ok in H as (table1 & H1 & [= <- <-]).
  eapply extends_update_other; [| exact H1]. intros ? Hne; contradiction.
Qed.

Lemma run_extends op table table' :
  table_ok 0 table -> run op table = Ok table' ->
  extends (fun i => ~ targets op i) table table'.
Proof.
  intros Hok H. destruct op as [mem o t mv | mem o t h | t h | mem n | h | h];
    cbn [run targets] in *; try apply fmap_fst_Ok in H as [r H].
  - destruct (hmgrtable_alloc_handle_inv _ _ _ _ _ _ _ Hok H)
      as (table1 & _ & _ & Hx1 & Hx2 & _).
    apply (extends_weaken (fun _ => True)); [auto | eapply extends_trans; eassumption].
  - destruct (hmgrtable_assign_handle_inv _ _ _ _ _ _ _ Hok H) as (_ & Hx & _).
    apply (extends_weaken (fun _ => True)); [auto | exact Hx].
  - apply (extends_weaken (fun i => i <> get_index h));
      [| eapply hmgrtable_free_handle_extends; exact H].
    intros i Hi Heq. apply Hi. symmetry. exact Heq.
  - destruct (expand_table_extends _ _ _ _ _ Hok H) as [_ Hx].
    apply (extends_weaken (fun _ => True)); [auto | exact Hx].
  - apply (extends_weaken (fun i => i <> get_index h));
      [| eapply hmgrtable_mark_destroyed_extends; exact H].
    intros i Hi Heq. apply Hi. symmetry. exact Heq.
  - apply (extends_weaken (fun i => i <> get_index h));
      [| eapply hmgrtable_unmark_destroyed_extends; exact H].
    intros i Hi Heq. apply Hi. symmetry. exact Heq.
Qed.

Lemma extends_valid P table table' h ign t :
  extends P table table' -> P (get_index h) ->
  is_handle_valid table h ign t = Ok true ->
  is_handle_valid table' h ign t = Ok true.
Proof.
  intros [Hs Hx] HP (e & Hlt & He & Hu & Hd & Hty & Ht)%is_handle_valid_true.
  destruct (Hx _ _ HP Hty He) as (e' & He' & Hty' & Hu' & _ & Hd').
  apply is_handle_valid_true. exists e'. rewrite Hty', Hu', Hd'.
  split; [lia |]. auto 10.
Qed.

Lemma run_all_extends ops : forall table table' (P : Z -> Prop),
  table_ok 0 table -> run_all ops table = Ok table' ->
  (forall op i, In op ops -> P i -> ~ targets op i) ->
  table_ok 0 table' /\ extends P table table'.
Proof.
  induction ops as [| op ops IH]; intros table table' P Hok H HP; cbn [run_all] in H.
  - injection H as <-. split; [assumption | apply extends_refl].
  - apply bind_Ok in H as (table1 & H1 & H).
    assert (Hok1 : table_ok 0 table1).
    { eapply (run_ok 0 op); [lia | | exact Hok | exact H1].
      destruct op; try exact I. apply get_unique_range. }
    destruct (IH table1 table' P Hok1 H) as [Hok' Hx].
    { intros op' i Hin. apply HP. right. exact Hin. }
    split; [assumption |].
    eapply extends_trans; [| exact Hx].
    apply (extends_weaken (fun i => ~ targets op i));
      [| apply (run_extends op table table1 Hok H1)].
    intros i Hi. apply (HP op i); [left; reflexivity | exact Hi].
Qed.

Lemma is_handle_valid_same_meta table table' h ign t e e' :
  get_index h < table_size table -> get_index h < table_size table' ->
  entry_at table (get_index h) = Ok e -> entry_at table' (get_index h) = Ok e' ->
  same_meta e e' ->
  is_handle_valid table' h ign t = is_handle_valid table h ign t.
Proof.
  intros Hs Hs' He He' (Hty & Hu & _ & Hd). unfold is_handle_valid.
  destruct (Z.leb_spec (table_size table) (get_index h)); [lia |].
  destruct (Z.leb_spec (table_size table') (get_index h)); [lia |].
  rewrite He, He'. cbn [mbind outcome_bind]. rewrite Hty, Hu, Hd. reflexivity.
Qed.

(** X9. Along any run of operations from a reachable table, a handle that is
    valid at the start validates the same way at the end, for every expected
    type and either setting of ignore_destroyed, provided no operation of
    the run frees, marks or unmarks a handle with the same index. *)
Theorem live_handle_stays_valid table ops table' h :
  reachable table ->
  run_all ops table = Ok table' ->
  Forall (fun op => ~ targets op (get_index h)) ops ->
  is_handle_valid table h true HMGRENTRY_TYPE_FREE = Ok true ->
  forall ign t, is_handle_valid table' h ign t = is_handle_valid table h ign t.
Proof.
  intros Hreach Hrun Hops Hv ign t. apply reachable_table_ok in Hreach as Hok.
  destruct (run_all_extends ops table table' (fun i => i = get_index h) Hok Hrun)
    as [Hok' [Hs Hx]].
  { intros op i Hin ->. rewrite Forall_forall in Hops. apply Hops.
    apply list_elem_of_In. exact Hin. }
  apply is_handle_valid_true in Hv as (e & Hlt & He & _ & _ & Hty & _).
  destruct (Hx _ e eq_refl Hty He) as (e' & He' & Hm).
  apply (is_handle_valid_same_meta table table' h ign t e e'); try assumption. lia.
Qed.

Lemma two_alloc_table_run :
  hmgrtable_alloc_handle (Some zeroed) one_alloc_table 4096 device true
    = Ok (two_alloc_table, 0x40000040).
Proof. vm_compute. reflexivity. Qed.

Lemma freed_table_run :
  hmgrtable_free_handle one_alloc_table device 0x40000000 = Ok freed_table.
Proof. vm_compute. reflexivity. Qed.

Lemma one_alloc_table_valid :
  is_handle_valid one_alloc_table 0x40000000 true HMGRENTRY_TYPE_FREE = Ok true.
Proof. vm_compute. reflexivity. Qed.

Lemma live_handle_stays_valid_witness :
  is_handle_valid two_alloc_table 0x40000000 false device
  = is_handle_valid one_alloc_table 0x40000000 false device.
Proof.
  apply (live_handle_stays_valid one_alloc_table
           [Alloc (Some zeroed) 4096 device true] two_alloc_table 0x40000000).
  - apply one_alloc_table_reachable. exact I.
  - cbn [run_all run]. rewrite two_alloc_table_run. reflexivity.
  - constructor; [| constructor]. intros H. exact H.
  - exact one_alloc_table_valid.
Defined.

(** The index of the handle an allocation returns. *)
Lemma alloc_handle_index table1 entry h :
  table_ok 0 table1 ->
  0 <= free_handle_list_head table1 < table_size table1 ->
  h = build_handle (free_handle_list_head table1) (unique entry) 0 ->
  get_index h = free_handle_list_head table1.
Proof.
  intros Hok Hidx ->. rewrite get_index_build_handle_any.
  pose proof (ok_size _ _ Hok) as Hsz. rewrite index_max_value in Hsz.
  apply Z.mod_small. change (2 ^ 24) with 16777216. lia.
Qed.

(** X10. A successful allocation on a reachable table takes a slot that no
    valid handle of the table names, and every handle that was valid
    validates the same way afterwards. *)
Theorem alloc_returns_unused_slot mem table o t mv table' h h0 :
  reachable table ->
  hmgrtable_alloc_handle mem table o t mv = Ok (table', h) ->
  h <> 0 ->
  is_handle_valid table h0 true HMGRENTRY_TYPE_FREE = Ok true ->
  get_index h0 <> get_index h /\
  forall ign t0, is_handle_valid table' h0 ign t0 = is_handle_valid table h0 ign t0.
Proof.
  intros Hreach Halloc Hh Hv0. apply reachable_table_ok in Hreach as Hok.
  destruct (hmgrtable_alloc_handle_inv _ _ _ _ _ _ _ Hok Halloc)
    as (table1 & _ & Hok1 & [Hs1 Hx1] & [Hs2 Hx2] & _ & _ & Hsucc).
  destruct (Hsucc Hh) as (entry & Hidx & Hentry & Hfree & Hbuild & _).
  pose proof (alloc_handle_index table1 entry h Hok1 Hidx Hbuild) as Hgi.
  apply is_handle_valid_true in Hv0 as (e0 & Hlt0 & He0 & _ & _ & Hty0 & _).
  destruct (Hx1 (get_index h0) e0 I Hty0 He0) as (e1 & He1 & Hm1).
  split.
  - intros Heq. rewrite Heq, Hgi in He1.
    assert (e1 = entry) as -> by congruence.
    destruct Hm1 as (Hty & _). congruence.
  - intros ign t0.
    destruct (Hx2 (get_index h0) e1 I) as (e2 & He2 & Hm2);
      [destruct Hm1 as (-> & _); exact Hty0 | exact He1 |].
    apply (is_handle_valid_same_meta table table' h0 ign t0 e0 e2);
      [lia | lia | assumption | assumption | eapply same_meta_trans; eassumption].
Qed.

Lemma alloc_returns_unused_slot_witness :
  get_index 0x40000000 <> get_index 0x40000040.
Proof.
  apply (alloc_returns_unused_slot (Some zeroed) one_alloc_table 4096 device true
           two_alloc_table 0x40000040 0x40000000).
  - apply one_alloc_table_reachable. exact I.
  - exact two_alloc_table_run.
  - discriminate.
  - exact one_alloc_table_valid.
Defined.

(** X11. After the free of a valid handle no handle with that index is
    valid, the lookups of the freed handle return NULL, a second free of it
    changes nothing, and the slot is the tail of the free list. *)
Theorem freed_handle_never_resolves table t h table' :
  is_handle_valid table h true t = Ok true ->
  hmgrtable_free_handle table t h = Ok table' ->
  (forall h2 ign t2, get_index h2 = get_index h ->
     is_handle_valid table' h2 ign t2 = Ok false) /\
  hmgrtable_get_object table' h = Ok NULL /\
  hmgrtable_get_object_ignore_destroyed table' h t = Ok NULL /\
  hmgrtable_free_handle table' t h = Ok table' /\
  free_handle_list_tail table' = get_index h.
Proof.
  intros Hv Hfree.
  pose proof Hv as (e & Hlt & _)%is_handle_valid_true.
  destruct (hmgrtable_free_handle_inv _ _ _ _ Hv Hfree)
    as (_ & Hs & _ & _ & Htl & e' & He' & Hty & _).
  assert (Hinv : forall h2 ign t2, get_index h2 = get_index h ->
            is_handle_valid table' h2 ign t2 = Ok false).
  { intros h2 ign t2 Hi. unfold is_handle_valid. rewrite Hi, Hs.
    destruct (Z.leb_spec (table_size table) (get_index h)); [reflexivity |].
    rewrite He'. cbn [mbind outcome_bind]. rewrite Hty. cbn [type_eqb].
    destruct (negb _); [reflexivity |]. destruct (andb _ _); reflexivity. }
  split; [exact Hinv |].
  split; [apply lookup_invalid, Hinv; reflexivity |].
  split; [apply lookup_invalid, Hinv; reflexivity |].
  split; [| exact Htl].
  unfold hmgrtable_free_handle. rewrite Hinv by reflexivity. reflexivity.
Qed.

Lemma freed_handle_never_resolves_witness :
  hmgrtable_get_object freed_table 0x40000000 = Ok NULL /\
  hmgrtable_free_handle freed_table device 0x40000000 = Ok freed_table.
Proof.
  destruct (freed_handle_never_resolves one_alloc_table device 0x40000000 freed_table)
    as (_ & H1 & _ & H2 & _).
  - vm_compute. reflexivity.
  - exact freed_table_run.
  - split; assumption.
Defined.

(** X12. After a successful assign of an object type at handle h on a
    reachable table, the lookups of h return the object and the type, the
    handle of the slot is h with instance 0, and a second assign at h
    returns STATUS_INVALID_PARAMETER and changes nothing. *)
Theorem assign_then_lookup mem table o t h table' mem2 o2 t2 :
  reachable table ->
  t <> HMGRENTRY_TYPE_FREE ->
  hmgrtable_assign_handle mem table o t h = Ok (table', STATUS_SUCCESS) ->
  hmgrtable_get_object_by_type table' t h = Ok o /\
  hmgrtable_get_object table' h = Ok o /\
  hmgrtable_get_object_type table' h = Ok t /\
  hmgrtable_build_entry_handle table' (get_index h)
    = Ok (build_handle (get_index h) (get_unique h) 0) /\
  hmgrtable_assign_handle mem2 table' o2 t2 h = Ok (table', STATUS_INVALID_PARAMETER).
Proof.
  intros Hreach Ht Hassign. apply reachable_table_ok in Hreach as Hok.
  destruct (hmgrtable_assign_handle_inv _ _ _ _ _ _ _ Hok Hassign) as (Hok' & _ & _ & Hsucc).
  destruct (Hsucc eq_refl) as (table1 & entry & _ & _ & _ & _ & _ & He').
  pose proof (entry_at_bounds _ _ _ (ok_array _ _ Hok') He') as Hidx.
  assert (Hv : forall t', t' = HMGRENTRY_TYPE_FREE \/ t' = t ->
            is_handle_valid table' h false t' = Ok true).
  { intros t' Ht'. apply is_handle_valid_true. eexists.
    split; [lia |]. split; [exact He' |]. cbn. auto. }
  split; [apply (lookup_valid _ _ _ _ _ (Hv t (or_intror eq_refl)) He') |].
  split; [apply (lookup_valid _ _ _ _ _ (Hv _ (or_introl eq_refl)) He') |].
  split.
  { unfold hmgrtable_get_object_type, hmgrtable_get_entry_type.
    rewrite (Hv _ (or_introl eq_refl)). cbn [mbind outcome_bind negb].
    rewrite He'. reflexivity. }
  split.
  { unfold hmgrtable_build_entry_handle. rewrite He'. reflexivity. }
  unfold hmgrtable_assign_handle.
  destruct (HMGRHANDLE_INDEX_MAX <=? get_index h); [reflexivity |].
  destruct (Z.leb_spec (table_size table') (get_index h)); [lia |].
  cbn [mbind outcome_bind negb]. rewrite He'. cbn [mbind outcome_bind type].
  apply type_eqb_neq in Ht. rewrite Ht. reflexivity.
Qed.

Lemma sparse_table_run :
  hmgrtable_assign_handle (Some zeroed) hmgrtable_init 4096 device (build_handle 1 1 0)
    = Ok (sparse_table, STATUS_SUCCESS).
Proof. vm_compute. reflexivity. Qed.

Lemma assign_then_lookup_witness :
  hmgrtable_get_object_by_type sparse_table device (build_handle 1 1 0) = Ok 4096.
Proof.
  apply (assign_then_lookup (Some zeroed) hmgrtable_init 4096 device (build_handle 1 1 0)
           sparse_table None 0 device).
  - apply reachable_init.
  - discriminate.
  - exact sparse_table_run.
Defined.

(** ** A successful allocation, seen through its handle *)

(** What a handle other than 0 says of the table [hmgrtable_alloc_handle]
    returns with it. *)
Lemma hmgrtable_alloc_handle_slot mem table o t mv table' h :
  table_ok 0 table ->
  hmgrtable_alloc_handle mem table o t mv = Ok (table', h) ->
  h <> 0 ->
  exists u,
    h = build_handle (get_index h) u 0 /\
    get_unique h = u /\
    0 <= get_index h < table_size table' /\
    entry_at table' (get_index h) = Ok (mk_hmgrentry o t u 0 (negb mv)) /\
    (HMGRTABLE_MIN_FREE_ENTRIES < free_count table ->
     get_index h = free_handle_list_head table /\
     table_size table' = table_size table /\
     free_count table' = u32 (free_count table - 1)).
Proof.
  intros Hok Halloc Hh.
  destruct (hmgrtable_alloc_handle_inv _ _ _ _ _ _ _ Hok Halloc)
    as (table1 & Hcase & Hok1 & _ & _ & Hs & _ & Hsucc).
  destruct (Hsucc Hh) as (entry & Hidx & Hentry & Hfree & Hbuild & _ & Hc & He').
  pose proof (alloc_handle_index table1 entry h Hok1 Hidx Hbuild) as Hgi.
  exists (unique entry). rewrite Hgi.
  split; [exact Hbuild |]. split; [| split; [lia | split; [exact He' |]]].
  - rewrite Hbuild, get_unique_build_handle_any. apply Z.mod_small.
    apply entry_at_Ok in Hentry as (arr & Harr & _ & Hl).
    pose proof (ok_entries _ _ Hok1) as Hall. unfold entries_all in Hall.
    rewrite Harr in Hall. pose proof (Forall_lookup_1 _ _ _ _ Hall Hl) as Hg.
    unfold generation_in in Hg. change HMGRHANDLE_UNIQUE_MAX with 3 in Hg.
    change (2 ^ 2) with 4. lia.
  - intros Hfc. destruct Hcase as [[Hle _] | [_ ->]]; [lia |]. auto.
Qed.

(** X13. The nonzero handle an allocation returns has instance 0 and is the
    handle hmgrtable_build_entry_handle makes for its slot; the slot holds
    the object and the type given; when more than the low-water mark of
    slots was free, the slot is the former head of the free list. *)
Theorem alloc_handle_names_its_slot mem table o t mv table' h :
  reachable table ->
  t <> HMGRENTRY_TYPE_FREE ->
  hmgrtable_alloc_handle mem table o t mv = Ok (table', h) ->
  h <> 0 ->
  hmgrtable_build_entry_handle table' (get_index h) = Ok h /\
  get_instance h = 0 /\
  hmgrtable_get_entry_object table' (get_index h) = Ok o /\
  hmgrtable_get_entry_type table' (get_index h) = Ok t /\
  hmgrtable_get_object_ignore_destroyed table' h t = Ok o /\
  (HMGRTABLE_MIN_FREE_ENTRIES < free_count table ->
   get_index h = free_handle_list_head table).
Proof.
  intros Hreach Ht Halloc Hh. apply reachable_table_ok in Hreach as Hok.
  destruct (hmgrtable_alloc_handle_slot _ _ _ _ _ _ _ Hok Halloc Hh)
    as (u & Hbuild & Hgu & Hidx & He' & Hfifo).
  split; [unfold hmgrtable_build_entry_handle; rewrite He'; cbn; congruence |].
  split; [rewrite Hbuild, get_instance_build_handle_any; reflexivity |].
  split; [unfold hmgrtable_get_entry_object; rewrite He'; reflexivity |].
  split; [unfold hmgrtable_get_entry_type; rewrite He'; reflexivity |].
  split; [| intros Hfc; apply Hfifo, Hfc].
  assert (Hv : is_handle_valid table' h true t = Ok true).
  { apply is_handle_valid_true. eexists. split; [lia |]. split; [exact He' |].
    cbn. auto. }
  apply (lookup_valid _ _ _ _ _ Hv He').
Qed.

Lemma alloc_handle_names_its_slot_witness :
  hmgrtable_build_entry_handle two_alloc_table (get_index 0x40000040) = Ok 0x40000040 /\
  get_index 0x40000040 = free_handle_list_head one_alloc_table.
Proof.
  destruct (alloc_handle_names_its_slot (Some zeroed) one_alloc_table 4096 device true
              two_alloc_table 0x40000040) as (H1 & _ & _ & _ & _ & H2).
  - apply one_alloc_table_reachable. exact I.
  - discriminate.
  - exact two_alloc_table_run.
  - discriminate.
  - split; [exact H1 |]. apply H2. vm_compute. reflexivity.
Defined.

(** X14. A handle allocated with make_valid false is hidden from
    hmgrtable_get_object; hmgrtable_unmark_destroyed then succeeds, and
    after it the lookups return the object. *)
Theorem alloc_destroyed_then_unmark mem table o t table' h :
  reachable table ->
  t <> HMGRENTRY_TYPE_FREE ->
  hmgrtable_alloc_handle mem table o t false = Ok (table', h) ->
  h <> 0 ->
  hmgrtable_get_object table' h = Ok NULL /\
  exists table'',
    hmgrtable_unmark_destroyed table' h = Ok (table'', true) /\
    hmgrtable_get_object_by_type table'' t h = Ok o /\
    hmgrtable_get_object table'' h = Ok o.
Proof.
  intros Hreach Ht Halloc Hh. apply reachable_table_ok in Hreach as Hok.
  destruct (hmgrtable_alloc_handle_slot _ _ _ _ _ _ _ Hok Halloc Hh)
    as (u & Hbuild & Hgu & Hidx & He' & _).
  cbn [negb] in He'.
  split.
  { apply lookup_invalid. unfold is_handle_valid.
    destruct (Z.leb_spec (table_size table') (get_index h)); [reflexivity |].
    rewrite He'. cbn [mbind outcome_bind unique destroyed andb negb].
    destruct (negb _); reflexivity. }
  pose proof He' as (arr & Harr & _ & Hl)%entry_at_Ok.
  eexists. split.
  - apply (hmgrtable_unmark_destroyed_valid table' h arr (mk_hmgrentry o t u 0 true));
      [| exact Harr | exact Hl].
    apply is_handle_valid_true. eexists. split; [lia |]. split; [exact He' |].
    cbn. auto 10.
  - assert (He'' : entry_at
              (with_entry_table
                 (Some (<[Z.to_nat (get_index h) :=
                            set_destroyed false (mk_hmgrentry o t u 0 true)]> arr)) table')
              (get_index h) = Ok (mk_hmgrentry o t u 0 false)).
    { apply entry_at_Ok. eexists. split; [reflexivity |]. split; [lia |].
      apply list_lookup_insert_eq. eapply lookup_lt_Some; eassumption. }
    assert (Hv : forall t', t' = HMGRENTRY_TYPE_FREE \/ t' = t ->
              is_handle_valid
                (with_entry_table
                   (Some (<[Z.to_nat (get_index h) :=
                              set_destroyed false (mk_hmgrentry o t u 0 true)]> arr)) table')
                h false t' = Ok true).
    { intros t' Ht'. apply is_handle_valid_true. eexists.
      split; [cbn; lia |]. split; [exact He'' |]. cbn. auto. }
    split.
    + apply (lookup_valid _ _ _ _ _ (Hv t (or_intror eq_refl)) He'').
    + apply (lookup_valid _ _ _ _ _ (Hv _ (or_introl eq_refl)) He'').
Qed.

Lemma one_destroyed_table_run :
  hmgrtable_alloc_handle (Some zeroed) hmgrtable_init 4096 device false
    = Ok (one_destroyed_table, 0x40000000).
Proof. vm_compute. reflexivity. Qed.

Lemma alloc_destroyed_then_unmark_witness :
  hmgrtable_get_object one_destroyed_table 0x40000000 = Ok NULL /\
  exists table'',
    hmgrtable_unmark_destroyed one_destroyed_table 0x40000000 = Ok (table'', true) /\
    hmgrtable_get_object_by_type table'' device 0x40000000 = Ok 4096 /\
    hmgrtable_get_object table'' 0x40000000 = Ok 4096.
Proof.
  apply (alloc_destroyed_then_unmark (Some zeroed) hmgrtable_init 4096 device
           one_destroyed_table 0x40000000).
  - apply reachable_init.
  - discriminate.
  - exact one_destroyed_table_run.
  - discriminate.
Defined.

(** X15. An allocation that needs no growth takes 1 from free_count, and
    freeing its handle restores free_count, table_size and the used entry
    count; the slot is left with generation 2 and the handle no longer
    resolves. *)
Theorem alloc_then_free_restores_counts mem table o t mv table' h table'' :
  reachable table ->
  t <> HMGRENTRY_TYPE_FREE ->
  HMGRTABLE_MIN_FREE_ENTRIES < free_count table ->
  hmgrtable_alloc_handle mem table o t mv = Ok (table', h) ->
  h <> 0 ->
  hmgrtable_free_handle table' t h = Ok table'' ->
  free_count table' = free_count table - 1 /\
  free_count table'' = free_count table /\
  table_size table'' = table_size table /\
  hmgrtable_get_used_entry_count table'' = hmgrtable_get_used_entry_count table /\
  generation_at table'' (get_index h) = Ok 2 /\
  hmgrtable_get_object table'' h = Ok NULL.
Proof.
  intros Hreach Ht Hfc Halloc Hh Hfree. apply reachable_table_ok in Hreach as Hok.
  destruct (hmgrtable_alloc_handle_slot _ _ _ _ _ _ _ Hok Halloc Hh)
    as (u & Hbuild & Hgu & Hidx & He' & Hfifo).
  destruct (Hfifo Hfc) as (_ & Hs' & Hc').
  assert (Hv : is_handle_valid table' h true t = Ok true).
  { apply is_handle_valid_true. eexists. split; [lia |]. split; [exact He' |].
    cbn. auto 10. }
  destruct (hmgrtable_free_handle_inv _ _ _ _ Hv Hfree)
    as (_ & Hs'' & Hc'' & _ & _ & e'' & He'' & Hty'' & Hu'' & _).
  pose proof (ok_free_count _ _ Hok) as Hrange. unfold is_u32 in Hrange.
  rewrite min_free_value in Hfc.
  assert (Hc1 : free_count table' = free_count table - 1)
    by (rewrite Hc'; apply u32_small; lia).
  assert (Hc2 : free_count table'' = free_count table)
    by (rewrite Hc'', Hc1; replace (free_count table - 1 + 1) with (free_count table) by lia;
        apply u32_small; lia).
  split; [exact Hc1 |]. split; [exact Hc2 |]. split; [congruence |].
  split; [unfold hmgrtable_get_used_entry_count; congruence |].
  split; [unfold generation_at; rewrite He''; cbn; congruence |].
  apply lookup_invalid. unfold is_handle_valid.
  destruct (table_size table'' <=? get_index h); [reflexivity |].
  rewrite He''. cbn [mbind outcome_bind]. rewrite Hty''. cbn [type_eqb].
  destruct (negb (get_unique h =? unique e'')); [reflexivity |].
  destruct (andb _ _); reflexivity.
Qed.

Lemma alloc_then_free_restores_counts_witness :
  exists table'',
    hmgrtable_free_handle two_alloc_table device 0x40000040 = Ok table'' /\
    free_count table'' = free_count one_alloc_table.
Proof.
  destruct (hmgrtable_free_handle two_alloc_table device 0x40000040) as [table'' | i] eqn:Hf.
  - exists table''. split; [reflexivity |].
    apply (alloc_then_free_restores_counts (Some zeroed) one_alloc_table 4096 device true
             two_alloc_table 0x40000040 table'').
    + apply one_alloc_table_reachable. exact I.
    + discriminate.
    + vm_compute. reflexivity.
    + exact two_alloc_table_run.
    + discriminate.
    + exact Hf.
  - exfalso. revert Hf. vm_compute. discriminate.
Defined.

(** ** The size of the table *)

Lemma run_all_table_ok ops : forall table table',
  table_ok 0 table -> run_all ops table = Ok table' ->
  table_ok 0 table' /\ table_size table <= table_size table'.
Proof.
  intros table table' Hok H.
  destruct (run_all_extends ops table table' (fun _ => False) Hok H) as [Hok' [Hs _]];
    [intros _ i _ [] | auto].
Qed.

(** X16. Along any run of operations from a reachable table, table_size does
    not shrink, stays within the index field, and is the length of the entry
    array. *)
Theorem table_size_only_grows table ops table' :
  reachable table ->
  run_all ops table = Ok table' ->
  table_size table <= table_size table' <= HMGRHANDLE_INDEX_MAX /\
  array_ok table'.
Proof.
  intros Hreach H. apply reachable_table_ok in Hreach as Hok.
  destruct (run_all_table_ok ops table table' Hok H) as [Hok' Hs].
  pose proof (ok_size _ _ Hok'). split; [lia | apply Hok'].
Qed.

Lemma table_size_only_grows_witness :
  table_size hmgrtable_init <= table_size full_table <= HMGRHANDLE_INDEX_MAX /\
  array_ok full_table.
Proof.
  apply (table_size_only_grows hmgrtable_init (assign_first 1024) full_table).
  - apply reachable_init.
  - exact full_table_run.
Defined.

(** ** Iteration *)

Lemma next_entry_loop_spec n : forall tbl i,
  array_ok tbl -> 0 <= i -> i + Z.of_nat n = table_size tbl -> table_size tbl < 2 ^ 32 ->
  match next_entry_loop n tbl i with
  | Ok (Some r) =>
      exists j e,
        i <= j < table_size tbl /\ entry_at tbl j = Ok e /\
        type e <> HMGRENTRY_TYPE_FREE /\
        r = mk_next_entry_result (j + 1) (type e)
              (build_handle j (unique e) (instance e)) (object e) /\
        forall k ek, i <= k < j -> entry_at tbl k = Ok ek -> type ek = HMGRENTRY_TYPE_FREE
  | Ok None =>
      forall k ek, i <= k -> entry_at tbl k = Ok ek -> type ek = HMGRENTRY_TYPE_FREE
  | OutOfBounds _ => False
  end.
Proof.
  induction n as [| n IH]; intros tbl i Ha Hi Hn Hsz; cbn [next_entry_loop].
  - intros k ek Hk Hek. pose proof (entry_at_bounds _ _ _ Ha Hek). lia.
  - destruct (entry_at_in_bounds tbl i Ha) as [e He]; [lia |].
    rewrite He. cbn [mbind outcome_bind].
    rewrite u32_small by lia.
    destruct (type_eqb (type e) HMGRENTRY_TYPE_FREE) eqn:Hty; cbn [negb].
    + apply type_eqb_eq in Hty.
      specialize (IH tbl (i + 1) Ha ltac:(lia) ltac:(lia) Hsz).
      destruct (next_entry_loop n tbl (i + 1)) as [[r |] | ?]; [| | exact IH].
      * destruct IH as (j & ej & Hj & Hej & Htyj & -> & Hskip).
        exists j, ej. split; [lia |]. do 3 (split; [assumption || reflexivity |]).
        intros k ek Hk Hek. destruct (decide (k = i)) as [-> | Hne].
        -- congruence.
        -- apply (Hskip k ek); [lia | assumption].
      * intros k ek Hk Hek. destruct (decide (k = i)) as [-> | Hne].
        -- congruence.
        -- apply (IH k ek); [lia | assumption].
    + apply type_eqb_neq in Hty. exists i, e.
      split; [lia |]. do 3 (split; [assumption || reflexivity |]).
      intros k ek Hk. lia.
Qed.

(** X17. On a reachable table hmgrtable_next_entry never reads outside the
    array; it returns true with the first occupied slot at or after the
    start index (resume index, type, handle and object of that slot), and
    false exactly when every slot from the start index on is free. *)
Theorem next_entry_finds_first_occupied tbl index :
  reachable tbl -> 0 <= index ->
  match hmgrtable_next_entry tbl index with
  | Ok (Some r) =>
      exists j e,
        index <= j < table_size tbl /\ entry_at tbl j = Ok e /\
        type e <> HMGRENTRY_TYPE_FREE /\
        r = mk_next_entry_result (j + 1) (type e)
              (build_handle j (unique e) (instance e)) (object e) /\
        forall k ek, index <= k < j -> entry_at tbl k = Ok ek ->
          type ek = HMGRENTRY_TYPE_FREE
  | Ok None =>
      forall k ek, index <= k -> entry_at tbl k = Ok ek -> type ek = HMGRENTRY_TYPE_FREE
  | OutOfBounds _ => False
  end.
Proof.
  intros Hreach Hi. apply reachable_table_ok in Hreach as Hok.
  pose proof (ok_array _ _ Hok) as Ha.
  pose proof (ok_size _ _ Hok) as Hsz. rewrite index_max_value in Hsz.
  unfold hmgrtable_next_entry.
  destruct (Z.le_gt_cases index (table_size tbl)) as [Hle | Hgt].
  - apply next_entry_loop_spec; try assumption; lia.
  - replace (Z.to_nat (table_size tbl - index)) with O by lia. cbn [next_entry_loop].
    intros k ek Hk Hek. pose proof (entry_at_bounds _ _ _ Ha Hek). lia.
Qed.

Lemma next_entry_finds_first_occupied_witness :
  match hmgrtable_next_entry sparse_table 0 with
  | Ok (Some r) =>
      exists j e,
        0 <= j < table_size sparse_table /\ entry_at sparse_table j = Ok e /\
        type e <> HMGRENTRY_TYPE_FREE /\
        r = mk_next_entry_result (j + 1) (type e)
              (build_handle j (unique e) (instance e)) (object e) /\
        forall k ek, 0 <= k < j -> entry_at sparse_table k = Ok ek ->
          type ek = HMGRENTRY_TYPE_FREE
  | Ok None =>
      forall k ek, 0 <= k -> entry_at sparse_table k = Ok ek ->
        type ek = HMGRENTRY_TYPE_FREE
  | OutOfBounds _ => False
  end.
Proof.
  apply (next_entry_finds_first_occupied sparse_table 0); [| lia].
  apply (reachable_run _ (Assign (Some zeroed) 4096 device (build_handle 1 1 0))
           hmgrtable_init).
  - apply reachable_init.
  - exact I.
  - cbn [run]. rewrite sparse_table_run. reflexivity.
Defined.

(** X18. The handle hmgrtable_next_entry yields names the slot just before
    the resume index and resolves, with the destroyed flag ignored, to the
    object and the type yielded, which are also what
    hmgrtable_get_entry_object and hmgrtable_get_entry_type return for that
    slot. *)
Theorem next_entry_handle_resolves tbl index r :
  reachable tbl -> 0 <= index ->
  hmgrtable_next_entry tbl index = Ok (Some r) ->
  index < next_index r <= table_size tbl /\
  get_index (next_handle r) = next_index r - 1 /\
  next_type r <> HMGRENTRY_TYPE_FREE /\
  hmgrtable_get_object_ignore_destroyed tbl (next_handle r) (next_type r)
    = Ok (next_object r) /\
  hmgrtable_get_entry_object tbl (next_index r - 1) = Ok (next_object r) /\
  hmgrtable_get_entry_type tbl (next_index r - 1) = Ok (next_type r).
Proof.
  intros Hreach Hi Hnext. apply reachable_table_ok in Hreach as Hok.
  pose proof (ok_array _ _ Hok) as Ha.
  pose proof (ok_size _ _ Hok) as Hsz. rewrite index_max_value in Hsz.
  unfold hmgrtable_next_entry in Hnext.
  assert (Hle : index <= table_size tbl).
  { destruct (Z.le_gt_cases index (table_size tbl)) as [Hle | Hgt]; [assumption |].
    replace (Z.to_nat (table_size tbl - index)) with O in Hnext by lia. discriminate. }
  pose proof (next_entry_loop_spec (Z.to_nat (table_size tbl - index)) tbl index Ha Hi
                ltac:(lia) ltac:(lia)) as Hspec.
  rewrite Hnext in Hspec. destruct Hspec as (j & e & Hj & He & Hty & -> & _).
  cbn [next_index next_handle next_type next_object].
  replace (j + 1 - 1) with j by lia.
  assert (Hgi : get_index (build_handle j (unique e) (instance e)) = j).
  { rewrite get_index_build_handle_any. apply Z.mod_small.
    change (2 ^ 24) with 16777216. lia. }
  assert (Hgu : get_unique (build_handle j (unique e) (instance e)) = unique e).
  { rewrite get_unique_build_handle_any. apply Z.mod_small.
    pose proof He as (arr & Harr & _ & Hl)%entry_at_Ok.
    pose proof (ok_entries _ _ Hok) as Hall. unfold entries_all in Hall.
    rewrite Harr in Hall. pose proof (Forall_lookup_1 _ _ _ _ Hall Hl) as Hg.
    unfold generation_in in Hg. change HMGRHANDLE_UNIQUE_MAX with 3 in Hg.
    change (2 ^ 2) with 4. lia. }
  split; [lia |]. split; [exact Hgi |]. split; [exact Hty |].
  split; [| split].
  - assert (Hv : is_handle_valid tbl (build_handle j (unique e) (instance e)) true (type e)
                 = Ok true).
    { apply is_handle_valid_true. exists e. rewrite Hgi, Hgu.
      split; [lia |]. auto 10. }
    rewrite <- Hgi in He at 1. apply (lookup_valid _ _ _ _ _ Hv He).
  - unfold hmgrtable_get_entry_object. rewrite He. reflexivity.
  - unfold hmgrtable_get_entry_type. rewrite He. reflexivity.
Qed.

Lemma next_entry_handle_resolves_witness :
  hmgrtable_get_object_ignore_destroyed two_alloc_table 0x40000040 device = Ok 4096.
Proof.
  apply (next_entry_handle_resolves two_alloc_table 1
           (mk_next_entry_result 2 device 0x40000040 4096)).
  - apply (reachable_run _ (Alloc (Some zeroed) 4096 device true) one_alloc_table).
    + apply one_alloc_table_reachable. exact I.
    + exact I.
    + cbn [run]. rewrite two_alloc_table_run. reflexivity.
  - lia.
  - vm_compute. reflexivity.
Defined.

(** ** The entries a growth appends *)

(** The two links share the word of the union without disturbing each
    other. *)
Lemma next_set_next v e : next_free_index (set_next_free_index v e) = u32 v.
Proof.
  unfold next_free_index, set_next_free_index, prev_free_index, u32. cbn [payload].
  pose proof (Z.mod_pos_bound (payload e) (2 ^ 32) eq_refl).
  pose proof (Z.mod_pos_bound v (2 ^ 32) eq_refl).
  rewrite Z.div_add_l by discriminate. rewrite (Z.div_small (payload e mod 2 ^ 32)) by lia.
  rewrite Z.add_0_r. apply Z.mod_small. lia.
Qed.

Lemma prev_set_next v e : prev_free_index (set_next_free_index v e) = prev_free_index e.
Proof.
  unfold next_free_index, set_next_free_index, prev_free_index, u32. cbn [payload].
  rewrite Z.add_comm, Z.mod_add by discriminate. apply Z.mod_mod. discriminate.
Qed.

Lemma prev_set_prev v e : prev_free_index (set_prev_free_index v e) = u32 v.
Proof.
  unfold next_free_index, set_prev_free_index, prev_free_index, u32. cbn [payload].
  rewrite Z.add_comm, Z.mod_add by discriminate. apply Z.mod_mod. discriminate.
Qed.

Lemma next_set_prev v e : next_free_index (set_prev_free_index v e) = next_free_index e.
Proof.
  unfold next_free_index, set_prev_free_index, prev_free_index, u32. cbn [payload].
  pose proof (Z.mod_pos_bound v (2 ^ 32) eq_refl).
  rewrite Z.div_add_l by discriminate. rewrite (Z.div_small (v mod 2 ^ 32)) by lia.
  rewrite Z.add_0_r. apply Z.mod_mod. discriminate.
Qed.

Lemma expand_loop_links n : forall table_index prev table arr arr' table_index',
  entry_table table = Some arr ->
  0 <= table_index -> is_u32 prev ->
  table_index + Z.of_nat n <= Z.of_nat (length arr) ->
  table_index + Z.of_nat n < 2 ^ 32 ->
  expand_loop n table_index prev table
    = Ok (with_entry_table (Some arr') table, table_index') ->
  forall j e, table_index <= j < table_index + Z.of_nat n ->
    arr' !! Z.to_nat j = Some e ->
    appended e (if j =? table_index then prev else j - 1) (j + 1).
Proof.
  induction n as [| n IH]; intros idx prev table arr arr' idx' Harr Hidx Hprev Hlen Hwrap Hrun
    j e Hj Hl; [lia |].
  cbn [expand_loop] in Hrun.
  apply bind_Ok in Hrun as (table1 & H1 & Hrun).
  pose proof H1 as (arr0 & e0 & Harr0 & _ & Hl0 & ->)%update_entry_Ok.
  assert (arr0 = arr) as -> by congruence.
  rewrite u32_small in Hrun by lia.
  cbv beta in Hrun.
  match type of Hrun with
  | expand_loop _ _ _ (with_entry_table (Some ?a) _) = _ => set (arr1 := a) in *
  end.
  assert (Hlen1 : length arr1 = length arr) by (subst arr1; apply length_insert).
  destruct (expand_loop_spec n (idx + 1) idx (with_entry_table (Some arr1) table) arr1)
    as (arr2 & Hrun2 & _ & Hlow & _); [reflexivity | lia | lia | lia |].
  assert (arr2 = arr') as ->.
  { rewrite Hrun2 in Hrun. injection Hrun as Heq _. exact Heq. }
  destruct (Z.eqb_spec j idx) as [-> | Hne].
  - rewrite Hlow in Hl by lia. subst arr1.
    rewrite list_lookup_insert_eq in Hl by lia. injection Hl as <-.
    unfold appended. cbn [type unique instance set_instance set_unique set_type].
    split; [reflexivity |]. split; [reflexivity |]. split; [reflexivity |].
    change (prev_free_index (set_instance 0 (set_unique 1 (set_type HMGRENTRY_TYPE_FREE ?x))))
      with (prev_free_index x).
    change (next_free_index (set_instance 0 (set_unique 1 (set_type HMGRENTRY_TYPE_FREE ?x))))
      with (next_free_index x).
    rewrite prev_set_next, prev_set_prev, next_set_next.
    split; apply u32_small; [exact Hprev | lia].
  - pose proof (IH (idx + 1) idx (with_entry_table (Some arr1) table) arr1 arr' idx'
                  eq_refl ltac:(lia) ltac:(unfold is_u32; lia) ltac:(lia) ltac:(lia)
                  Hrun j e ltac:(lia) Hl) as Hx.
    destruct (Z.eqb_spec j (idx + 1)) as [-> | Hne2].
    + replace (idx + 1 - 1) with idx by lia. exact Hx.
    + exact Hx.
Qed.

Lemma appended_set_next_last e prev next :
  appended e prev next ->
  appended (set_next_free_index HMGRTABLE_INVALID_INDEX e) prev HMGRTABLE_INVALID_INDEX.
Proof.
  intros (Ht & Hu & Hi & Hp & _). unfold appended.
  rewrite prev_set_next, next_set_next.
  split; [exact Ht |]. split; [exact Hu |]. split; [exact Hi |]. split; [exact Hp |].
  reflexivity.
Qed.

Lemma expand_table_chain mem table n table' :
  table_ok 0 table ->
  expand_table mem table n = Ok (table', true) ->
  (forall j, table_size table <= j < table_size table' ->
     exists e, entry_at table' j = Ok e /\
       appended e
         (if j =? table_size table then free_handle_list_tail table else j - 1)
         (if j =? table_size table' - 1 then HMGRTABLE_INVALID_INDEX else j + 1)) /\
  (free_count table <> 0 ->
     exists e, entry_at table' (free_handle_list_tail table) = Ok e /\
       next_free_index e = table_size table).
Proof.
  intros Hok H.
  pose proof (expand_table_spec 0 mem table n ltac:(lia) Hok) as Hspec.
  rewrite H in Hspec. destruct Hspec as (_ & _ & Hfit & Hsize & _).
  pose proof (expand_target_bounds table n (ok_size _ _ Hok)) as Hgrow.
  pose proof (ok_size _ _ Hok) as Hsz. pose proof (ok_tail _ _ Hok) as Htl.
  rewrite index_max_value in *. rewrite Hsize. clear Hsize.
  unfold expand_table in H.
  apply bind_Ok in H as ([|] & Hcheck & H); cbn [negb] in H; [| discriminate].
  assert (Htail : free_count table <> 0 -> 0 <= free_handle_list_tail table < table_size table).
  { intros Hc. apply Z.eqb_neq in Hc. rewrite Hc in Hcheck.
    apply bind_Ok in Hcheck as (e & He & _).
    exact (entry_at_bounds _ _ _ (ok_array _ _ Hok) He). }
  clear Hcheck.
  fold (expand_target table n) in H.
  destruct (_ <? _); [discriminate |].
  destruct mem as [fresh |]; [| discriminate].
  apply bind_Ok in H as (copied & Hcopy & H).
  assert (Hcopied : exists arr0, entry_table copied = Some arr0 /\
            Z.of_nat (length arr0) = expand_target table n /\
            table_size copied = table_size table /\
            free_count copied = free_count table /\
            free_handle_list_tail copied = free_handle_list_tail table).
  { pose proof (ok_array _ _ Hok) as Ha. unfold array_ok in Ha.
    destruct (entry_table table) as [old |] eqn:Hold.
    - replace (orb _ _) with false in Hcopy by (symmetry; apply orb_false_iff; lia).
      injection Hcopy as <-. eexists. split; [reflexivity |].
      split; [| auto].
      rewrite firstn_all2 by lia.
      rewrite length_app, length_map, length_seqZ. lia.
    - injection Hcopy as <-. eexists. split; [reflexivity |].
      split; [| auto].
      rewrite length_map, length_seqZ. lia. }
  destruct Hcopied as (arr0 & Harr0 & Hlen0 & Hs0 & Hc0 & Ht0).
  rewrite Hs0, Hc0, Ht0 in H.
  replace copied with (with_entry_table (Some arr0) copied) in H
    by (apply with_entry_table_id; assumption).
  set (k := Z.to_nat (expand_target table n - table_size table)) in *.
  assert (Hk : Z.of_nat k = expand_target table n - table_size table) by (subst k; lia).
  destruct (expand_loop_spec k (table_size table) (free_handle_list_tail table)
              (with_entry_table (Some arr0) copied) arr0)
    as (arr1 & Hloop & Hlen1 & Hlow1 & _); [reflexivity | lia | lia | lia |].
  pose proof (expand_loop_links k (table_size table) (free_handle_list_tail table)
                (with_entry_table (Some arr0) copied) arr0 arr1 _
                eq_refl ltac:(lia) Htl ltac:(lia) ltac:(lia) Hloop) as Hlinks.
  rewrite Hloop in H. cbn [mbind outcome_bind] in H.
  rewrite Hk in H. replace (table_size table + (expand_target table n - table_size table) - 1)
    with (expand_target table n - 1) in H by lia.
  rewrite (u32_small (expand_target table n - 1)) in H by lia.
  apply bind_Ok in H as (table2 & H2 & H).
  apply bind_Ok in H as (table3 & H3 & H).
  injection H as <-.
  pose proof (update_entry_fields _ _ _ _ H2) as (_ & Ht2 & Hs2 & Hc2).
  cbn [with_entry_table free_handle_list_tail free_count table_size] in Ht2, Hs2, Hc2.
  rewrite Ht2, Hs2, Hc2, Ht0, Hs0, Hc0 in H3.
  split.
  - intros j Hj.
    match goal with
    | |- context [entry_at ?T ?i] =>
        replace (entry_at T i) with (entry_at table3 i)
          by (symmetry; apply entry_at_same_entries;
              destruct (free_handle_list_head _ =? HMGRTABLE_INVALID_INDEX); reflexivity)
    end.
    destruct (lookup_lt_is_Some_2 arr1 (Z.to_nat j)) as [e1 He1]; [lia |].
    pose proof (Hlinks j e1 ltac:(lia) He1) as Happ.
    assert (Hat1 : entry_at (with_entry_table (Some arr1) (with_entry_table (Some arr0) copied)) j
                   = Ok e1).
    { apply entry_at_Ok. exists arr1. split; [reflexivity |]. split; [lia | assumption]. }
    assert (Hat2 : exists e2, entry_at table2 j = Ok e2 /\
              appended e2
                (if j =? table_size table then free_handle_list_tail table else j - 1)
                (if j =? expand_target table n - 1 then HMGRTABLE_INVALID_INDEX else j + 1)).
    { destruct (Z.eqb_spec j (expand_target table n - 1)) as [Heq | Hne].
      - exists (set_next_free_index HMGRTABLE_INVALID_INDEX e1). split.
        + rewrite Heq in *. eapply entry_at_update_same; eassumption.
        + eapply appended_set_next_last. eassumption.
      - exists e1. split; [| assumption].
        rewrite (entry_at_update_other _ _ _ _ _ H2); [assumption | lia | lia]. }
    destruct Hat2 as (e2 & Hat2 & Happ2). exists e2. split; [| assumption].
    destruct (negb (free_count table =? 0)) eqn:Hnz.
    + apply negb_true_iff, Z.eqb_neq in Hnz. specialize (Htail Hnz).
      rewrite (entry_at_update_other _ _ _ _ _ H3); [assumption | lia | lia].
    + injection H3 as <-. assumption.
  - intros Hc. specialize (Htail Hc).
    match goal with
    | |- context [entry_at ?T ?i] =>
        replace (entry_at T i) with (entry_at table3 i)
          by (symmetry; apply entry_at_same_entries;
              destruct (free_handle_list_head _ =? HMGRTABLE_INVALID_INDEX); reflexivity)
    end.
    apply Z.eqb_neq in Hc. rewrite Hc in H3. cbn [negb] in H3.
    pose proof H3 as (arr2 & e2 & Harr2 & _ & Hl2 & _)%update_entry_Ok.
    assert (Hat : entry_at table2 (free_handle_list_tail table) = Ok e2).
    { apply entry_at_Ok. exists arr2. split; [assumption |]. split; [lia | assumption]. }
    eexists. split; [eapply entry_at_update_same; eassumption |].
    rewrite next_set_next. apply u32_small. lia.
Qed.

(** X19. When expand_table succeeds, every new slot is Free with generation
    1 and instance 0 and the new slots are chained in index order: the first
    points back to the old tail, each points forward to the next, and the
    last to the sentinel. If the free list was not empty, its old tail
    points forward to the first new slot. *)
Theorem expand_table_appends_chain mem table n table' :
  table_ok 0 table ->
  expand_table mem table n = Ok (table', true) ->
  (forall j, table_size table <= j < table_size table' ->
     exists e, entry_at table' j = Ok e /\
       appended e
         (if j =? table_size table then free_handle_list_tail table else j - 1)
         (if j =? table_size table' - 1 then HMGRTABLE_INVALID_INDEX else j + 1)) /\
  (free_count table <> 0 ->
     exists e, entry_at table' (free_handle_list_tail table) = Ok e /\
       next_free_index e = table_size table).
Proof. apply expand_table_chain. Qed.

Lemma grown_table_run :
  expand_table (Some zeroed) one_alloc_table 0 = Ok (grown_table, true).
Proof. vm_compute. reflexivity. Qed.

Lemma expand_table_appends_chain_witness :
  (exists e, entry_at grown_table 1024 = Ok e /\ appended e 1023 1025) /\
  (exists e, entry_at grown_table 1023 = Ok e /\ next_free_index e = 1024).
Proof.
  destruct (expand_table_appends_chain (Some zeroed) one_alloc_table 0 grown_table
              (reachable_table_ok _ (one_alloc_table_reachable _ I)) grown_table_run)
    as [Hnew Hold].
  split.
  - apply (Hnew 1024). change (1024 <= 1024 < 2048). lia.
  - apply Hold. discriminate.
Defined.

(** ** The free list under allocation and free *)

Lemma entry_at_update table i f table' j :
  update_entry table i f = Ok table' ->
  entry_at table' j = if decide (j = i) then f <$> entry_at table j else entry_at table j.
Proof.
  intros H. destruct (decide (j = i)) as [-> | Hne].
  - pose proof H as (arr & e & Harr & Hi & Hl & _)%update_entry_Ok.
    assert (He : entry_at table i = Ok e) by (apply entry_at_Ok; eauto).
    rewrite He. exact (entry_at_update_same _ _ _ _ _ H He).
  - destruct (Z.le_gt_cases 0 j) as [Hj | Hj].
    + apply (entry_at_update_other _ _ _ _ _ H); [assumption | congruence].
    + apply update_entry_Ok in H as (arr & e & Harr & _ & _ & ->).
      unfold entry_at. cbn [entry_table with_entry_table]. rewrite Harr.
      destruct (Z.leb_spec 0 j); [lia | reflexivity].
Qed.

Lemma nodup_range_length (l : list Z) n :
  0 <= n -> NoDup l -> (forall x, x ∈ l -> 0 <= x < n) -> Z.of_nat (length l) <= n.
Proof.
  intros Hn Hnd Hin.
  assert (Hsub : l ⊆+ seqZ 0 n).
  { apply NoDup_submseteq; [assumption |]. intros x Hx. apply elem_of_seqZ.
    specialize (Hin x Hx). lia. }
  apply submseteq_length in Hsub. rewrite length_seqZ in Hsub. lia.
Qed.

Lemma free_list_member table fl i :
  free_list_is table fl -> i ∈ fl ->
  exists e, entry_at table i = Ok e /\ type e = HMGRENTRY_TYPE_FREE.
Proof.
  intros Hfl [k Hk]%list_elem_of_lookup_1.
  destruct (fl_links _ _ Hfl k i Hk) as (e & He & Ht & _). eauto.
Qed.

Lemma free_list_in_table table fl i :
  array_ok table -> free_list_is table fl -> i ∈ fl -> 0 <= i < table_size table.
Proof.
  intros Ha Hfl Hi. destruct (free_list_member _ _ _ Hfl Hi) as (e & He & _).
  exact (entry_at_bounds _ _ _ Ha He).
Qed.

(** The free list is no longer than the table; it is shorter when some
    slot is occupied. *)
Lemma free_list_length table fl :
  table_ok 0 table -> free_list_is table fl -> free_count table <= table_size table.
Proof.
  intros Hok Hfl. rewrite (fl_count _ _ Hfl).
  apply nodup_range_length.
  - apply (ok_size _ _ Hok).
  - apply (fl_nodup _ _ Hfl).
  - intros x Hx. exact (free_list_in_table _ _ _ (ok_array _ _ Hok) Hfl Hx).
Qed.

Lemma free_list_length_occupied table fl i e :
  table_ok 0 table -> free_list_is table fl ->
  entry_at table i = Ok e -> type e <> HMGRENTRY_TYPE_FREE ->
  (i ∉ fl) /\ free_count table < table_size table.
Proof.
  intros Hok Hfl He Ht.
  assert (Hni : i ∉ fl).
  { intros Hi. destruct (free_list_member _ _ _ Hfl Hi) as (e' & He' & Ht'). congruence. }
  split; [assumption |].
  rewrite (fl_count _ _ Hfl).
  pose proof (nodup_range_length (i :: fl) (table_size table)) as Hl.
  cbn [length] in Hl. rewrite Nat2Z.inj_succ in Hl.
  enough (Z.succ (Z.of_nat (length fl)) <= table_size table) by lia.
  apply Hl.
  - apply (ok_size _ _ Hok).
  - apply NoDup_cons. split; [assumption | apply (fl_nodup _ _ Hfl)].
  - intros x [-> | Hx]%elem_of_cons.
    + exact (entry_at_bounds _ _ _ (ok_array _ _ Hok) He).
    + exact (free_list_in_table _ _ _ (ok_array _ _ Hok) Hfl Hx).
Qed.

Lemma free_list_init : free_list_is hmgrtable_init [].
Proof.
  split; try reflexivity.
  - apply NoDup_nil_2.
  - intros k i Hk. discriminate.
  - intros i e He. discriminate.
Qed.

(** A write that leaves the type and the forward link of a slot alone
    leaves the free list alone. *)
Lemma free_list_update table fl i f table' :
  (forall e, type (f e) = type e /\ next_free_index (f e) = next_free_index e) ->
  update_entry table i f = Ok table' ->
  free_list_is table fl -> free_list_is table' fl.
Proof.
  intros Hf H Hfl.
  pose proof (update_entry_fields _ _ _ _ H) as (Hh & Ht & _ & Hc).
  split.
  - rewrite Hh. apply (fl_head _ _ Hfl).
  - rewrite Ht. apply (fl_tail _ _ Hfl).
  - rewrite Hc. apply (fl_count _ _ Hfl).
  - apply (fl_nodup _ _ Hfl).
  - intros k j Hk. destruct (fl_links _ _ Hfl k j Hk) as (e & He & Hty & Hn).
    rewrite (entry_at_update _ _ _ _ j H), He.
    destruct (decide (j = i)).
    + exists (f e). destruct (Hf e) as [-> ->]. auto.
    + exists e. auto.
  - intros j e' He' Hty. rewrite (entry_at_update _ _ _ _ j H) in He'.
    destruct (decide (j = i)).
    + destruct (entry_at table j) as [e0 | x] eqn:He; [| discriminate].
      injection He' as <-. apply (fl_all _ _ Hfl j e0 He).
      destruct (Hf e0) as [<- _]. assumption.
    + exact (fl_all _ _ Hfl j e' He' Hty).
Qed.

Lemma last_app_one {A} (l : list A) x : last (l ++ [x]) = Some x.
Proof. apply last_snoc. Qed.

(** A free of a valid handle puts its slot at the end of the free list. *)
Lemma free_list_free table fl t h table' :
  table_ok 0 table -> free_list_is table fl -> fl <> [] ->
  is_handle_valid table h true t = Ok true ->
  hmgrtable_free_handle table t h = Ok table' ->
  free_list_is table' (fl ++ [get_index h]).
Proof.
  intros Hok Hfl Hne Hv H.
  pose proof Hv as (e & _ & He & _ & _ & Hty & _)%is_handle_valid_true.
  destruct (free_list_length_occupied _ _ _ _ Hok Hfl He Hty) as [Hni Hlt].
  pose proof (ok_size _ _ Hok) as Hsz. rewrite index_max_value in Hsz.
  pose proof (fl_count _ _ Hfl) as Hcount.
  set (i := get_index h) in *.
  (* the tail is the last slot of the list *)
  destruct (last fl) as [tl |] eqn:Hlast; [| apply last_None in Hlast; contradiction].
  pose proof (fl_tail _ _ Hfl) as Htail. rewrite Hlast in Htail. cbn [default from_option id] in Htail.
  assert (Htl : tl ∈ fl).
  { rewrite last_lookup in Hlast. eapply list_elem_of_lookup_2. eassumption. }
  assert (Htli : tl <> i) by (intros ->; contradiction).
  unfold hmgrtable_free_handle in H. rewrite Hv in H. cbn [mbind outcome_bind] in H.
  fold i in H.
  apply bind_Ok in H as (table1 & H1 & H).
  apply bind_Ok in H as (table2 & H2 & H).
  apply bind_Ok in H as (table3 & H3 & H).
  injection H as <-.
  pose proof (update_entry_fields _ _ _ _ H1) as (Hh1 & Ht1 & Hs1 & Hc1).
  pose proof (update_entry_fields _ _ _ _ H2) as (Hh2 & Ht2 & Hs2 & Hc2).
  pose proof (update_entry_fields _ _ _ _ H3) as (Hh3 & Ht3 & Hs3 & Hc3).
  cbn [with_free_count with_tail free_handle_list_head free_handle_list_tail table_size
       free_count] in *.
  rewrite Ht2, Ht1, Htail in H3.
  (* the entries of the result, slot by slot *)
  assert (Hother : forall j, j <> i -> j <> tl ->
            entry_at (with_tail i table3) j = entry_at table j).
  { intros j Hji Hjt.
    transitivity (entry_at table3 j); [apply entry_at_same_entries; reflexivity |].
    rewrite (entry_at_update _ _ _ _ j H3), decide_False by assumption.
    rewrite (entry_at_update _ _ _ _ j H2), decide_False by assumption.
    transitivity (entry_at table1 j); [apply entry_at_same_entries; reflexivity |].
    rewrite (entry_at_update _ _ _ _ j H1), decide_False by assumption. reflexivity. }
  assert (Hattl : entry_at (with_tail i table3) tl
                  = set_next_free_index i <$> entry_at table tl).
  { transitivity (entry_at table3 tl); [apply entry_at_same_entries; reflexivity |].
    rewrite (entry_at_update _ _ _ _ tl H3), decide_True by reflexivity.
    rewrite (entry_at_update _ _ _ _ tl H2), decide_False by assumption.
    f_equal.
    transitivity (entry_at table1 tl); [apply entry_at_same_entries; reflexivity |].
    rewrite (entry_at_update _ _ _ _ tl H1), decide_False by assumption. reflexivity. }
  assert (Hati : exists e', entry_at (with_tail i table3) i = Ok e' /\
                   type e' = HMGRENTRY_TYPE_FREE /\
                   next_free_index e' = HMGRTABLE_INVALID_INDEX).
  { assert (He1 : exists e1, entry_at table1 i = Ok e1 /\ type e1 = HMGRENTRY_TYPE_FREE).
    { rewrite (entry_at_update _ _ _ _ i H1), decide_True, He by reflexivity.
      eexists. split; [reflexivity |].
      cbn [fmap outcome_fmap].
      destruct (negb _); reflexivity. }
    destruct He1 as (e1 & He1 & Hty1).
    eexists. split.
    - transitivity (entry_at table3 i); [apply entry_at_same_entries; reflexivity |].
      rewrite (entry_at_update _ _ _ _ i H3), decide_False by (intros Heq; apply Htli; symmetry; exact Heq).
      rewrite (entry_at_update _ _ _ _ i H2), decide_True by reflexivity.
      replace (entry_at (with_free_count (u32 (free_count table1 + 1)) table1) i)
        with (entry_at table1 i) by (apply entry_at_same_entries; reflexivity).
      rewrite He1. reflexivity.
    - split; [exact Hty1 |]. rewrite next_set_prev, next_set_next. reflexivity. }
  split; cbn [with_tail free_handle_list_head free_handle_list_tail free_count].
  - rewrite Hh3, Hh2, Hh1, (fl_head _ _ Hfl).
    destruct fl; [contradiction | reflexivity].
  - rewrite last_app_one. reflexivity.
  - rewrite Hc3, Hc2, Hc1, length_app, Hcount. cbn [length].
    rewrite u32_small by lia. lia.
  - apply NoDup_app. split; [apply (fl_nodup _ _ Hfl) |]. split; [| apply NoDup_singleton].
    intros x Hx Hx'%list_elem_of_singleton. subst x. contradiction.
  - intros k j Hk. apply lookup_app_Some in Hk as [Hk | [Hlen Hk]].
    + pose proof (list_elem_of_lookup_2 _ _ _ Hk) as Hj.
      assert (Hji : j <> i) by (intros ->; contradiction).
      destruct (fl_links _ _ Hfl k j Hk) as (ej & Hej & Htj & Hnj).
      destruct (decide (j = tl)) as [-> | Hjt].
      * exists (set_next_free_index i ej). rewrite Hattl, Hej.
        split; [reflexivity |]. split; [exact Htj |].
        rewrite next_set_next.
        rewrite last_lookup in Hlast.
        pose proof (NoDup_lookup _ _ _ _ (fl_nodup _ _ Hfl) Hk Hlast) as ->.
        assert (length fl <> 0)%nat by (destruct fl; [contradiction | discriminate]).
        replace (S (Nat.pred (length fl))) with (length fl) by lia.
        rewrite lookup_app_r, Nat.sub_diag by lia. cbn.
        apply u32_small. pose proof (get_index_range h). fold i in H0. lia.
      * exists ej. rewrite Hother by assumption.
        split; [assumption |]. split; [assumption |].
        rewrite Hnj.
        assert (S k < length fl)%nat.
        { pose proof (lookup_lt_Some _ _ _ Hk).
          destruct (decide (S k = length fl)) as [Heq | ]; [| lia].
          exfalso. apply Hjt. rewrite last_lookup in Hlast.
          replace (Nat.pred (length fl)) with k in Hlast by lia. congruence. }
        rewrite lookup_app_l by assumption. reflexivity.
    + destruct (k - length fl)%nat as [| m] eqn:Hm; [| discriminate].
      injection Hk as <-. destruct Hati as (e' & He' & Hty' & Hn').
      exists e'. split; [assumption |]. split; [assumption |].
      rewrite lookup_ge_None_2; [assumption |]. rewrite length_app. cbn. lia.
  - intros j e' He' Hty'. apply elem_of_app.
    destruct (decide (j = i)) as [-> | Hji]; [right; apply list_elem_of_singleton; reflexivity |].
    left. destruct (decide (j = tl)) as [-> | Hjt]; [assumption |].
    rewrite Hother in He' by assumption. exact (fl_all _ _ Hfl j e' He' Hty').
Qed.

Lemma expand_loop_fields n : forall table_index prev table table' table_index',
  expand_loop n table_index prev table = Ok (table', table_index') ->
  free_handle_list_head table' = free_handle_list_head table /\
  table_size table' = table_size table.
Proof.
  induction n as [| n IH]; intros idx prev table table' idx' H.
  - injection H as <- _. auto.
  - cbn [expand_loop] in H. apply bind_Ok in H as (table1 & H1 & H).
    apply IH in H as [-> ->].
    pose proof (update_entry_fields _ _ _ _ H1) as (Hh & _ & Hs & _). auto.
Qed.

(** The head of the free list after a growth: the first new slot when the
    list was empty, the old head otherwise. *)
Lemma expand_table_head mem table n table' :
  expand_table mem table n = Ok (table', true) ->
  free_handle_list_head table' =
    (let head := match entry_table table with
                 | Some _ => free_handle_list_head table
                 | None => 0
                 end in
     if head =? HMGRTABLE_INVALID_INDEX then table_size table else head).
Proof.
  intros H. unfold expand_table in H.
  apply bind_Ok in H as ([|] & _ & H); cbn [negb] in H; [| discriminate].
  destruct (_ <? _); [discriminate |].
  destruct mem as [fresh |]; [| discriminate].
  apply bind_Ok in H as (copied & Hcopy & H).
  assert (Hcopied : free_handle_list_head copied
                    = match entry_table table with
                      | Some _ => free_handle_list_head table
                      | None => 0
                      end /\ table_size copied = table_size table).
  { destruct (entry_table table) as [old |].
    - destruct (orb _ _); [discriminate |]. injection Hcopy as <-. auto.
    - injection Hcopy as <-. auto. }
  destruct Hcopied as [Hhead Hsize].
  apply bind_Ok in H as ([table1 idx] & Hloop & H).
  apply expand_loop_fields in Hloop as [Hh1 Hs1].
  apply bind_Ok in H as (table2 & H2 & H).
  apply bind_Ok in H as (table3 & H3 & H).
  pose proof (update_entry_fields _ _ _ _ H2) as (Hh2 & _ & Hs2 & _).
  assert (Hh3 : free_handle_list_head table3 = free_handle_list_head table2 /\
                table_size table3 = table_size table2).
  { destruct (negb _).
    - pose proof (update_entry_fields _ _ _ _ H3) as (? & _ & ? & _). auto.
    - injection H3 as <-. auto. }
  destruct Hh3 as [Hh3 Hs3].
  injection H as <-. cbn zeta.
  rewrite <- Hhead, <- Hh1, <- Hh2, <- Hh3, <- Hsize, <- Hs1, <- Hs2, <- Hs3.
  change (free_handle_list_head (with_tail ?v table3)) with (free_handle_list_head table3).
  destruct (free_handle_list_head table3 =? HMGRTABLE_INVALID_INDEX); reflexivity.
Qed.

Lemma expand_target_default table :
  0 <= table_size table <= HMGRHANDLE_INDEX_MAX ->
  expand_target table 0 = table_size table + 1024.
Proof.
  intros Hs. rewrite index_max_value in Hs. unfold expand_target, table_size_increment.
  change HMGRTABLE_SIZE_INCREMENT with 1024.
  rewrite u32_small by lia.
  destruct (Z.ltb_spec (table_size table + 1024) 0); [lia | reflexivity].
Qed.

(** A growth by the default increment puts the new slots, in index order,
    at the end of the free list. *)
Lemma free_list_expand mem table fl table' :
  table_ok 0 table -> free_list_is table fl ->
  expand_table mem table 0 = Ok (table', true) ->
  free_list_is table' (fl ++ seqZ (table_size table) 1024) /\
  free_count table' = free_count table + 1024.
Proof.
  intros Hok Hfl H.
  pose proof (expand_table_spec 0 mem table 0 ltac:(lia) Hok) as Hspec.
  rewrite H in Hspec. destruct Hspec as (Hok' & _ & Hfit & Hsize & Hcount & Htail').
  pose proof (ok_size _ _ Hok) as Hsz.
  rewrite (expand_target_default _ Hsz) in *.
  rewrite index_max_value in *.
  pose proof (free_list_length _ _ Hok Hfl) as Hlen.
  pose proof (fl_count _ _ Hfl) as Hc.
  unfold table_size_increment in Hcount. change HMGRTABLE_SIZE_INCREMENT with 1024 in Hcount.
  rewrite u32_small in Hcount by lia.
  destruct (expand_table_chain _ _ _ _ Hok H) as [Hnew Hlink].
  rewrite Hsize in Hnew.
  pose proof (expand_table_keeps _ _ _ _ _ Hok H) as Hkeep.
  pose proof (expand_table_head _ _ _ _ H) as Hhead. cbn zeta in Hhead.
  set (size := table_size table) in *.
  assert (Hrange : forall x, x ∈ fl -> 0 <= x < size).
  { intros x Hx. exact (free_list_in_table _ _ _ (ok_array _ _ Hok) Hfl Hx). }
  assert (Hlast : fl <> [] -> last fl = Some (free_handle_list_tail table) /\
                              free_handle_list_tail table ∈ fl).
  { intros Hne. pose proof (fl_tail _ _ Hfl) as Ht.
    destruct (last fl) as [tl |] eqn:Hl; [| apply last_None in Hl; contradiction].
    cbn [default from_option id] in Ht. rewrite Ht. split; [reflexivity |].
    rewrite last_lookup in Hl. eapply list_elem_of_lookup_2. eassumption. }
  split; [| assumption]. split.
  - rewrite Hhead. pose proof (fl_head _ _ Hfl) as Hh.
    destruct fl as [| f0 fl0].
    + change (free_handle_list_head table = HMGRTABLE_INVALID_INDEX) in Hh.
      rewrite app_nil_l, lookup_seqZ_lt by lia.
      cbn [default from_option id]. rewrite Z.add_0_r.
      pose proof (ok_array _ _ Hok) as Ha. unfold array_ok in Ha. fold size in Ha.
      destruct (entry_table table).
      * rewrite Hh. reflexivity.
      * rewrite Ha. reflexivity.
    + change (free_handle_list_head table = f0) in Hh.
      change (default HMGRTABLE_INVALID_INDEX (((f0 :: fl0) ++ seqZ size 1024) !! 0%nat))
        with f0.
      assert (Hin : f0 ∈ f0 :: fl0) by (apply elem_of_cons; left; reflexivity).
      destruct (free_list_member _ _ f0 Hfl Hin) as (e0 & He0 & _).
      pose proof He0 as (arr & -> & _)%entry_at_Ok.
      specialize (Hrange f0 Hin). rewrite Hh.
      destruct (Z.eqb_spec f0 HMGRTABLE_INVALID_INDEX) as [Heq | ]; [| reflexivity].
      exfalso. rewrite Heq in Hrange.
      change HMGRTABLE_INVALID_INDEX with 4278190080 in Hrange. lia.
  - rewrite Htail', last_lookup, length_app, length_seqZ.
    replace (Nat.pred (length fl + Z.to_nat 1024)) with (length fl + 1023)%nat by lia.
    rewrite lookup_app_r by lia.
    replace (length fl + 1023 - length fl)%nat with 1023%nat by lia.
    rewrite lookup_seqZ_lt by lia. cbn [default from_option id]. lia.
  - rewrite Hcount, Hc, length_app, length_seqZ. lia.
  - apply NoDup_app. split; [apply (fl_nodup _ _ Hfl) |]. split; [| apply NoDup_seqZ].
    intros x Hx Hx'%elem_of_seqZ. specialize (Hrange x Hx). lia.
  - intros k j Hk. apply lookup_app_Some in Hk as [Hk | [Hge Hk]].
    + pose proof (list_elem_of_lookup_2 _ _ _ Hk) as Hj.
      pose proof (lookup_lt_Some _ _ _ Hk) as Hklt.
      assert (Hne : fl <> []) by (intros ->; inversion Hj).
      destruct (Hlast Hne) as [Hl Htl]. rewrite last_lookup in Hl.
      destruct (fl_links _ _ Hfl k j Hk) as (ej & Hej & Htj & Hnj).
      destruct (Hkeep j ej Hej) as (e' & He' & (Hty' & _) & Hsame).
      exists e'. split; [assumption |]. split; [congruence |].
      destruct (decide (j = free_handle_list_tail table)) as [-> | Hjt].
      * pose proof (NoDup_lookup _ _ _ _ (fl_nodup _ _ Hfl) Hk Hl) as ->.
        replace (S (Nat.pred (length fl))) with (length fl) by lia.
        rewrite lookup_app_r, Nat.sub_diag by lia.
        rewrite lookup_seqZ_lt by lia. cbn [default from_option id]. rewrite Z.add_0_r.
        destruct Hlink as (e2 & He2 & Hn2); [lia |].
        congruence.
      * rewrite (Hsame Hjt), Hnj.
        assert (S k < length fl)%nat.
        { destruct (decide (S k = length fl)) as [Heq |]; [| lia].
          exfalso. apply Hjt.
          replace (Nat.pred (length fl)) with k in Hl by lia. congruence. }
        rewrite lookup_app_l by assumption. reflexivity.
    + apply lookup_seqZ in Hk as [-> Hm].
      destruct (Hnew (size + Z.of_nat (k - length fl)) ltac:(lia))
        as (e & He & Hty & _ & _ & _ & Hn).
      exists e. split; [assumption |]. split; [assumption |].
      rewrite Hn.
      destruct (Z.eqb_spec (size + Z.of_nat (k - length fl)) (size + 1024 - 1)) as [Heq | Hneq].
      * rewrite lookup_ge_None_2; [reflexivity |].
        rewrite length_app, length_seqZ. lia.
      * rewrite lookup_app_r by lia.
        rewrite lookup_seqZ_lt by lia. cbn [default from_option id]. lia.
  - intros j e' He' Hty'. apply elem_of_app.
    pose proof (entry_at_bounds _ _ _ (ok_array _ _ Hok') He') as Hj. rewrite Hsize in Hj.
    destruct (Z.lt_ge_cases j size) as [Hlt | Hge].
    + left. destruct (entry_at_in_bounds table j (ok_array _ _ Hok)) as [e He];
        [fold size; lia |].
      destruct (Hkeep j e He) as (e2 & He2 & (Hty2 & _) & _).
      apply (fl_all _ _ Hfl j e He). congruence.
    + right. apply elem_of_seqZ. lia.
Qed.

(** Taking the first slot off the list. *)
Lemma free_list_pop table f0 fl table' :
  free_list_is table (f0 :: fl) -> fl <> [] ->
  free_handle_list_head table' = default HMGRTABLE_INVALID_INDEX (fl !! 0%nat) ->
  free_handle_list_tail table' = free_handle_list_tail table ->
  free_count table' = free_count table - 1 ->
  (forall j, j <> f0 -> exists g,
     (forall e, type (g e) = type e /\ next_free_index (g e) = next_free_index e) /\
     entry_at table' j = g <$> entry_at table j) ->
  (forall e', entry_at table' f0 = Ok e' -> type e' <> HMGRENTRY_TYPE_FREE) ->
  free_list_is table' fl.
Proof.
  intros Hfl Hne Hh Ht Hc Hframe Hused.
  pose proof (fl_nodup _ _ Hfl) as [Hni Hnd]%NoDup_cons.
  split.
  - exact Hh.
  - rewrite Ht, (fl_tail _ _ Hfl). destruct fl; [contradiction | reflexivity].
  - rewrite Hc, (fl_count _ _ Hfl). cbn [length]. lia.
  - exact Hnd.
  - intros k j Hk.
    assert (Hj : j <> f0).
    { intros ->. apply Hni. eapply list_elem_of_lookup_2. eassumption. }
    destruct (fl_links _ _ Hfl (S k) j Hk) as (e & He & Hty & Hn).
    destruct (Hframe j Hj) as (g & Hg & Hat).
    exists (g e). rewrite Hat, He. destruct (Hg e) as [-> ->]. auto.
  - intros j e' He' Hty'.
    destruct (decide (j = f0)) as [-> | Hj]; [exfalso; exact (Hused e' He' Hty') |].
    destruct (Hframe j Hj) as (g & Hg & Hat). rewrite Hat in He'.
    destruct (entry_at table j) as [e | x] eqn:He; [| discriminate].
    injection He' as <-. destruct (Hg e) as [Hgt _]. rewrite Hgt in Hty'.
    pose proof (fl_all _ _ Hfl j e He Hty') as [-> | Hin]%elem_of_cons;
      [contradiction | assumption].
Qed.

(** An allocation that finds more than the low-water mark of free slots
    takes the first slot of the free list. *)
Lemma free_list_alloc_take mem table fl o t mv table' h :
  table_ok 0 table -> free_list_is table fl ->
  HMGRTABLE_MIN_FREE_ENTRIES < free_count table ->
  t <> HMGRENTRY_TYPE_FREE ->
  hmgrtable_alloc_handle mem table o t mv = Ok (table', h) ->
  exists f0 fl' e0 n, fl = f0 :: fl' /\ free_list_is table' fl' /\
    free_count table' = free_count table - 1 /\
    entry_at table f0 = Ok e0 /\ h = build_handle f0 (unique e0) n.
Proof.
  intros Hok Hfl Hmin Ht H.
  change HMGRTABLE_MIN_FREE_ENTRIES with 128 in Hmin.
  pose proof (fl_count _ _ Hfl) as Hc.
  destruct fl as [| f0 [| f1 rest]]; [cbn [length] in Hc; lia | cbn [length] in Hc; lia |].
  pose proof (fl_head _ _ Hfl) as Hh. change (free_handle_list_head table = f0) in Hh.
  destruct (fl_links _ _ Hfl 0%nat f0 eq_refl) as (e0 & He0 & Hty0 & Hn0).
  change (next_free_index e0 = f1) in Hn0.
  destruct (fl_links _ _ Hfl 1%nat f1 eq_refl) as (e1 & He1 & _).
  pose proof (entry_at_bounds _ _ _ (ok_array _ _ Hok) He0) as Hr0.
  pose proof (entry_at_bounds _ _ _ (ok_array _ _ Hok) He1) as Hr1.
  pose proof (fl_nodup _ _ Hfl) as [Hni _]%NoDup_cons.
  assert (Hf01 : f1 <> f0).
  { intros ->. apply Hni. apply elem_of_cons. left. reflexivity. }
  pose proof (ok_free_count _ _ Hok) as Hfc. unfold is_u32 in Hfc.
  unfold hmgrtable_alloc_handle in H.
  change HMGRTABLE_MIN_FREE_ENTRIES with 128 in H.
  destruct (Z.leb_spec (free_count table) 128) as [| _]; [lia |].
  cbn [mbind outcome_bind negb] in H. rewrite Hh in H.
  destruct (Z.leb_spec (table_size table) f0) as [| _]; [lia |].
  rewrite He0 in H. cbn [mbind outcome_bind] in H.
  rewrite Hty0, Hn0 in H. cbn [type_eqb negb] in H.
  set (table2 := with_head f1 table) in *.
  change (table_size table2) with (table_size table) in H.
  change (free_handle_list_tail table2) with (free_handle_list_tail table) in H.
  destruct (Z.leb_spec (table_size table) f1) as [| _]; [lia |].
  rewrite andb_false_r in H.
  apply bind_Ok in H as (table3 & H3 & H).
  assert (H3' : free_handle_list_head table3 = f1 /\
                free_handle_list_tail table3 = free_handle_list_tail table /\
                free_count table3 = free_count table /\
                entry_at table3 f0 = Ok e0 /\
                forall j, exists g,
                  (forall e, type (g e) = type e /\
                             next_free_index (g e) = next_free_index e) /\
                  entry_at table3 j = g <$> entry_at table j).
  { destruct (negb _) in H3.
    - pose proof (update_entry_fields _ _ _ _ H3) as (? & ? & _ & ?).
      do 3 (split; [assumption |]).
      split.
      { rewrite (entry_at_update _ _ _ _ f0 H3), decide_False
          by (intros Heq; apply Hf01; symmetry; exact Heq).
        exact He0. }
      intros j. destruct (decide (j = f1)) as [-> | Hj].
      + exists (set_prev_free_index HMGRTABLE_INVALID_INDEX).
        split; [intros e; split; [reflexivity | apply next_set_prev] |].
        rewrite (entry_at_update _ _ _ _ f1 H3), decide_True by reflexivity.
        reflexivity.
      + exists (fun e => e). split; [auto |].
        rewrite (entry_at_update _ _ _ _ j H3), decide_False by assumption.
        change (entry_at table2 j) with (entry_at table j).
        destruct (entry_at table j); reflexivity.
    - injection H3 as <-. do 3 (split; [reflexivity |]).
      split; [exact He0 |].
      intros j. exists (fun e => e). split; [auto |].
      change (entry_at table2 j) with (entry_at table j).
      destruct (entry_at table j); reflexivity. }
  destruct H3' as (Hh3 & Ht3 & Hc3 & Hslot3 & Hframe3).
  apply bind_Ok in H as (slot & Hslot & H).
  assert (slot = e0) as -> by congruence.
  apply bind_Ok in H as (table4 & H4 & H).
  apply bind_Ok in H as (slot4 & Hslot4 & H).
  injection H as <- Hhandle.
  exists f0, (f1 :: rest), e0, (instance slot4).
  split; [reflexivity |].
  pose proof (update_entry_fields _ _ _ _ H4) as (Hh4 & Ht4 & _ & Hc4).
  assert (Hat : forall j,
            entry_at (with_free_count (u32 (free_count table4 - 1)) table4) j
            = entry_at table4 j) by (intros j; apply entry_at_same_entries; reflexivity).
  assert (Hcount : free_count (with_free_count (u32 (free_count table4 - 1)) table4)
                   = free_count table - 1).
  { cbn [with_free_count free_count]. rewrite Hc4, Hc3. apply u32_small. lia. }
  split; [| split; [exact Hcount | split; [exact He0 | symmetry; exact Hhandle]]].
  apply (free_list_pop table f0 (f1 :: rest)); [assumption | discriminate | | | | |].
  - cbn [with_free_count free_handle_list_head]. rewrite Hh4, Hh3. reflexivity.
  - cbn [with_free_count free_handle_list_tail]. rewrite Ht4, Ht3. reflexivity.
  - exact Hcount.
  - intros j Hj. destruct (Hframe3 j) as (g & Hg & Hatj). exists g.
    split; [exact Hg |].
    rewrite Hat, (entry_at_update _ _ _ _ j H4), decide_False by assumption.
    exact Hatj.
  - intros e' He'.
    rewrite Hat, (entry_at_update _ _ _ _ f0 H4), decide_True, Hslot in He' by reflexivity.
    injection He' as <-. exact Ht.
Qed.

(** Why a growth is refused. *)
Lemma expand_table_false_cause mem table n table' :
  expand_table mem table n = Ok (table', false) ->
  (free_count table <> 0 /\
   exists e, entry_at table (free_handle_list_tail table) = Ok e /\
     next_free_index e <> HMGRTABLE_INVALID_INDEX) \/
  HMGRHANDLE_INDEX_MAX < expand_target table n \/
  mem = None.
Proof.
  unfold expand_table. intros H. fold (expand_target table n) in H.
  apply bind_Ok in H as ([|] & Hcheck & H); cbn [negb] in H.
  - destruct (Z.ltb_spec HMGRHANDLE_INDEX_MAX (expand_target table n)); [auto |].
    destruct mem as [fresh |]; [| auto].
    apply bind_Ok in H as (copied & _ & H).
    apply bind_Ok in H as ([table1 idx] & _ & H).
    apply bind_Ok in H as (table2 & _ & H).
    apply bind_Ok in H as (table3 & _ & H).
    discriminate.
  - left. destruct (Z.eqb_spec (free_count table) 0) as [| Hne]; [discriminate |].
    split; [assumption |].
    apply bind_Ok in Hcheck as (e & He & Hnext). exists e. split; [assumption |].
    injection Hnext as Hnext. apply Z.eqb_neq. assumption.
Qed.

(** The tail of a free list that is not empty is a slot of the table, and
    its forward link is the sentinel. *)
Lemma free_list_tail_slot table fl :
  table_ok 0 table -> free_list_is table fl -> free_count table <> 0 ->
  0 <= free_handle_list_tail table < table_size table /\
  exists e, entry_at table (free_handle_list_tail table) = Ok e /\
    next_free_index e = HMGRTABLE_INVALID_INDEX.
Proof.
  intros Hok Hfl Hc. rewrite (fl_count _ _ Hfl) in Hc.
  pose proof (fl_tail _ _ Hfl) as Ht.
  destruct (last fl) as [tl |] eqn:Hl; [| apply last_None in Hl; subst fl; contradiction].
  change (free_handle_list_tail table = tl) in Ht. rewrite Ht.
  rewrite last_lookup in Hl.
  destruct (fl_links _ _ Hfl _ _ Hl) as (e & He & _ & Hn).
  split; [exact (entry_at_bounds _ _ _ (ok_array _ _ Hok) He) |].
  exists e. split; [assumption |]. rewrite Hn.
  rewrite lookup_ge_None_2; [reflexivity | lia].
Qed.

(** The two ways of an allocation: the growth it asks for is refused and
    nothing changes, or it takes the first slot of the free list, after
    the growth if there was one. *)
Lemma free_list_alloc mem table fl o t mv table' h :
  table_ok 0 table -> free_list_is table fl ->
  t <> HMGRENTRY_TYPE_FREE ->
  hmgrtable_alloc_handle mem table o t mv = Ok (table', h) ->
  (table' = table /\ h = 0 /\ free_count table <= HMGRTABLE_MIN_FREE_ENTRIES /\
   expand_table mem table 0 = Ok (table, false)) \/
  (exists table1 f0 fl' e0 n,
     ((table1 = table /\ fl = f0 :: fl') \/
      (expand_table mem table 0 = Ok (table1, true) /\
       fl ++ seqZ (table_size table) 1024 = f0 :: fl')) /\
     table_ok 0 table1 /\
     free_list_is table' fl' /\
     HMGRTABLE_MIN_FREE_ENTRIES <= free_count table' /\
     entry_at table1 f0 = Ok e0 /\ h = build_handle f0 (unique e0) n).
Proof.
  intros Hok Hfl Ht H.
  pose proof (ok_free_count _ _ Hok) as Hfc. unfold is_u32 in Hfc.
  destruct (Z.le_gt_cases (free_count table) HMGRTABLE_MIN_FREE_ENTRIES) as [Hlow | Hhigh].
  - pose proof H as H0. unfold hmgrtable_alloc_handle in H0.
    destruct (Z.leb_spec (free_count table) HMGRTABLE_MIN_FREE_ENTRIES) as [_ |]; [| lia].
    apply bind_Ok in H0 as ([table1 [|]] & Hexp & H0); cbn [negb] in H0.
    + right.
      destruct (free_list_expand _ _ _ _ Hok Hfl Hexp) as [Hfl1 Hc1].
      pose proof (expand_table_spec 0 mem table 0 ltac:(lia) Hok) as Hspec.
      rewrite Hexp in Hspec. destruct Hspec as (Hok1 & _).
      assert (H1 : hmgrtable_alloc_handle mem table1 o t mv = Ok (table', h)).
      { unfold hmgrtable_alloc_handle.
        destruct (Z.leb_spec (free_count table1) HMGRTABLE_MIN_FREE_ENTRIES) as [Hle |].
        - change HMGRTABLE_MIN_FREE_ENTRIES with 128 in Hle. lia.
        - cbn [mbind outcome_bind negb]. exact H0. }
      destruct (free_list_alloc_take _ _ _ _ _ _ _ _ Hok1 Hfl1
                  ltac:(change HMGRTABLE_MIN_FREE_ENTRIES with 128; lia) Ht H1)
        as (f0 & fl' & e0 & n & Heq & Hfl' & Hc' & He0 & Hh).
      exists table1, f0, fl', e0, n.
      split; [right; split; assumption |]. split; [assumption |]. split; [assumption |].
      split; [change HMGRTABLE_MIN_FREE_ENTRIES with 128; lia | auto].
    + left. injection H0 as <- <-. pose proof (expand_table_false _ _ _ _ Hexp) as ->. auto.
  - right.
    destruct (free_list_alloc_take _ _ _ _ _ _ _ _ Hok Hfl ltac:(lia) Ht H)
      as (f0 & fl' & e0 & n & Heq & Hfl' & Hc' & He0 & Hh).
    exists table, f0, fl', e0, n.
    split; [left; split; [reflexivity | assumption] |]. split; [assumption |].
    split; [assumption |].
    split; [lia | auto].
Qed.

(** ** Counting the free slots *)

(** A list without repetition of the positions at which a property holds
    is as long as the list of the elements with the property. *)
Lemma count_by_indices {A} (P : A -> Prop) `{!forall x, Decision (P x)} (arr : list A) :
  forall S : list nat, NoDup S ->
    (forall n, n ∈ S <-> exists e, arr !! n = Some e /\ P e) ->
    length (filter P arr) = length S.
Proof.
  induction arr as [| x arr IH] using rev_ind; intros S Hnd HS.
  - destruct S as [| n S]; [reflexivity |].
    destruct (proj1 (HS n)) as (e & He & _); [apply elem_of_cons; left; reflexivity |].
    discriminate.
  - rewrite filter_app, length_app.
    set (m := length arr).
    set (S' := filter (fun n => n <> m) S).
    assert (HS' : forall n, n ∈ S' <-> exists e, arr !! n = Some e /\ P e).
    { intros n. unfold S'. rewrite list_elem_of_filter, HS. split.
      - intros [Hn (e & He & HP)]. exists e. split; [| assumption].
        apply lookup_app_Some in He as [He | [Hge He]]; [assumption |].
        fold m in Hge, He. destruct (n - m)%nat as [| d] eqn:Hd; [lia | discriminate].
      - intros (e & He & HP). pose proof (lookup_lt_Some _ _ _ He). fold m in H.
        split; [lia |]. exists e. split; [| assumption].
        rewrite lookup_app_l by assumption. assumption. }
    rewrite (IH S' (NoDup_filter _ _ Hnd) HS').
    assert (Hm : m ∈ S <-> P x).
    { rewrite HS. unfold m. rewrite lookup_app_r, Nat.sub_diag by lia. cbn. split.
      - intros (e & [= <-] & HP). assumption.
      - intros HP. eauto. }
    destruct (decide (P x)) as [HP | HP].
    + rewrite filter_cons_True, filter_nil by assumption. cbn [length].
      assert (Hperm : S ≡ₚ m :: S').
      { apply NoDup_Permutation; [assumption | |].
        - apply NoDup_cons. split; [| apply NoDup_filter; assumption].
          unfold S'. rewrite list_elem_of_filter. intros [Hx _]. apply Hx. reflexivity.
        - intros n. rewrite elem_of_cons. unfold S'. rewrite list_elem_of_filter.
          destruct (decide (n = m)) as [-> | Hn].
          + split; [auto | intros _; apply Hm; assumption].
          + split; [auto | intros [? | [_ ?]]; [contradiction | assumption]]. }
      rewrite Hperm. cbn [length]. lia.
    + rewrite filter_cons_False, filter_nil by assumption. cbn [length].
      assert (Hperm : S ≡ₚ S').
      { apply NoDup_Permutation; [assumption | apply NoDup_filter; assumption |].
        intros n. unfold S'. rewrite list_elem_of_filter. split.
        - intros Hn. split; [| assumption]. intros ->. apply HP, Hm, Hn.
        - intros [_ Hn]. assumption. }
      rewrite Hperm. lia.
Qed.

(** With the free list in order, [free_count] is the number of Free
    slots. *)
Lemma free_list_count table fl :
  free_list_is table fl -> count_free table = free_count table.
Proof.
  intros Hfl. rewrite (fl_count _ _ Hfl). unfold count_free.
  destruct (entry_table table) as [arr |] eqn:Harr.
  - f_equal. rewrite <- (length_fmap Z.to_nat fl).
    apply count_by_indices.
    + apply NoDup_fmap_2_strong; [| apply (fl_nodup _ _ Hfl)].
      intros x y Hx Hy Heq.
      destruct (free_list_member _ _ _ Hfl Hx) as (ex & (_ & _ & Hx0 & _)%entry_at_Ok & _).
      destruct (free_list_member _ _ _ Hfl Hy) as (ey & (_ & _ & Hy0 & _)%entry_at_Ok & _).
      lia.
    + intros n. rewrite list_elem_of_fmap. split.
      * intros (i & -> & Hi).
        destruct (free_list_member _ _ _ Hfl Hi) as (e & (arr' & Harr' & _ & Hl)%entry_at_Ok & Ht).
        exists e. split; [congruence |]. apply type_eqb_eq. assumption.
      * intros (e & Hl & Ht%type_eqb_eq). exists (Z.of_nat n).
        split; [lia |]. apply (fl_all _ _ Hfl _ e); [| assumption].
        apply entry_at_Ok. exists arr. split; [assumption |]. split; [lia |].
        rewrite Nat2Z.id. assumption.
  - destruct fl as [| f0 fl]; [reflexivity |].
    destruct (free_list_member _ _ f0 Hfl) as (e & (arr & Harr' & _)%entry_at_Ok & _);
      [apply elem_of_cons; left; reflexivity | congruence].
Qed.

(** ** The free list along a run *)

Lemma set_destroyed_keeps b e :
  type (set_destroyed b e) = type e /\
  next_free_index (set_destroyed b e) = next_free_index e.
Proof. split; reflexivity. Qed.

Lemma is_handle_valid_init h ign t : is_handle_valid hmgrtable_init h ign t <> Ok true.
Proof. intros (e & _ & He & _)%is_handle_valid_true. discriminate. Qed.

Lemma list_discipline_run op table table' fl :
  list_discipline op -> table_ok 0 table -> free_list_is table fl ->
  table = hmgrtable_init \/ HMGRTABLE_MIN_FREE_ENTRIES <= free_count table ->
  run op table = Ok table' ->
  exists fl', free_list_is table' fl' /\
    (table' = hmgrtable_init \/ HMGRTABLE_MIN_FREE_ENTRIES <= free_count table').
Proof.
  intros Hop Hok Hfl Hst H.
  pose proof (ok_free_count _ _ Hok) as Hfc. unfold is_u32 in Hfc.
  destruct op as [mem o t mv | | t h | | h | h]; cbn [list_discipline] in Hop;
    try contradiction; cbn [run] in H.
  - (* allocation *)
    apply fmap_fst_Ok in H as [h H].
    destruct (free_list_alloc _ _ _ _ _ _ _ _ Hok Hfl Hop H)
      as [(-> & _) | (table1 & f0 & fl' & e0 & n & _ & _ & Hfl' & Hmin & _)]; eauto.
  - (* free *)
    destruct (is_handle_valid_in_bounds table h true t (ok_array _ _ Hok)) as [[|] Hv].
    + destruct Hst as [-> | Hmin]; [exfalso; exact (is_handle_valid_init _ _ _ Hv) |].
      assert (Hne : fl <> []).
      { intros ->. pose proof (fl_count _ _ Hfl) as Hc. cbn [length] in Hc.
        change HMGRTABLE_MIN_FREE_ENTRIES with 128 in Hmin. lia. }
      pose proof (free_list_free _ _ _ _ _ Hok Hfl Hne Hv H) as Hfl'.
      eexists. split; [exact Hfl' |]. right.
      rewrite (fl_count _ _ Hfl'), length_app. rewrite (fl_count _ _ Hfl) in Hmin.
      cbn [length]. lia.
    + unfold hmgrtable_free_handle in H. rewrite Hv in H. injection H as <-. eauto.
  - (* mark *)
    apply fmap_fst_Ok in H as [b H]. unfold hmgrtable_mark_destroyed in H.
    destruct (is_handle_valid_in_bounds table h false HMGRENTRY_TYPE_FREE (ok_array _ _ Hok))
      as [[|] Hv]; rewrite Hv in H; cbn [mbind outcome_bind negb] in H.
    + destruct Hst as [-> | Hmin]; [exfalso; exact (is_handle_valid_init _ _ _ Hv) |].
      apply bind_Ok in H as (table1 & H1 & H). injection H as <- _.
      exists fl. split.
      * apply (free_list_update _ _ _ _ _ (set_destroyed_keeps _) H1 Hfl).
      * right. pose proof (update_entry_fields _ _ _ _ H1) as (_ & _ & _ & ->). assumption.
    + injection H as <- _. eauto.
  - (* unmark *)
    apply fmap_fst_Ok in H as [b H]. unfold hmgrtable_unmark_destroyed in H.
    destruct (is_handle_valid_in_bounds table h true HMGRENTRY_TYPE_FREE (ok_array _ _ Hok))
      as [[|] Hv]; rewrite Hv in H; cbn [mbind outcome_bind negb] in H.
    + destruct Hst as [-> | Hmin]; [exfalso; exact (is_handle_valid_init _ _ _ Hv) |].
      apply bind_Ok in H as (table1 & H1 & H). injection H as <- _.
      exists fl. split.
      * apply (free_list_update _ _ _ _ _ (set_destroyed_keeps _) H1 Hfl).
      * right. pose proof (update_entry_fields _ _ _ _ H1) as (_ & _ & _ & ->). assumption.
    + injection H as <- _. eauto.
Qed.

Lemma list_discipline_table_ok table :
  reachable_by list_discipline table -> table_ok 0 table.
Proof.
  apply reachable_by_table_ok; [lia |].
  intros [] Hop; try exact I. contradiction.
Qed.

Lemma list_discipline_reachable table :
  reachable_by list_discipline table ->
  exists fl, free_list_is table fl /\
    (table = hmgrtable_init \/ HMGRTABLE_MIN_FREE_ENTRIES <= free_count table).
Proof.
  intros Hreach. induction Hreach as [| op table table' Hreach IH Hop Hrun].
  - exists []. split; [apply free_list_init | left; reflexivity].
  - destruct IH as (fl & Hfl & Hst).
    exact (list_discipline_run _ _ _ _ Hop (list_discipline_table_ok _ Hreach) Hfl Hst Hrun).
Qed.

Lemma entry_generation lo table i e :
  table_ok lo table -> entry_at table i = Ok e -> lo <= unique e <= HMGRHANDLE_UNIQUE_MAX.
Proof.
  intros Hok (arr & Harr & _ & Hl)%entry_at_Ok.
  pose proof (ok_entries _ _ Hok) as Hall. unfold entries_all in Hall.
  rewrite Harr in Hall. exact (Forall_lookup_1 _ _ _ _ Hall Hl).
Qed.

Lemma list_discipline_table_ok_1 table :
  reachable_by list_discipline table -> table_ok 1 table.
Proof.
  apply reachable_by_table_ok; [lia |].
  intros [] Hop; try exact I. contradiction.
Qed.

Lemma one_alloc_table_disciplined : reachable_by list_discipline one_alloc_table.
Proof. apply one_alloc_table_reachable. discriminate. Qed.

(** X20. In every table reached by allocations of object types, frees, marks
    and unmarks only, the free list is in order: from the head to the tail
    its forward links visit exactly the Free slots of the table, each once,
    the last one points to the sentinel, and free_count is its length. *)
Theorem free_list_maintained table :
  reachable_by list_discipline table -> exists fl, free_list_is table fl.
Proof. intros (fl & Hfl & _)%list_discipline_reachable. eauto. Qed.

Lemma free_list_maintained_witness : exists fl, free_list_is one_alloc_table fl.
Proof. apply free_list_maintained. exact one_alloc_table_disciplined. Defined.

(** X21. In every such table free_count is the number of Free slots,
    hmgrtable_get_used_entry_count is table_size less that number, which is
    the number of occupied slots, and is_empty holds exactly when every slot
    is Free. *)
Theorem free_count_is_exact table :
  reachable_by list_discipline table ->
  free_count table = count_free table /\
  hmgrtable_get_used_entry_count table = table_size table - count_free table /\
  (is_empty table = true <-> count_free table = table_size table).
Proof.
  intros Hreach.
  pose proof (list_discipline_table_ok _ Hreach) as Hok.
  destruct (list_discipline_reachable _ Hreach) as (fl & Hfl & _).
  pose proof (free_list_count _ _ Hfl) as Hc.
  pose proof (free_list_length _ _ Hok Hfl) as Hlen.
  pose proof (ok_free_count _ _ Hok) as Hfc. unfold is_u32 in Hfc.
  pose proof (ok_size _ _ Hok) as Hsz. rewrite index_max_value in Hsz.
  split; [symmetry; exact Hc |]. split.
  - unfold hmgrtable_get_used_entry_count. rewrite Hc. apply u32_small. lia.
  - unfold is_empty. rewrite Hc. apply Z.eqb_eq.
Qed.

Lemma free_count_is_exact_witness :
  free_count one_alloc_table = count_free one_alloc_table /\
  hmgrtable_get_used_entry_count one_alloc_table
    = table_size one_alloc_table - count_free one_alloc_table /\
  (is_empty one_alloc_table = true <-> count_free one_alloc_table = table_size one_alloc_table).
Proof. apply free_count_is_exact. exact one_alloc_table_disciplined. Defined.

(** X22. In every such table the two assertions that open
    hmgrtable_free_handle hold whenever the handle to free is valid:
    free_count is below table_size and at least HMGRTABLE_MIN_FREE_ENTRIES. *)
Theorem free_handle_asserts_hold table t h :
  reachable_by list_discipline table ->
  is_handle_valid table h true t = Ok true ->
  free_handle_asserts table.
Proof.
  intros Hreach Hv.
  pose proof (list_discipline_table_ok _ Hreach) as Hok.
  destruct (list_discipline_reachable _ Hreach) as (fl & Hfl & Hst).
  pose proof Hv as (e & _ & He & _ & _ & Hty & _)%is_handle_valid_true.
  destruct (free_list_length_occupied _ _ _ _ Hok Hfl He Hty) as [_ Hlt].
  split; [exact Hlt |].
  destruct Hst as [-> | Hmin]; [exfalso; exact (is_handle_valid_init _ _ _ Hv) | exact Hmin].
Qed.

Lemma free_handle_asserts_hold_witness : free_handle_asserts one_alloc_table.
Proof.
  apply (free_handle_asserts_hold one_alloc_table HMGRENTRY_TYPE_FREE 0x40000000).
  - exact one_alloc_table_disciplined.
  - exact one_alloc_table_valid.
Defined.

(** X23. In every such table an allocation of an object type, a free, a mark
    or an unmark completes without reading or writing outside the entry
    array. *)
Theorem disciplined_run_in_bounds table op :
  reachable_by list_discipline table -> list_discipline op ->
  exists table', run op table = Ok table'.
Proof.
  intros Hreach Hop.
  pose proof (list_discipline_table_ok _ Hreach) as Hok.
  destruct (list_discipline_reachable _ Hreach) as (fl & Hfl & Hst).
  assert (Htail : free_count table <> 0 ->
                  0 <= free_handle_list_tail table < table_size table).
  { intros Hc. apply (free_list_tail_slot _ _ Hok Hfl Hc). }
  assert (Hused : forall h ign t, is_handle_valid table h ign t = Ok true ->
                    free_count table <> 0).
  { intros h ign t Hv. destruct Hst as [-> | Hmin].
    - exfalso. exact (is_handle_valid_init _ _ _ Hv).
    - change HMGRTABLE_MIN_FREE_ENTRIES with 128 in Hmin. lia. }
  destruct op as [mem o t mv | | t h | | h | h]; cbn [list_discipline] in Hop;
    try contradiction; cbn [run].
  - pose proof (hmgrtable_alloc_handle_spec 0 mem table o t mv ltac:(lia) Hok) as Hspec.
    destruct (hmgrtable_alloc_handle mem table o t mv) as [[table' h] | i].
    + exists table'. reflexivity.
    + exfalso. destruct Hspec as (_ & Hc & -> & Hout). apply Hout, Htail, Hc.
  - destruct (is_handle_valid_in_bounds table h true t (ok_array _ _ Hok)) as [[|] Hv].
    + pose proof (hmgrtable_free_handle_valid 0 table t h ltac:(lia) Hok Hv) as Hspec.
      destruct (hmgrtable_free_handle table t h) as [table' | i].
      * exists table'. reflexivity.
      * exfalso. destruct Hspec as (-> & Hout). apply Hout, Htail, (Hused _ _ _ Hv).
    + exists table. unfold hmgrtable_free_handle. rewrite Hv. reflexivity.
  - unfold hmgrtable_mark_destroyed.
    destruct (is_handle_valid_in_bounds table h false HMGRENTRY_TYPE_FREE (ok_array _ _ Hok))
      as [[|] Hv]; rewrite Hv; cbn [mbind outcome_bind negb].
    + pose proof Hv as (e & Hlt & _)%is_handle_valid_true.
      pose proof (get_index_range h).
      destruct (update_entry_total 0 table (get_index h) (set_destroyed true) Hok)
        as [table' ->]; [lia |].
      exists table'. reflexivity.
    + exists table. reflexivity.
  - unfold hmgrtable_unmark_destroyed.
    destruct (is_handle_valid_in_bounds table h true HMGRENTRY_TYPE_FREE (ok_array _ _ Hok))
      as [[|] Hv]; rewrite Hv; cbn [mbind outcome_bind negb].
    + pose proof Hv as (e & Hlt & _)%is_handle_valid_true.
      pose proof (get_index_range h).
      destruct (update_entry_total 0 table (get_index h) (set_destroyed false) Hok)
        as [table' ->]; [lia |].
      exists table'. reflexivity.
    + exists table. reflexivity.
Qed.

Lemma disciplined_run_in_bounds_witness :
  exists table', run (Free device 0x40000000) one_alloc_table = Ok table'.
Proof.
  apply disciplined_run_in_bounds.
  - exact one_alloc_table_disciplined.
  - exact I.
Defined.

(** X24. In every such table an allocation of an object type returns a
    handle other than 0 whenever more than HMGRTABLE_MIN_FREE_ENTRIES slots
    are free, or the memory for the growth is granted and the table grown by
    the increment still fits the index field. *)
Theorem alloc_succeeds_while_growth_can mem table o t mv :
  reachable_by list_discipline table ->
  t <> HMGRENTRY_TYPE_FREE ->
  HMGRTABLE_MIN_FREE_ENTRIES < free_count table \/
  (mem <> None /\ table_size table + HMGRTABLE_SIZE_INCREMENT <= HMGRHANDLE_INDEX_MAX) ->
  exists table' h, hmgrtable_alloc_handle mem table o t mv = Ok (table', h) /\ h <> 0.
Proof.
  intros Hreach Ht Hcan.
  pose proof (list_discipline_table_ok _ Hreach) as Hok.
  pose proof (list_discipline_table_ok_1 _ Hreach) as Hok1.
  destruct (list_discipline_reachable _ Hreach) as (fl & Hfl & Hst).
  pose proof (hmgrtable_alloc_handle_spec 0 mem table o t mv ltac:(lia) Hok) as Hspec.
  destruct (hmgrtable_alloc_handle mem table o t mv) as [[table' h] | i] eqn:Halloc.
  2: { exfalso. destruct Hspec as (_ & Hc & -> & Hout).
       apply Hout, (free_list_tail_slot _ _ Hok Hfl Hc). }
  exists table', h. split; [reflexivity |]. clear Hspec.
  destruct (free_list_alloc _ _ _ _ _ _ _ _ Hok Hfl Ht Halloc)
    as [(_ & _ & Hlow & Hexp) | (table1 & f0 & fl' & e0 & n & Hcase & _ & _ & _ & He0 & ->)].
  - exfalso. destruct Hcan as [Hhigh | [Hmem Hfit]]; [lia |].
    pose proof (ok_size _ _ Hok) as Hsz.
    destruct (expand_table_false_cause _ _ _ _ Hexp) as [(Hc & e & He & Hn) | [Hbig | Hnone]].
    + destruct (free_list_tail_slot _ _ Hok Hfl Hc) as (_ & e' & He' & Hn'). congruence.
    + rewrite (expand_target_default _ Hsz) in Hbig.
      change HMGRTABLE_SIZE_INCREMENT with 1024 in Hfit. lia.
    + contradiction.
  - assert (Hok1' : table_ok 1 table1).
    { destruct Hcase as [[-> _] | [Hexp _]]; [assumption |].
      pose proof (expand_table_spec 1 mem table 0 ltac:(lia) Hok1) as Hspec.
      rewrite Hexp in Hspec. apply Hspec. }
    pose proof (entry_generation _ _ _ _ Hok1' He0) as Hu.
    change HMGRHANDLE_UNIQUE_MAX with 3 in Hu.
    intros Hzero.
    assert (Hg : get_unique (build_handle f0 (unique e0) n) = get_unique 0)
      by (rewrite Hzero; reflexivity).
    rewrite get_unique_build_handle_any in Hg.
    change (get_unique 0) with 0 in Hg. change (2 ^ 2) with 4 in Hg.
    rewrite Z.mod_small in Hg by lia. lia.
Qed.

Lemma alloc_succeeds_while_growth_can_witness :
  exists table' h,
    hmgrtable_alloc_handle (Some zeroed) one_alloc_table 4096 device true = Ok (table', h) /\
    h <> 0.
Proof.
  apply alloc_succeeds_while_growth_can.
  - exact one_alloc_table_disciplined.
  - discriminate.
  - left. change (128 < 1023). lia.
Defined.

(** X25. In every such table the free list is a queue: the free of a valid
    handle puts its slot at the end of the list, and an allocation that
    returns a handle takes the slot at the front, after the 1024 new slots
    of a growth, if there was one, have been put at the end in index order. *)
Theorem free_list_is_queue table :
  reachable_by list_discipline table ->
  exists fl,
    free_list_is table fl /\
    (forall t h table',
       is_handle_valid table h true t = Ok true ->
       hmgrtable_free_handle table t h = Ok table' ->
       free_list_is table' (fl ++ [get_index h])) /\
    (forall mem o t mv table' h,
       t <> HMGRENTRY_TYPE_FREE ->
       hmgrtable_alloc_handle mem table o t mv = Ok (table', h) -> h <> 0 ->
       exists grown fl',
         (grown = [] \/ grown = seqZ (table_size table) HMGRTABLE_SIZE_INCREMENT) /\
         fl ++ grown = get_index h :: fl' /\
         free_list_is table' fl').
Proof.
  intros Hreach.
  pose proof (list_discipline_table_ok _ Hreach) as Hok.
  destruct (list_discipline_reachable _ Hreach) as (fl & Hfl & Hst).
  exists fl. split; [exact Hfl |]. split.
  - intros t h table' Hv Hfree.
    destruct Hst as [-> | Hmin]; [exfalso; exact (is_handle_valid_init _ _ _ Hv) |].
    apply (free_list_free table fl t h table'); try assumption.
    intros ->. pose proof (fl_count _ _ Hfl) as Hc. cbn [length] in Hc.
    change HMGRTABLE_MIN_FREE_ENTRIES with 128 in Hmin. lia.
  - intros mem o t mv table' h Ht Halloc Hh.
    destruct (free_list_alloc _ _ _ _ _ _ _ _ Hok Hfl Ht Halloc)
      as [(_ & Hzero & _) | (table1 & f0 & fl' & e0 & n & Hcase & Hok1 & Hfl' & _ & He0 & ->)];
      [contradiction |].
    assert (Hgi : get_index (build_handle f0 (unique e0) n) = f0).
    { pose proof (entry_at_bounds _ _ _ (ok_array _ _ Hok1) He0) as Hr.
      pose proof (ok_size _ _ Hok1) as Hsz. rewrite index_max_value in Hsz.
      rewrite get_index_build_handle_any. apply Z.mod_small.
      change (2 ^ 24) with 16777216. lia. }
    rewrite Hgi.
    destruct Hcase as [[_ Heq] | [_ Heq]].
    + exists [], fl'. split; [left; reflexivity |]. rewrite app_nil_r. auto.
    + exists (seqZ (table_size table) 1024), fl'. split; [right; reflexivity | auto].
Qed.

Lemma free_list_is_queue_witness :
  exists fl,
    free_list_is one_alloc_table fl /\
    (forall t h table',
       is_handle_valid one_alloc_table h true t = Ok true ->
       hmgrtable_free_handle one_alloc_table t h = Ok table' ->
       free_list_is table' (fl ++ [get_index h])) /\
    (forall mem o t mv table' h,
       t <> HMGRENTRY_TYPE_FREE ->
       hmgrtable_alloc_handle mem one_alloc_table o t mv = Ok (table', h) -> h <> 0 ->
       exists grown fl',
         (grown = [] \/
          grown = seqZ (table_size one_alloc_table) HMGRTABLE_SIZE_INCREMENT) /\
         fl ++ grown = get_index h :: fl' /\
         free_list_is table' fl').
Proof. apply free_list_is_queue. exact one_alloc_table_disciplined. Defined.

(** ** Handles built from a slot *)

Lemma built_handle_valid table j e :
  table_ok 0 table -> entry_at table j = Ok e -> type e <> HMGRENTRY_TYPE_FREE ->
  get_index (build_handle j (unique e) (instance e)) = j /\
  is_handle_valid table (build_handle j (unique e) (instance e)) true (type e) = Ok true.
Proof.
  intros Hok He Hty.
  pose proof (entry_at_bounds _ _ _ (ok_array _ _ Hok) He) as Hj.
  pose proof (ok_size _ _ Hok) as Hsz. rewrite index_max_value in Hsz.
  pose proof (entry_generation _ _ _ _ Hok He) as Hg.
  change HMGRHANDLE_UNIQUE_MAX with 3 in Hg.
  assert (Hgi : get_index (build_handle j (unique e) (instance e)) = j).
  { rewrite get_index_build_handle_any. apply Z.mod_small.
    change (2 ^ 24) with 16777216. lia. }
  assert (Hgu : get_unique (build_handle j (unique e) (instance e)) = unique e).
  { rewrite get_unique_build_handle_any. apply Z.mod_small. change (2 ^ 2) with 4. lia. }
  split; [exact Hgi |].
  apply is_handle_valid_true. exists e. rewrite Hgi, Hgu.
  split; [lia |]. auto 10.
Qed.

(** X26. On a reachable table the handle hmgrtable_build_entry_handle makes
    for an occupied slot names that slot, and looking it up with the type of
    the slot and the destroyed flag ignored returns what
    hmgrtable_get_entry_object returns for the slot. *)
Theorem build_entry_handle_resolves table index t :
  reachable table ->
  hmgrtable_get_entry_type table index = Ok t -> t <> HMGRENTRY_TYPE_FREE ->
  exists h,
    hmgrtable_build_entry_handle table index = Ok h /\
    get_index h = index /\
    hmgrtable_get_object_ignore_destroyed table h t
      = hmgrtable_get_entry_object table index.
Proof.
  intros Hreach Htype Ht. apply reachable_table_ok in Hreach as Hok.
  unfold hmgrtable_get_entry_type in Htype.
  apply bind_Ok in Htype as (e & He & [= <-]).
  destruct (built_handle_valid _ _ _ Hok He Ht) as [Hgi Hv].
  exists (build_handle index (unique e) (instance e)).
  unfold hmgrtable_build_entry_handle, hmgrtable_get_entry_object. rewrite He.
  split; [reflexivity |]. split; [exact Hgi |].
  rewrite <- Hgi in He at 1. exact (lookup_valid _ _ _ _ _ Hv He).
Qed.

Lemma build_entry_handle_resolves_witness :
  exists h,
    hmgrtable_build_entry_handle one_alloc_table 0 = Ok h /\
    get_index h = 0 /\
    hmgrtable_get_object_ignore_destroyed one_alloc_table h device
      = hmgrtable_get_entry_object one_alloc_table 0.
Proof.
  apply build_entry_handle_resolves.
  - apply one_alloc_table_reachable. exact I.
  - unfold hmgrtable_get_entry_type. rewrite one_alloc_table_slot_0. reflexivity.
  - discriminate.
Defined.

(** ** Releasing the table *)

(** X27. hmgrtable_destroy releases the entry array but leaves table_size as
    it was, so on the released table the validation of any handle whose
    index is below that size reads the array that is no longer there. *)
Theorem destroy_keeps_size table h ign t :
  get_index h < table_size table ->
  table_size (hmgrtable_destroy table) = table_size table /\
  is_handle_valid (hmgrtable_destroy table) h ign t = OutOfBounds (get_index h).
Proof.
  intros Hlt.
  assert (Hs : table_size (hmgrtable_destroy table) = table_size table)
    by (unfold hmgrtable_destroy; destruct (entry_table table); reflexivity).
  assert (Ha : entry_table (hmgrtable_destroy table) = None)
    by (unfold hmgrtable_destroy; destruct (entry_table table) eqn:E; [reflexivity | exact E]).
  split; [exact Hs |].
  unfold is_handle_valid. rewrite Hs.
  destruct (Z.leb_spec (table_size table) (get_index h)); [lia |].
  unfold entry_at. rewrite Ha. reflexivity.
Qed.

Lemma destroy_keeps_size_witness :
  table_size (hmgrtable_destroy one_alloc_table) = table_size one_alloc_table /\
  is_handle_valid (hmgrtable_destroy one_alloc_table) 0x40000000 false device
    = OutOfBounds (get_index 0x40000000).
Proof. apply destroy_keeps_size. change (0 < 1024). lia. Defined.

(** * The claims on growing at the low-water mark and on the tail write *)

(** ** Allocation at the low-water mark *)





(** ** The write through the tail of the free list *)








